(** * Fruit Ninja (FruitNinja.c): game state, object pools and frame update

    A shallow embedding of the game logic of [FruitNinja.c]: the session
    variables, the two fixed-size pools, the three state transitions, the
    spawner, the slash resolution, the per-frame update and the draw pass.
    The raylib calls that feed the logic (frame time, mouse, random
    numbers, point/circle collision, text width) are inputs of the model;
    the draw pass is modelled by the sequence of drawing calls it makes.
    Window, asset and audio management do not touch the modelled store and
    are left out. *)

From Stdlib Require Import ZArith Lia Bool.
From Stdlib Require SpecFloat.
From stdpp Require Import base numbers list strings pretty.

Local Open Scope Z_scope.

(** ** IEEE-754 binary arithmetic

    C [float] and [double] values are modelled by their exact value: a
    finite number is a sign and an integer count of the format's smallest
    unit [2^emin].  Every operation computes the exact rational result and
    rounds it once, to nearest with ties to even, which is how IEEE-754
    defines the operations.  Expressions are evaluated in the type C gives
    them (no excess precision). *)

Module IEEE.

Record format := Format { prec : Z; emin : Z; emax : Z }.

Definition binary32 : format := Format 24 (-149) 128.
Definition binary64 : format := Format 53 (-1074) 1024.

(** [FFin neg n] is [(-1)^neg * n * 2^emin]; [FFin _ 0] are the two zeros. *)
Inductive fp : Type :=
| FNaN
| FInf (neg : bool)
| FFin (neg : bool) (n : N).

Definition is_nan (x : fp) : bool :=
  match x with FNaN => true | _ => false end.

(** The signed count of units of a finite number. *)
Definition sval (neg : bool) (n : N) : Z :=
  if neg then - Z.of_N n else Z.of_N n.

(** Number of binary digits of a positive integer, 0 otherwise. *)
Definition digits (q : Z) : Z := if q <=? 0 then 0 else Z.log2 q + 1.

(** Exponent (relative to the unit) of the last kept bit for a magnitude
    whose integer part is [q]. *)
Definition rshift (fmt : format) (q : Z) : Z := Z.max (digits q - prec fmt) 0.

(** Nearest integer to [N / S], ties to even ([0 <= N], [0 < S]). *)
Definition rne (N S : Z) : Z :=
  let k := N / S in
  match 2 * (N mod S) ?= S with
  | Lt => k
  | Gt => k + 1
  | Eq => if Z.even k then k else k + 1
  end.

(** The magnitude [N / D] (in units, [0 <= N], [0 < D]) rounded to the
    format, exponent unbounded above. *)
Definition round_mag (fmt : format) (N D : Z) : Z :=
  let j := rshift fmt (N / D) in
  rne N (D * 2 ^ j) * 2 ^ j.

Definition overflow (fmt : format) : Z := 2 ^ (emax fmt - emin fmt).

Definition round (fmt : format) (neg : bool) (N D : Z) : fp :=
  let m := round_mag fmt N D in
  if overflow fmt <=? m then FInf neg else FFin neg (Z.to_N m).

(** Rounding of a signed exact value [N / D] with [0 < D]; an exact zero
    takes the sign [zneg]. *)
Definition round_signed (fmt : format) (zneg : bool) (N D : Z) : fp :=
  match N with
  | Z0 => FFin zneg 0
  | Zpos _ => round fmt false N D
  | Zneg _ => round fmt true (- N) D
  end.

Definition opp (x : fp) : fp :=
  match x with
  | FNaN => FNaN
  | FInf s => FInf (negb s)
  | FFin s n => FFin (negb s) n
  end.

Definition add (fmt : format) (x y : fp) : fp :=
  match x, y with
  | FNaN, _ | _, FNaN => FNaN
  | FInf sx, FInf sy => if Bool.eqb sx sy then x else FNaN
  | FInf _, FFin _ _ => x
  | FFin _ _, FInf _ => y
  | FFin sx nx, FFin sy ny =>
      round_signed fmt (sx && sy) (sval sx nx + sval sy ny) 1
  end.

Definition sub (fmt : format) (x y : fp) : fp := add fmt x (opp y).

Definition mul (fmt : format) (x y : fp) : fp :=
  match x, y with
  | FNaN, _ | _, FNaN => FNaN
  | FInf sx, FInf sy => FInf (xorb sx sy)
  | FInf sx, FFin sy n | FFin sx n, FInf sy =>
      if (n =? 0)%N then FNaN else FInf (xorb sx sy)
  | FFin sx nx, FFin sy ny =>
      round fmt (xorb sx sy) (Z.of_N nx * Z.of_N ny) (2 ^ (- emin fmt))
  end.

Definition div (fmt : format) (x y : fp) : fp :=
  match x, y with
  | FNaN, _ | _, FNaN => FNaN
  | FInf _, FInf _ => FNaN
  | FInf sx, FFin sy _ => FInf (xorb sx sy)
  | FFin sx _, FInf sy => FFin (xorb sx sy) 0
  | FFin sx nx, FFin sy ny =>
      if (ny =? 0)%N then (if (nx =? 0)%N then FNaN else FInf (xorb sx sy))
      else round fmt (xorb sx sy) (Z.of_N nx * 2 ^ (- emin fmt)) (Z.of_N ny)
  end.

(** C's [x < y] and [x <= y]; [x > y] is [lt y x].  Any comparison with a
    NaN is false. *)
Definition lt (x y : fp) : bool :=
  match x, y with
  | FNaN, _ | _, FNaN => false
  | FInf sx, FInf sy => sx && negb sy
  | FInf sx, FFin _ _ => sx
  | FFin _ _, FInf sy => negb sy
  | FFin sx nx, FFin sy ny => sval sx nx <? sval sy ny
  end.

Definition le (x y : fp) : bool :=
  match x, y with
  | FNaN, _ | _, FNaN => false
  | FInf sx, FInf sy => sx || negb sy
  | FInf sx, FFin _ _ => sx
  | FFin _ _, FInf sy => negb sy
  | FFin sx nx, FFin sy ny => sval sx nx <=? sval sy ny
  end.

(** A value of the format: a number that rounding leaves as it is. *)
Definition representable (fmt : format) (x : fp) : Prop :=
  match x with
  | FNaN => False
  | FInf _ => True
  | FFin s n => round_signed fmt s (sval s n) 1 = FFin s n
  end.

(** Conversion of a C [int] to the format. *)
Definition of_int (fmt : format) (z : Z) : fp :=
  round_signed fmt false (z * 2 ^ (- emin fmt)) 1.

(** A decimal literal [num / den] ([0 < den]) read in the format. *)
Definition of_ratio (fmt : format) (num den : Z) : fp :=
  round_signed fmt false (num * 2 ^ (- emin fmt)) den.

(** Conversion between formats ([(float)d]). *)
Definition convert (src dst : format) (x : fp) : fp :=
  match x with
  | FFin s n =>
      let e := emin src - emin dst in
      if 0 <=? e then round_signed dst s (sval s n * 2 ^ e) 1
      else round_signed dst s (sval s n) (2 ^ (- e))
  | _ => x
  end.

(** Conversion to C [int]: the fraction is discarded.  C leaves the
    conversion of a NaN, an infinity or an out-of-range value undefined;
    the program only converts small constants. *)
Definition to_int (fmt : format) (x : fp) : Z :=
  match x with
  | FFin s n => if s then - (Z.of_N n / 2 ^ (- emin fmt))
                else Z.of_N n / 2 ^ (- emin fmt)
  | _ => 0
  end.

(** The same numbers in the Standard Library's [spec_float], to compare
    the operations above with its bit-level algorithms. *)
Definition to_spec (fmt : format) (x : fp) : SpecFloat.spec_float :=
  match x with
  | FNaN => SpecFloat.S754_nan
  | FInf s => SpecFloat.S754_infinity s
  | FFin s n =>
      match n with
      | Npos p =>
          match SpecFloat.binary_normalize (prec fmt) (emax fmt) (Zpos p) (emin fmt) false with
          | SpecFloat.S754_finite _ m e => SpecFloat.S754_finite s m e
          | _ => SpecFloat.S754_nan
          end
      | N0 => SpecFloat.S754_zero s
      end
  end.

Definition same_spec (a b : SpecFloat.spec_float) : bool :=
  match a, b with
  | SpecFloat.S754_nan, SpecFloat.S754_nan => true
  | SpecFloat.S754_zero s, SpecFloat.S754_zero s' => Bool.eqb s s'
  | SpecFloat.S754_infinity s, SpecFloat.S754_infinity s' => Bool.eqb s s'
  | SpecFloat.S754_finite s m e, SpecFloat.S754_finite s' m' e' =>
      Bool.eqb s s' && Pos.eqb m m' && Z.eqb e e'
  | _, _ => false
  end.

(** The four operations and the two comparisons give, on [x] and [y], what
    [SFadd], [SFsub], [SFmul], [SFdiv], [SFltb] and [SFleb] give. *)
Definition agrees (fmt : format) (x y : fp) : bool :=
  let p := prec fmt in
  let e := emax fmt in
  let sx := to_spec fmt x in
  let sy := to_spec fmt y in
  same_spec (to_spec fmt (add fmt x y)) (SpecFloat.SFadd p e sx sy) &&
  same_spec (to_spec fmt (sub fmt x y)) (SpecFloat.SFsub p e sx sy) &&
  same_spec (to_spec fmt (mul fmt x y)) (SpecFloat.SFmul p e sx sy) &&
  same_spec (to_spec fmt (div fmt x y)) (SpecFloat.SFdiv p e sx sy) &&
  Bool.eqb (lt x y) (SpecFloat.SFltb sx sy) &&
  Bool.eqb (le x y) (SpecFloat.SFleb sx sy).

(** Numbers on which the two are compared: the special values, the
    smallest and largest finite numbers, and a few others. *)
Definition probes (fmt : format) : list fp :=
  [ FNaN; FInf true; FFin true 0; FFin false 3;
    of_ratio fmt (2 ^ (emax fmt) - 2 ^ (emax fmt - prec fmt)) 1;
    of_int fmt 30; of_int fmt (-16777217);
    of_ratio fmt 1 10; of_ratio fmt (-1) 60; of_ratio fmt 5 (10 ^ 40) ].

End IEEE.

(** ** Data model *)

Abbreviation float := IEEE.fp (only parsing).
Abbreviation f32 := IEEE.binary32 (only parsing).
Abbreviation f64 := IEEE.binary64 (only parsing).

(** C [int]: 32 bits, two's complement. *)
Definition INT_MIN : Z := -2147483648.
Definition INT_MAX : Z := 2147483647.
Definition wrap_int (z : Z) : Z := (z + 2 ^ 31) mod 2 ^ 32 - 2 ^ 31.
Definition int_add (a b : Z) : Z := wrap_int (a + b).

Definition MAX_FRUIT_COUNT : Z := 48.
Definition MAX_PARTICLE_COUNT : Z := 16.

Inductive GameState : Type := startState | playState | loseState.

Inductive FruitType : Type := appleType | bananaType | cherryType | donutType.

Module Vector2.
Record t : Type := mk { x : float; y : float }.
End Vector2.

Module Fruit.
Record t : Type := mk {
  type : FruitType;
  position : Vector2.t;
  velocity : Vector2.t;
  enabled : bool
}.
Definition set_type (v : FruitType) (f : t) : t :=
  mk v (position f) (velocity f) (enabled f).
Definition set_position (v : Vector2.t) (f : t) : t :=
  mk (type f) v (velocity f) (enabled f).
Definition set_velocity (v : Vector2.t) (f : t) : t :=
  mk (type f) (position f) v (enabled f).
Definition set_enabled (v : bool) (f : t) : t :=
  mk (type f) (position f) (velocity f) v.
End Fruit.

Module Particle.
Record t : Type := mk {
  position : Vector2.t;
  elapsed : float;
  enabled : bool
}.
Definition set_position (v : Vector2.t) (p : t) : t :=
  mk v (elapsed p) (enabled p).
Definition set_elapsed (v : float) (p : t) : t :=
  mk (position p) v (enabled p).
Definition set_enabled (v : bool) (p : t) : t :=
  mk (position p) (elapsed p) v.
End Particle.

#[export] Instance FruitType_eq_dec : EqDecision FruitType.
Proof. solve_decision. Defined.


(** ** Constants *)

Definition screenWidth : Z := 960.
Definition screenHeight : Z := 540.
Definition targetFPS : Z := 60.
Definition appleScore : Z := 1.
Definition bananaScore : Z := appleScore * 3.
Definition cherryScore : Z := bananaScore * 3.
Definition fruitRadius : Z := 32.
Definition appleSpawnCeiling : Z := 50.
Definition bananaSpawnCeiling : Z := 75.
Definition cherrySpawnCeiling : Z := 85.
Definition donutSpawnCeiling : Z := 100.
Definition minimumFruitThrust : float := IEEE.of_int f32 5.
Definition maximumFruitThrust : float := IEEE.of_int f32 20.
Definition minimumFruitStrafe : float := IEEE.of_int f32 (-5).
Definition maximumFruitStrafe : float := IEEE.of_int f32 5.
Definition minimumSpawnRate : float := IEEE.of_int f32 1.
Definition maximumSpawnRate : float :=
  IEEE.convert f64 f32 (IEEE.of_ratio f64 1 10).
Definition maximumElapsed : float := IEEE.of_int f32 30.
Definition gravity : float :=
  IEEE.convert f64 f32
    (IEEE.div f64 (IEEE.opp (IEEE.of_ratio f64 10 1)) (IEEE.of_int f64 targetFPS)).
Definition particleMaximumElapsed : float :=
  IEEE.convert f64 f32 (IEEE.of_ratio f64 1 10).

(** The bounds [screenWidth * 0.25] and [screenWidth * 0.75] are computed
    in [double] and converted to the [int] parameters of [GetRandomValue]. *)
Definition spawnLeft : Z :=
  IEEE.to_int f64 (IEEE.mul f64 (IEEE.of_int f64 screenWidth) (IEEE.of_ratio f64 25 100)).
Definition spawnRight : Z :=
  IEEE.to_int f64 (IEEE.mul f64 (IEEE.of_int f64 screenWidth) (IEEE.of_ratio f64 75 100)).

(** ** Inputs of one frame

    What raylib reports during one pass of the main loop; each value is the
    same at every call within the frame.  The mouse calls are always made
    for [MOUSE_LEFT_BUTTON]. *)
Record Frame : Type := mkFrame {
  GetFrameTime : float;
  IsMouseButtonPressed : bool;
  IsMouseButtonReleased : bool;
  GetMousePosition : Vector2.t
}.

(** An array as the list of its slots, indexed by a C [int].  (An index
    outside the array is undefined in C: a read then finds no slot and a
    write changes none.) *)
Definition array_get {A : Type} (i : Z) (l : list A) : option A :=
  if 0 <=? i then l !! Z.to_nat i else None.
Definition array_update {A : Type} (i : Z) (f : A -> A) (l : list A) : list A :=
  if 0 <=? i then alter f (Z.to_nat i) l else l.

(** [for (int i = 0; i < n; ++i) body(i)] *)
Definition for_loop {S : Type} (n : Z) (body : Z -> S -> S) (s : S) : S :=
  fold_left (fun acc i => body (Z.of_nat i) acc) (seq 0 (Z.to_nat n)) s.

(** ** The raylib routines the logic calls with arguments

    [Rng] is the state of raylib's random number generator, which
    [GetRandomValue] advances. *)
Class Raylib (Rng : Type) : Type := {
  GetRandomValue : Z -> Z -> Rng -> Z * Rng;
  CheckCollisionPointCircle : Vector2.t -> Vector2.t -> float -> bool
}.

(** raylib's contract for [GetRandomValue(min, max)]: a value between
    [min] and [max], both included. *)
Class RaylibSpec {Rng : Type} (raylib : Raylib Rng) : Prop :=
  GetRandomValue_range :
    forall (lo hi : Z) (g : Rng),
      lo <= hi -> lo <= fst (GetRandomValue lo hi g) <= hi.

Section Game.

Context {Rng : Type} {raylib : Raylib Rng}.

(** ** Properties (the file-scope variables) *)

Record Game : Type := mkGame {
  state : GameState;
  fruits : list Fruit.t;
  particles : list Particle.t;
  nextFruitIndex : Z;
  nextParticleIndex : Z;
  score : Z;
  fruitsSlashed : Z;
  spawnElapsed : float;
  totalElapsed : float;
  slashing : bool;
  rng : Rng
}.

Definition set_state (v : GameState) (s : Game) : Game :=
  mkGame v (fruits s) (particles s) (nextFruitIndex s) (nextParticleIndex s)
    (score s) (fruitsSlashed s) (spawnElapsed s) (totalElapsed s) (slashing s) (rng s).
Definition set_fruits (v : list Fruit.t) (s : Game) : Game :=
  mkGame (state s) v (particles s) (nextFruitIndex s) (nextParticleIndex s)
    (score s) (fruitsSlashed s) (spawnElapsed s) (totalElapsed s) (slashing s) (rng s).
Definition set_particles (v : list Particle.t) (s : Game) : Game :=
  mkGame (state s) (fruits s) v (nextFruitIndex s) (nextParticleIndex s)
    (score s) (fruitsSlashed s) (spawnElapsed s) (totalElapsed s) (slashing s) (rng s).
Definition set_nextFruitIndex (v : Z) (s : Game) : Game :=
  mkGame (state s) (fruits s) (particles s) v (nextParticleIndex s)
    (score s) (fruitsSlashed s) (spawnElapsed s) (totalElapsed s) (slashing s) (rng s).
Definition set_nextParticleIndex (v : Z) (s : Game) : Game :=
  mkGame (state s) (fruits s) (particles s) (nextFruitIndex s) v
    (score s) (fruitsSlashed s) (spawnElapsed s) (totalElapsed s) (slashing s) (rng s).
Definition set_score (v : Z) (s : Game) : Game :=
  mkGame (state s) (fruits s) (particles s) (nextFruitIndex s) (nextParticleIndex s)
    v (fruitsSlashed s) (spawnElapsed s) (totalElapsed s) (slashing s) (rng s).
Definition set_fruitsSlashed (v : Z) (s : Game) : Game :=
  mkGame (state s) (fruits s) (particles s) (nextFruitIndex s) (nextParticleIndex s)
    (score s) v (spawnElapsed s) (totalElapsed s) (slashing s) (rng s).
Definition set_spawnElapsed (v : float) (s : Game) : Game :=
  mkGame (state s) (fruits s) (particles s) (nextFruitIndex s) (nextParticleIndex s)
    (score s) (fruitsSlashed s) v (totalElapsed s) (slashing s) (rng s).
Definition set_totalElapsed (v : float) (s : Game) : Game :=
  mkGame (state s) (fruits s) (particles s) (nextFruitIndex s) (nextParticleIndex s)
    (score s) (fruitsSlashed s) (spawnElapsed s) v (slashing s) (rng s).
Definition set_slashing (v : bool) (s : Game) : Game :=
  mkGame (state s) (fruits s) (particles s) (nextFruitIndex s) (nextParticleIndex s)
    (score s) (fruitsSlashed s) (spawnElapsed s) (totalElapsed s) v (rng s).
Definition set_rng (v : Rng) (s : Game) : Game :=
  mkGame (state s) (fruits s) (particles s) (nextFruitIndex s) (nextParticleIndex s)
    (score s) (fruitsSlashed s) (spawnElapsed s) (totalElapsed s) (slashing s) v.

(** [fruits[i].field = ...] and [particles[i].field = ...]: the write goes
    to slot [i] of the array. *)
Definition upd_fruit (i : Z) (f : Fruit.t -> Fruit.t) (s : Game) : Game :=
  set_fruits (array_update i f (fruits s)) s.
Definition upd_particle (i : Z) (f : Particle.t -> Particle.t) (s : Game) : Game :=
  set_particles (array_update i f (particles s)) s.

Definition get_fruit (i : Z) (s : Game) : option Fruit.t :=
  array_get i (fruits s).
Definition get_particle (i : Z) (s : Game) : option Particle.t :=
  array_get i (particles s).

(** The variables as the C runtime zero-initialises them before [main]. *)
Definition zero : float := IEEE.FFin false 0%N.
Definition zero_fruit : Fruit.t :=
  Fruit.mk appleType (Vector2.mk zero zero) (Vector2.mk zero zero) false.
Definition zero_particle : Particle.t :=
  Particle.mk (Vector2.mk zero zero) zero false.
Definition static_init (g : Rng) : Game :=
  mkGame startState
    (replicate (Z.to_nat MAX_FRUIT_COUNT) zero_fruit)
    (replicate (Z.to_nat MAX_PARTICLE_COUNT) zero_particle)
    0 0 0 0 zero zero false g.

(** ** Functions *)

Definition Initialize (s : Game) : Game :=
  let s := set_state startState s in
  let s := for_loop MAX_FRUIT_COUNT
             (fun i => upd_fruit i (Fruit.set_enabled false)) s in
  let s := for_loop MAX_PARTICLE_COUNT
             (fun i => upd_particle i (Particle.set_enabled false)) s in
  let s := set_nextFruitIndex 0 s in
  let s := set_nextParticleIndex 0 s in
  let s := set_fruitsSlashed 0 s in
  let s := set_spawnElapsed (IEEE.of_int f32 0) s in
  let s := set_totalElapsed (IEEE.of_int f32 0) s in
  set_slashing false s.

Definition FromStartToPlayState (s : Game) : Game :=
  set_state playState s.

Definition FromPlayToLoseState (s : Game) : Game :=
  let s := set_state loseState s in
  let s := for_loop MAX_FRUIT_COUNT
             (fun i => upd_fruit i (Fruit.set_enabled false)) s in
  let s := for_loop MAX_PARTICLE_COUNT
             (fun i => upd_particle i (Particle.set_enabled false)) s in
  let s := set_spawnElapsed (IEEE.of_int f32 0) s in
  let s := set_totalElapsed (IEEE.of_int f32 0) s in
  set_slashing false s.

Definition FromLoseToStartState (s : Game) : Game :=
  let s := set_state startState s in
  let s := set_fruitsSlashed 0 s in
  set_score 0 s.

(** The type chosen for a draw [spawnValue]; when no branch of the chain
    applies the slot keeps the type [old] it had. *)
Definition spawn_type (spawnValue : Z) (old : FruitType) : FruitType :=
  if spawnValue <=? appleSpawnCeiling then appleType
  else if spawnValue <=? bananaSpawnCeiling then bananaType
  else if spawnValue <=? cherrySpawnCeiling then cherryType
  else if spawnValue <=? donutSpawnCeiling then donutType
  else old.

(** The draws are taken in the order in which they are written.  (The two
    draws of the velocity are initializers of one compound literal, and C
    does not fix the order in which these are evaluated; the model takes
    them from left to right.) *)
Definition SpawnFruit (s : Game) : Game :=
  let '(spawnValue, g) := GetRandomValue 1 100 (rng s) in
  let s := set_rng g s in
  let s := upd_fruit (nextFruitIndex s)
             (fun f => Fruit.set_type (spawn_type spawnValue (Fruit.type f)) f) s in
  let '(px, g) := GetRandomValue spawnLeft spawnRight (rng s) in
  let s := set_rng g s in
  let s := upd_fruit (nextFruitIndex s)
             (Fruit.set_position
                (Vector2.mk (IEEE.of_int f32 px) (IEEE.of_int f32 screenHeight))) s in
  let '(strafe, g) :=
    GetRandomValue (IEEE.to_int f32 minimumFruitStrafe)
                   (IEEE.to_int f32 maximumFruitStrafe) (rng s) in
  let s := set_rng g s in
  let '(thrust, g) :=
    GetRandomValue (IEEE.to_int f32 minimumFruitThrust)
                   (IEEE.to_int f32 maximumFruitThrust) (rng s) in
  let s := set_rng g s in
  let s := upd_fruit (nextFruitIndex s)
             (Fruit.set_velocity
                (Vector2.mk (IEEE.of_int f32 strafe) (IEEE.of_int f32 (- thrust)))) s in
  let s := upd_fruit (nextFruitIndex s) (Fruit.set_enabled true) s in
  set_nextFruitIndex (Z.rem (int_add (nextFruitIndex s) 1) MAX_FRUIT_COUNT) s.

(** [SlashFruit(&fruits[i])] *)
Definition SlashFruit (i : Z) (s : Game) : Game :=
  let s := upd_fruit i (Fruit.set_enabled false) s in
  match Fruit.type <$> get_fruit i s with
  | Some appleType =>
      let s := set_fruitsSlashed (int_add (fruitsSlashed s) 1) s in
      set_score (int_add (score s) appleScore) s
  | Some bananaType =>
      let s := set_fruitsSlashed (int_add (fruitsSlashed s) 1) s in
      set_score (int_add (score s) bananaScore) s
  | Some cherryType =>
      let s := set_fruitsSlashed (int_add (fruitsSlashed s) 1) s in
      set_score (int_add (score s) cherryScore) s
  | Some donutType => FromPlayToLoseState s
  | None => s
  end.

Definition UpdateStartState (fr : Frame) (s : Game) : Game :=
  if IsMouseButtonPressed fr then FromStartToPlayState s else s.

Definition UpdateLoseState (fr : Frame) (s : Game) : Game :=
  if IsMouseButtonPressed fr then FromLoseToStartState s else s.

(** [UpdatePlayState], statement by statement. *)

(** [totalElapsed += GetFrameTime(); spawnElapsed += GetFrameTime();] *)
Definition play_timers (fr : Frame) (s : Game) : Game :=
  let s := set_totalElapsed (IEEE.add f32 (totalElapsed s) (GetFrameTime fr)) s in
  set_spawnElapsed (IEEE.add f32 (spawnElapsed s) (GetFrameTime fr)) s.

(** The press / release test that sets [slashing]. *)
Definition play_input (fr : Frame) (s : Game) : Game :=
  if IsMouseButtonPressed fr then set_slashing true s
  else if IsMouseButtonReleased fr then set_slashing false s
  else s.

(** [if (slashing) { particles[nextParticleIndex] ... }] *)
Definition play_trail (fr : Frame) (s : Game) : Game :=
  if slashing s then
    let s := upd_particle (nextParticleIndex s)
               (Particle.set_position (GetMousePosition fr)) s in
    let s := upd_particle (nextParticleIndex s)
               (Particle.set_elapsed (IEEE.of_int f32 0)) s in
    let s := upd_particle (nextParticleIndex s) (Particle.set_enabled true) s in
    set_nextParticleIndex
      (Z.rem (int_add (nextParticleIndex s) 1) MAX_PARTICLE_COUNT) s
  else s.

(** Body of the loop over the particles. *)
Definition age_particle (fr : Frame) (p : Particle.t) : Particle.t :=
  if Particle.enabled p then
    let p := Particle.set_elapsed (IEEE.add f32 (Particle.elapsed p) (GetFrameTime fr)) p in
    if IEEE.lt particleMaximumElapsed (Particle.elapsed p)
    then Particle.set_enabled false p
    else p
  else p.

Definition play_particles (fr : Frame) (s : Game) : Game :=
  for_loop MAX_PARTICLE_COUNT (fun i => upd_particle i (age_particle fr)) s.

(** The value [spawnElapsed] is compared with. *)
Definition spawn_threshold (total : float) : float :=
  let spawnElapsedThreshold :=
    IEEE.sub f32 minimumSpawnRate (IEEE.div f32 total maximumElapsed) in
  if IEEE.lt spawnElapsedThreshold maximumSpawnRate
  then maximumSpawnRate
  else spawnElapsedThreshold.

Definition spawn_due (s : Game) : bool :=
  IEEE.lt (spawn_threshold (totalElapsed s)) (spawnElapsed s).

Definition play_spawn (s : Game) : Game :=
  if spawn_due s then
    let s := set_spawnElapsed (IEEE.of_int f32 0) s in
    SpawnFruit s
  else s.

(** The three tests of the loop over the fruits, for the slot [f]. *)
Definition below_screen (f : Fruit.t) : bool :=
  IEEE.lt (IEEE.of_int f32 screenHeight) (Vector2.y (Fruit.position f)).

Definition slash_hits (fr : Frame) (s : Game) (f : Fruit.t) : bool :=
  slashing s &&
  CheckCollisionPointCircle (GetMousePosition fr)
    (Vector2.mk
       (IEEE.add f32 (Vector2.x (Fruit.position f)) (IEEE.of_int f32 fruitRadius))
       (IEEE.add f32 (Vector2.y (Fruit.position f)) (IEEE.of_int f32 fruitRadius)))
    (IEEE.of_int f32 fruitRadius).

(** [position.x += velocity.x; position.y += velocity.y;
    velocity.y -= gravity;] *)
Definition move_fruit (f : Fruit.t) : Fruit.t :=
  let f := Fruit.set_position
             (Vector2.mk
                (IEEE.add f32 (Vector2.x (Fruit.position f)) (Vector2.x (Fruit.velocity f)))
                (Vector2.y (Fruit.position f))) f in
  let f := Fruit.set_position
             (Vector2.mk
                (Vector2.x (Fruit.position f))
                (IEEE.add f32 (Vector2.y (Fruit.position f)) (Vector2.y (Fruit.velocity f)))) f in
  Fruit.set_velocity
    (Vector2.mk
       (Vector2.x (Fruit.velocity f))
       (IEEE.sub f32 (Vector2.y (Fruit.velocity f)) gravity)) f.

(** Body of the loop over the fruits. *)
Definition play_fruit (fr : Frame) (i : Z) (s : Game) : Game :=
  match get_fruit i s with
  | Some f =>
      if Fruit.enabled f then
        if below_screen f then upd_fruit i (Fruit.set_enabled false) s
        else if slash_hits fr s f then SlashFruit i s
        else upd_fruit i move_fruit s
      else s
  | None => s
  end.

Definition play_fruits (fr : Frame) (s : Game) : Game :=
  for_loop MAX_FRUIT_COUNT (play_fruit fr) s.

Definition UpdatePlayState (fr : Frame) (s : Game) : Game :=
  let s := play_timers fr s in
  let s := play_input fr s in
  let s := play_trail fr s in
  let s := play_particles fr s in
  let s := play_spawn s in
  play_fruits fr s.

Definition Update (fr : Frame) (s : Game) : Game :=
  match state s with
  | startState => UpdateStartState fr s
  | playState => UpdatePlayState fr s
  | loseState => UpdateLoseState fr s
  end.

(** [main]: [Initialize] and then one [Update] per frame until the window
    is closed. *)
Definition run (frames : list Frame) (s : Game) : Game :=
  fold_left (fun acc fr => Update fr acc) frames s.

Definition main (g : Rng) (frames : list Frame) : Game :=
  run frames (Initialize (static_init g)).

End Game.

Arguments Game : clear implicits.

(** ** Stand-ins for the two raylib routines

    Used only to run the model on concrete frames: a linear congruential
    generator reduced to the requested interval as raylib does
    ([rand() % (abs(max - min) + 1) + min], bounds swapped when reversed),
    and the squared-distance test of a point against a circle. *)
Definition sample_GetRandomValue (lo hi : Z) (g : Z) : Z * Z :=
  let (lo, hi) := if hi <? lo then (hi, lo) else (lo, hi) in
  let g' := (g * 1103515245 + 12345) mod 2 ^ 31 in
  (g' mod (Z.abs (hi - lo) + 1) + lo, g').

Definition sample_CheckCollisionPointCircle
    (point center : Vector2.t) (radius : float) : bool :=
  let dx := IEEE.sub f32 (Vector2.x point) (Vector2.x center) in
  let dy := IEEE.sub f32 (Vector2.y point) (Vector2.y center) in
  let distanceSquared := IEEE.add f32 (IEEE.mul f32 dx dx) (IEEE.mul f32 dy dy) in
  IEEE.le distanceSquared (IEEE.mul f32 radius radius).

#[export] Instance sample_raylib : Raylib Z := {
  GetRandomValue := sample_GetRandomValue;
  CheckCollisionPointCircle := sample_CheckCollisionPointCircle
}.


(** ** Drawing

    The draw pass reads the variables and calls raylib; it is modelled by
    the sequence of calls it makes, each with its arguments.  [int]
    parameters that the code passes a [float] or [double] expression to
    receive the value converted by [IEEE.to_int]. *)

Inductive Color : Type := BLACK | WHITE | GREEN.

Inductive Texture2D : Type :=
| backgroundTexture | appleTexture | bananaTexture | cherryTexture | donutTexture.

Inductive DrawCall : Type :=
| BeginDrawing
| EndDrawing
| ClearBackground (color : Color)
| DrawTexture (texture : Texture2D) (posX posY : Z) (tint : Color)
| DrawTextureV (texture : Texture2D) (position : Vector2.t) (tint : Color)
| DrawCircle (centerX centerY : Z) (radius : float) (color : Color)
| DrawText (text : string) (posX posY fontSize : Z) (color : Color).

(** raylib's [MeasureText(text, fontSize)]: the width of a text in pixels. *)
Class RaylibText : Type := MeasureText : string -> Z -> Z.

Definition screenHalfWidth : Z :=
  IEEE.to_int f64 (IEEE.mul f64 (IEEE.of_int f64 screenWidth) (IEEE.of_ratio f64 5 10)).
Definition largeTextSize : Z := 40.
Definition normalTextSize : Z :=
  IEEE.to_int f64 (IEEE.mul f64 (IEEE.of_int f64 largeTextSize) (IEEE.of_ratio f64 5 10)).
Definition mouseRadius : Z := 8.

(** Size of the two [char] buffers of [DrawLoseState]. *)
Definition BUFFER_SIZE : Z := 32.

(** [sprintf(buffer, "<label>%d", v)]: the label followed by [v] in
    decimal, with a minus sign when negative. *)
Definition sprintf_d (label : string) (v : Z) : string := label +:+ pretty v.

(** Bytes [sprintf] writes for a text: its characters and the final NUL. *)
Definition bytes_written (text : string) : Z := Z.of_nat (String.length text) + 1.

Section Drawing.

Context {Rng : Type} {text_metrics : RaylibText}.

(** [screenHalfWidth - MeasureText(text, size) * 0.5], as an [int]. *)
Definition centered (text : string) (size : Z) : Z :=
  IEEE.to_int f64
    (IEEE.sub f64 (IEEE.of_int f64 screenHalfWidth)
       (IEEE.mul f64 (IEEE.of_int f64 (MeasureText text size)) (IEEE.of_ratio f64 5 10))).

(** [screenHeight * part - largeTextSize * 0.5], in [double]. *)
Definition text_row (num den : Z) : IEEE.fp :=
  IEEE.sub f64
    (IEEE.mul f64 (IEEE.of_int f64 screenHeight) (IEEE.of_ratio f64 num den))
    (IEEE.mul f64 (IEEE.of_int f64 largeTextSize) (IEEE.of_ratio f64 5 10)).

Definition DrawStartState (out : list DrawCall) : list DrawCall :=
  let out :=
    out ++ [DrawText "Fruit Ninja" (centered "Fruit Ninja" largeTextSize)
              (IEEE.to_int f64 (text_row 4 10)) largeTextSize WHITE] in
  out ++ [DrawText "Press SLASH To Play!"
            (centered "Press SLASH To Play!" normalTextSize)
            (IEEE.to_int f64 (text_row 6 10)) normalTextSize WHITE].

(** Bodies of the two loops of [DrawPlayState]. *)
Definition draw_particle (s : Game Rng) (i : Z) (out : list DrawCall) : list DrawCall :=
  match get_particle i s with
  | Some p =>
      if Particle.enabled p then
        out ++ [DrawCircle
                  (IEEE.to_int f32 (Vector2.x (Particle.position p)))
                  (IEEE.to_int f32 (Vector2.y (Particle.position p)))
                  (IEEE.of_int f32 mouseRadius) GREEN]
      else out
  | None => out
  end.

Definition draw_fruit (s : Game Rng) (i : Z) (out : list DrawCall) : list DrawCall :=
  match get_fruit i s with
  | Some f =>
      if Fruit.enabled f then
        match Fruit.type f with
        | appleType => out ++ [DrawTextureV appleTexture (Fruit.position f) WHITE]
        | bananaType => out ++ [DrawTextureV bananaTexture (Fruit.position f) WHITE]
        | cherryType => out ++ [DrawTextureV cherryTexture (Fruit.position f) WHITE]
        | donutType => out ++ [DrawTextureV donutTexture (Fruit.position f) WHITE]
        end
      else out
  | None => out
  end.

Definition DrawPlayState (s : Game Rng) (out : list DrawCall) : list DrawCall :=
  let out := for_loop MAX_PARTICLE_COUNT (draw_particle s) out in
  for_loop MAX_FRUIT_COUNT (draw_fruit s) out.

Definition DrawLoseState (s : Game Rng) (out : list DrawCall) : list DrawCall :=
  let out :=
    out ++ [DrawText "You Slashed A Donut!"
              (centered "You Slashed A Donut!" largeTextSize)
              (IEEE.to_int f64 (text_row 4 10)) largeTextSize WHITE] in
  let slashedBuffer := sprintf_d "Fruits Slashed: " (fruitsSlashed s) in
  let out :=
    out ++ [DrawText slashedBuffer (centered slashedBuffer normalTextSize)
              (IEEE.to_int f64 (text_row 6 10)) normalTextSize WHITE] in
  let scoreBuffer := sprintf_d "Score: " (score s) in
  out ++ [DrawText scoreBuffer (centered scoreBuffer normalTextSize)
            (IEEE.to_int f64
               (IEEE.sub f64
                  (IEEE.sub f64
                     (IEEE.mul f64 (IEEE.of_int f64 screenHeight) (IEEE.of_ratio f64 6 10))
                     (IEEE.mul f64 (IEEE.of_int f64 normalTextSize) (IEEE.of_ratio f64 15 10)))
                  (IEEE.mul f64 (IEEE.of_int f64 largeTextSize) (IEEE.of_ratio f64 5 10))))
            normalTextSize WHITE].

(** [Draw]: the calls of one frame, in order. *)
Definition Draw (fr : Frame) (s : Game Rng) : list DrawCall :=
  let out := [BeginDrawing] in
  let out := out ++ [ClearBackground BLACK] in
  let out := out ++ [DrawTexture backgroundTexture 0 0 WHITE] in
  let mousePosition := GetMousePosition fr in
  let out :=
    out ++ [DrawCircle
              (IEEE.to_int f32 (Vector2.x mousePosition))
              (IEEE.to_int f32 (Vector2.y mousePosition))
              (IEEE.of_int f32 mouseRadius)
              (if slashing s then GREEN else WHITE)] in
  let out :=
    match state s with
    | startState => DrawStartState out
    | playState => DrawPlayState s out
    | loseState => DrawLoseState s out
    end in
  out ++ [EndDrawing].

End Drawing.

(** The call a loop of [DrawPlayState] makes for an enabled slot. *)
Definition fruit_texture (ty : FruitType) : Texture2D :=
  match ty with
  | appleType => appleTexture
  | bananaType => bananaTexture
  | cherryType => cherryTexture
  | donutType => donutTexture
  end.

Definition fruit_call (f : Fruit.t) : DrawCall :=
  DrawTextureV (fruit_texture (Fruit.type f)) (Fruit.position f) WHITE.

Definition particle_call (p : Particle.t) : DrawCall :=
  DrawCircle
    (IEEE.to_int f32 (Vector2.x (Particle.position p)))
    (IEEE.to_int f32 (Vector2.y (Particle.position p)))
    (IEEE.of_int f32 mouseRadius) GREEN.

(** The calls that open every frame: background and pointer. *)
Definition frame_head (fr : Frame) (slashing : bool) : list DrawCall :=
  [ BeginDrawing; ClearBackground BLACK; DrawTexture backgroundTexture 0 0 WHITE;
    DrawCircle
      (IEEE.to_int f32 (Vector2.x (GetMousePosition fr)))
      (IEEE.to_int f32 (Vector2.y (GetMousePosition fr)))
      (IEEE.of_int f32 mouseRadius)
      (if slashing then GREEN else WHITE) ].

(** Counting the calls of a kind in a frame. *)
Definition is_fruit_call (c : DrawCall) : bool :=
  match c with DrawTextureV _ _ _ => true | _ => false end.
Definition is_circle_call (c : DrawCall) : bool :=
  match c with DrawCircle _ _ _ _ => true | _ => false end.
Definition count_calls (kind : DrawCall -> bool) (calls : list DrawCall) : nat :=
  length (List.filter kind calls).

(** A stand-in for [MeasureText]: ten pixels per character at size 20. *)
#[export] Instance sample_text : RaylibText :=
  fun text size => Z.of_nat (String.length text) * size / 2.


(** ** Vocabulary of the properties *)

Section Vocabulary.

Context {Rng : Type}.

(** The two arrays have their declared sizes. *)
Definition pools_sized (s : Game Rng) : Prop :=
  length (fruits s) = Z.to_nat MAX_FRUIT_COUNT /\
  length (particles s) = Z.to_nat MAX_PARTICLE_COUNT.

(** Both write cursors index a slot of their array. *)
Definition cursors_in_range (s : Game Rng) : Prop :=
  0 <= nextFruitIndex s < MAX_FRUIT_COUNT /\
  0 <= nextParticleIndex s < MAX_PARTICLE_COUNT.

(** Number of slots whose [enabled] flag is set. *)
Definition enabled_fruits (s : Game Rng) : nat :=
  length (filter (fun f => Fruit.enabled f = true) (fruits s)).
Definition enabled_particles (s : Game Rng) : nat :=
  length (filter (fun p => Particle.enabled p = true) (particles s)).

(** The two [int] counters can take one more slash without overflow
    (signed overflow is undefined in C). *)
Definition counters_in_range (s : Game Rng) : Prop :=
  INT_MIN <= score s /\ score s + cherryScore <= INT_MAX /\
  INT_MIN <= fruitsSlashed s /\ fruitsSlashed s + 1 <= INT_MAX.

(** Either only fruit slots, [score] and [fruitsSlashed] differ, or the
    game has been lost on the way. *)
Definition fruits_step (s s' : Game Rng) : Prop :=
  pools_sized s' /\
  nextFruitIndex s' = nextFruitIndex s /\
  nextParticleIndex s' = nextParticleIndex s /\
  rng s' = rng s /\
  (state s' = loseState \/
   (state s' = state s /\ particles s' = particles s /\
    spawnElapsed s' = spawnElapsed s /\ totalElapsed s' = totalElapsed s /\
    slashing s' = slashing s)).

(** The value of [slashing] after the press / release test of a frame,
    and the outcome of the spawn test on the timers advanced by the frame
    time. *)
Definition slashing_in (fr : Frame) (s : Game Rng) : bool :=
  if IsMouseButtonPressed fr then true
  else if IsMouseButtonReleased fr then false
  else slashing s.

Definition spawn_due_in (fr : Frame) (s : Game Rng) : bool :=
  IEEE.lt
    (spawn_threshold (IEEE.add f32 (totalElapsed s) (GetFrameTime fr)))
    (IEEE.add f32 (spawnElapsed s) (GetFrameTime fr)).

(** Nothing is in flight: every slot of both pools is disabled, both
    timers are at 0 and the player is not slashing. *)
Definition board_clear (s : Game Rng) : Prop :=
  Forall (fun f => Fruit.enabled f = false) (fruits s) /\
  Forall (fun p => Particle.enabled p = false) (particles s) /\
  spawnElapsed s = zero /\ totalElapsed s = zero /\ slashing s = false.

(** At most [n] fruits have been slashed, and [score] lies between one
    and nine points per slashed fruit. *)
Definition tally_within (n : Z) (s : Game Rng) : Prop :=
  (0 <= fruitsSlashed s <= n) /\
  (fruitsSlashed s <= score s <= cherryScore * fruitsSlashed s).

(** A particle that is enabled has not outlived [particleMaximumElapsed]. *)
Definition particle_fresh (p : Particle.t) : Prop :=
  Particle.enabled p = true ->
  IEEE.lt particleMaximumElapsed (Particle.elapsed p) = false.

End Vocabulary.

(** ** Stages of the Play-state update *)

Section Stages.

Context {Rng : Type} {raylib : Raylib Rng}.

(** The state in which the loop over the fruits of [UpdatePlayState]
    starts: the timers advanced, the input read, the trail extended, the
    particles aged and the spawn test done. *)
Definition before_fruits (fr : Frame) (s : Game Rng) : Game Rng :=
  play_spawn (play_particles fr (play_trail fr (play_input fr (play_timers fr s)))).

(** What the body of the loop over the fruits does to a slot that is not
    slashed: an enabled fruit below the screen is disabled, another
    enabled fruit moves, a disabled slot is left as it is. *)
Definition fruit_fall (f : Fruit.t) : Fruit.t :=
  if Fruit.enabled f then
    if below_screen f then Fruit.set_enabled false f else move_fruit f
  else f.

(** What the body of the loop does to a slot in a frame in which the game
    is not lost: as [fruit_fall], with a fruit that is hit disabled where
    it is. *)
Definition fruit_turn (fr : Frame) (s : Game Rng) (f : Fruit.t) : Fruit.t :=
  if Fruit.enabled f then
    if below_screen f then Fruit.set_enabled false f
    else if slash_hits fr s f then Fruit.set_enabled false f
    else move_fruit f
  else f.

End Stages.

(** ** Sample frames and states

    Concrete inputs on which the properties are exercised. *)

Definition sample_dt : float := IEEE.of_ratio f32 1 60.

Definition sample_frame (pressed released : bool) (mx my : Z) : Frame :=
  mkFrame sample_dt pressed released
    (Vector2.mk (IEEE.of_int f32 mx) (IEEE.of_int f32 my)).

Definition sample_idle : Frame := sample_frame false false 0 0.
Definition sample_press : Frame := sample_frame true false 0 0.
Definition sample_release : Frame := sample_frame false true 0 0.

(** A frame that took two seconds (the window was stalled). *)
Definition sample_stall : Frame :=
  mkFrame (IEEE.of_int f32 2) false false
    (Vector2.mk (IEEE.of_int f32 0) (IEEE.of_int f32 0)).

(** A game just after the start click: the timers are at 0. *)
Definition sample_waiting : Game Z := main 7 [sample_press].

(** A fruit of type [ty] at (300, 200) moving right and up. *)
Definition sample_fruit (ty : FruitType) : Fruit.t :=
  Fruit.mk ty
    (Vector2.mk (IEEE.of_int f32 300) (IEEE.of_int f32 200))
    (Vector2.mk (IEEE.of_int f32 2) (IEEE.of_int f32 (-7)))
    true.

(** [sample_waiting] with that fruit in slot 5 and the player slashing. *)
Definition sample_slashing (ty : FruitType) : Game Z :=
  set_slashing true (upd_fruit 5 (fun _ => sample_fruit ty) sample_waiting).

(** The pointer on the centre of the sample fruit, button held. *)
Definition sample_on_fruit : Frame := sample_frame false false 332 232.

(** A lost game. *)
Definition sample_lost : Game Z := FromPlayToLoseState (sample_slashing donutType).

(** * Properties *)

#[global] Arguments IEEE.round : simpl never.
#[global] Arguments IEEE.round_signed : simpl never.
#[global] Arguments IEEE.add : simpl never.
#[global] Arguments IEEE.sub : simpl never.
#[global] Arguments IEEE.mul : simpl never.
#[global] Arguments IEEE.div : simpl never.
#[global] Arguments IEEE.lt : simpl never.
#[global] Arguments IEEE.le : simpl never.
#[global] Arguments IEEE.of_int : simpl never.
#[global] Arguments IEEE.of_ratio : simpl never.
#[global] Arguments IEEE.convert : simpl never.
#[global] Arguments IEEE.to_int : simpl never.
#[global] Arguments Z.rem : simpl never.
#[global] Arguments wrap_int : simpl never.
#[global] Arguments array_get : simpl never.
#[global] Arguments array_update : simpl never.
#[global] Arguments for_loop : simpl never.

(** ** Loops and array writes *)

Lemma for_loop_succ {S : Type} (n : Z) (body : Z -> S -> S) (s : S) :
  0 <= n -> for_loop (n + 1) body s = body n (for_loop n body s).
Proof.
  intros Hn. unfold for_loop.
  replace (Z.to_nat (n + 1)) with (Datatypes.S (Z.to_nat n)) by lia.
  rewrite seq_S, fold_left_app. simpl. f_equal. lia.
Qed.

(** Invariant rule for [for (i = 0; i < n; ++i)]. *)
Lemma for_loop_inv {S : Type} (P : Z -> S -> Prop) (n : Z) (body : Z -> S -> S) (s : S) :
  0 <= n ->
  P 0 s ->
  (forall i t, 0 <= i < n -> P i t -> P (i + 1) (body i t)) ->
  P n (for_loop n body s).
Proof.
  intros Hn H0 Hstep.
  assert (Hall : forall k : nat, Z.of_nat k <= n -> P (Z.of_nat k) (for_loop (Z.of_nat k) body s)).
  { induction k as [|k IH]; intros Hk.
    - exact H0.
    - replace (Z.of_nat (Datatypes.S k)) with (Z.of_nat k + 1) by lia.
      rewrite for_loop_succ by lia. apply Hstep; [lia | apply IH; lia]. }
  specialize (Hall (Z.to_nat n)). rewrite Z2Nat.id in Hall by lia. apply Hall. lia.
Qed.

Lemma array_get_Some {A : Type} (i : Z) (l : list A) (x : A) :
  array_get i l = Some x <-> 0 <= i /\ l !! Z.to_nat i = Some x.
Proof.
  unfold array_get. destruct (0 <=? i) eqn:E.
  - apply Z.leb_le in E. tauto.
  - apply Z.leb_gt in E. split; [discriminate | lia].
Qed.

Lemma array_get_range {A : Type} (i : Z) (l : list A) (x : A) :
  array_get i l = Some x -> 0 <= i < Z.of_nat (length l).
Proof.
  intros H. apply array_get_Some in H as [H0 H]. apply lookup_lt_Some in H. lia.
Qed.

Lemma array_get_in {A : Type} (i : Z) (l : list A) :
  0 <= i < Z.of_nat (length l) -> exists x, array_get i l = Some x.
Proof.
  intros Hi. destruct (lookup_lt_is_Some_2 l (Z.to_nat i)) as [x Hx]; [lia|].
  exists x. apply array_get_Some. split; [lia | exact Hx].
Qed.

Lemma length_array_update {A : Type} (i : Z) (f : A -> A) (l : list A) :
  length (array_update i f l) = length l.
Proof. unfold array_update. destruct (0 <=? i); [apply length_alter | reflexivity]. Qed.

Lemma array_get_update {A : Type} (i j : Z) (f : A -> A) (l : list A) :
  array_get j (array_update i f l) =
  if decide (i = j) then f <$> array_get j l else array_get j l.
Proof.
  unfold array_get, array_update.
  destruct (0 <=? i) eqn:Ei, (0 <=? j) eqn:Ej; case_decide; subst;
    try reflexivity; try lia.
  - apply list_lookup_alter_eq.
  - apply list_lookup_alter_ne. lia.
Qed.

Lemma array_get_update_eq {A : Type} (i : Z) (f : A -> A) (l : list A) :
  array_get i (array_update i f l) = f <$> array_get i l.
Proof. rewrite array_get_update. case_decide; [reflexivity | lia]. Qed.

Lemma array_get_update_ne {A : Type} (i j : Z) (f : A -> A) (l : list A) :
  i <> j -> array_get j (array_update i f l) = array_get j l.
Proof. intros. rewrite array_get_update. case_decide; [lia | reflexivity]. Qed.

Lemma array_get_fmap {A : Type} (i : Z) (f : A -> A) (l : list A) :
  array_get i (f <$> l) = f <$> array_get i l.
Proof.
  unfold array_get. destruct (0 <=? i); [apply list_lookup_fmap | reflexivity].
Qed.

(** A loop that writes [f] of every slot of an array of [n] slots. *)
Lemma loop_array_update {A : Type} (f : A -> A) (l : list A) (n : Z) :
  Z.of_nat (length l) = n ->
  for_loop n (fun i => array_update i f) l = f <$> l.
Proof.
  intros Hn.
  pose (P := fun (i : Z) (t : list A) =>
               length t = length l /\
               forall j : nat,
                 t !! j = if decide (Z.of_nat j < i) then f <$> l !! j else l !! j).
  assert (HP : P n (for_loop n (fun i => array_update i f) l)).
  { apply for_loop_inv; [lia | |].
    - split; [reflexivity|]. intros j. case_decide; [lia | reflexivity].
    - intros i t Hi (Hlen & Hlk). unfold P. split.
      + rewrite length_array_update. exact Hlen.
      + intros j. unfold array_update. destruct (0 <=? i) eqn:E; [|lia].
        rewrite list_lookup_alter, !Hlk.
        repeat case_decide; subst; try reflexivity; lia. }
  destruct HP as (Hlen & Hlk).
  apply list_eq. intros j. rewrite Hlk, list_lookup_fmap.
  case_decide; [reflexivity|].
  rewrite (lookup_ge_None_2 l) by lia. reflexivity.
Qed.

(** A loop whose body keeps a component of the state keeps it. *)
Lemma for_loop_preserves {S X : Type} (proj : S -> X) (n : Z)
    (body : Z -> S -> S) (s : S) :
  (forall i t, proj (body i t) = proj t) ->
  proj (for_loop n body s) = proj s.
Proof.
  intros H. unfold for_loop. generalize (seq 0 (Z.to_nat n)). intros l.
  revert s. induction l as [|k l IH]; intros s; simpl; [reflexivity|].
  rewrite IH. apply H.
Qed.


(** ** Facts of the arithmetic *)

Module IEEE_facts.
Import IEEE.

Lemma rne_bounds (N S : Z) : N / S <= rne N S <= N / S + 1.
Proof.
  unfold rne. destruct (2 * (N mod S) ?= S); [destruct (Z.even _)|..]; lia.
Qed.

(** Rounding to the nearest integer is monotone. *)
Lemma rne_mono (N1 N2 S : Z) : 0 < S -> N1 <= N2 -> rne N1 S <= rne N2 S.
Proof.
  intros HS HN.
  pose proof (Z.div_le_mono N1 N2 S HS HN) as Hk.
  destruct (Z.eq_dec (N1 / S) (N2 / S)) as [E|NE].
  - unfold rne. rewrite <- E.
    pose proof (Z.div_mod N1 S ltac:(lia)) as H1.
    pose proof (Z.div_mod N2 S ltac:(lia)) as H2. rewrite <- E in H2.
    destruct (Z.compare_spec (2 * (N1 mod S)) S),
             (Z.compare_spec (2 * (N2 mod S)) S);
      destruct (Z.even (N1 / S)); lia.
  - pose proof (rne_bounds N1 S). pose proof (rne_bounds N2 S). lia.
Qed.

Lemma rne_exact (k S : Z) : 0 < S -> rne (k * S) S = k.
Proof.
  intros HS. unfold rne. rewrite Z.mod_mul, Z.div_mul by lia.
  replace (2 * 0 ?= S) with Lt by (symmetry; apply Z.compare_lt_iff; lia).
  reflexivity.
Qed.

Lemma digits_nonneg (q : Z) : 0 <= digits q.
Proof.
  unfold digits. destruct (q <=? 0); [lia|].
  pose proof (Z.log2_nonneg q). lia.
Qed.

Lemma digits_mono (q1 q2 : Z) : q1 <= q2 -> digits q1 <= digits q2.
Proof.
  intros H. unfold digits.
  destruct (Z.leb_spec q1 0), (Z.leb_spec q2 0); try lia.
  - pose proof (Z.log2_nonneg q2). lia.
  - pose proof (Z.log2_le_mono q1 q2 H). lia.
Qed.

Lemma digits_upper (q : Z) : 0 <= q -> q < 2 ^ digits q.
Proof.
  intros H. unfold digits. destruct (Z.leb_spec q 0).
  - replace q with 0 by lia. reflexivity.
  - pose proof (Z.log2_spec q ltac:(lia)) as [_ Hu].
    unfold Z.succ in Hu. exact Hu.
Qed.

Lemma digits_lower (q : Z) : 0 < q -> 2 ^ (digits q - 1) <= q.
Proof.
  intros H. unfold digits. destruct (Z.leb_spec q 0); [lia|].
  replace (Z.log2 q + 1 - 1) with (Z.log2 q) by lia.
  apply Z.log2_spec. exact H.
Qed.

Lemma digits_pos (q : Z) : 0 < digits q -> 0 < q.
Proof. unfold digits. destruct (Z.leb_spec q 0); lia. Qed.

Section Format.

Variable fmt : format.
Hypothesis Hprec : 0 < prec fmt.
Hypothesis Hemin : emin fmt <= 0.
Hypothesis Hemax : emin fmt <= emax fmt.

Lemma round_mag_nonneg (N D : Z) : 0 <= N -> 0 < D -> 0 <= round_mag fmt N D.
Proof.
  intros HN HD. unfold round_mag.
  set (j := rshift fmt (N / D)).
  assert (Hj : 0 <= j) by (unfold j, rshift; lia).
  assert (HS : 0 < D * 2 ^ j)
    by (apply Z.mul_pos_pos; [lia | apply Z.pow_pos_nonneg; lia]).
  pose proof (rne_bounds N (D * 2 ^ j)) as Hb.
  pose proof (Z.div_pos N (D * 2 ^ j) HN HS).
  apply Z.mul_nonneg_nonneg; [lia | apply Z.pow_nonneg; lia].
Qed.

(** Rounding a magnitude to the format is monotone. *)
Lemma round_mag_mono (N1 N2 D : Z) :
  0 < D -> 0 <= N1 <= N2 -> round_mag fmt N1 D <= round_mag fmt N2 D.
Proof.
  intros HD HN. unfold round_mag, rshift.
  set (q1 := N1 / D). set (q2 := N2 / D).
  assert (Hq1 : 0 <= q1) by (apply Z.div_pos; lia).
  assert (Hq : q1 <= q2) by (apply Z.div_le_mono; lia).
  pose proof (digits_mono q1 q2 Hq) as Hd.
  pose proof (digits_nonneg q1) as Hd1.
  pose proof (digits_upper q1 Hq1) as Hu1.
  set (d1 := digits q1) in *. set (d2 := digits q2) in *.
  set (j1 := Z.max (d1 - prec fmt) 0). set (j2 := Z.max (d2 - prec fmt) 0).
  assert (Hj1 : 0 <= j1 <= d1) by lia.
  assert (HS1 : 0 < D * 2 ^ j1)
    by (apply Z.mul_pos_pos; [lia | apply Z.pow_pos_nonneg; lia]).
  destruct (Z.eq_dec j1 j2) as [E|NE].
  - rewrite <- E.
    apply Z.mul_le_mono_nonneg_r; [apply Z.pow_nonneg; lia|].
    apply rne_mono; [exact HS1 | lia].
  - assert (Hj : j2 = d2 - prec fmt /\ d1 < d2 /\ 0 < j2) by lia.
    destruct Hj as (Ej2 & Hdd & Hj2).
    transitivity (2 ^ d1); [|transitivity (2 ^ (d2 - 1))].
    + assert (HN1 : N1 < D * 2 ^ d1).
      { pose proof (Z.mul_succ_div_gt N1 D HD) as Hs. fold q1 in Hs. nia. }
      assert (Hk : N1 / (D * 2 ^ j1) < 2 ^ (d1 - j1)).
      { apply Z.div_lt_upper_bound; [exact HS1|].
        rewrite <- Z.mul_assoc, <- Z.pow_add_r by lia.
        replace (j1 + (d1 - j1)) with d1 by lia. exact HN1. }
      pose proof (rne_bounds N1 (D * 2 ^ j1)) as Hb.
      replace (2 ^ d1) with (2 ^ (d1 - j1) * 2 ^ j1)
        by (rewrite <- Z.pow_add_r by lia; f_equal; lia).
      apply Z.mul_le_mono_nonneg_r; [apply Z.pow_nonneg; lia | lia].
    + apply Z.pow_le_mono_r; lia.
    + assert (Hq2 : 0 < q2) by (apply digits_pos; fold d2; lia).
      pose proof (digits_lower q2 Hq2) as Hl. fold d2 in Hl.
      assert (HS2 : 0 < D * 2 ^ j2)
        by (apply Z.mul_pos_pos; [lia | apply Z.pow_pos_nonneg; lia]).
      assert (HN2 : D * 2 ^ (d2 - 1) <= N2).
      { pose proof (Z.mul_div_le N2 D HD) as Hm. fold q2 in Hm. nia. }
      assert (Hk : 2 ^ (prec fmt - 1) <= N2 / (D * 2 ^ j2)).
      { apply Z.div_le_lower_bound; [exact HS2|].
        rewrite <- Z.mul_assoc, <- Z.pow_add_r by lia.
        replace (j2 + (prec fmt - 1)) with (d2 - 1) by lia. exact HN2. }
      pose proof (rne_bounds N2 (D * 2 ^ j2)) as Hb.
      replace (2 ^ (d2 - 1)) with (2 ^ (prec fmt - 1) * 2 ^ j2)
        by (rewrite <- Z.pow_add_r by lia; f_equal; lia).
      apply Z.mul_le_mono_nonneg_r; [apply Z.pow_nonneg; lia | lia].
Qed.


Lemma overflow_pos : 0 < overflow fmt.
Proof. unfold overflow. apply Z.pow_pos_nonneg; lia. Qed.

Lemma round_not_nan (neg : bool) (N D : Z) : is_nan (round fmt neg N D) = false.
Proof. unfold round. destruct (_ <=? _); reflexivity. Qed.

Lemma round_signed_not_nan (zneg : bool) (N D : Z) :
  is_nan (round_signed fmt zneg N D) = false.
Proof. unfold round_signed. destruct N; try apply round_not_nan; reflexivity. Qed.

(** The order of the rounded values follows the order of the exact ones. *)
Lemma round_le_pos (N1 N2 D : Z) :
  0 < D -> 0 <= N1 <= N2 ->
  le (round fmt false N1 D) (round fmt false N2 D) = true.
Proof.
  intros HD HN. unfold round.
  pose proof (round_mag_mono N1 N2 D HD HN) as Hm.
  pose proof (round_mag_nonneg N1 D ltac:(lia) HD) as H0.
  destruct (Z.leb_spec (overflow fmt) (round_mag fmt N1 D)),
           (Z.leb_spec (overflow fmt) (round_mag fmt N2 D));
    try reflexivity; try lia.
  unfold le, sval. apply Z.leb_le. lia.
Qed.

Lemma round_le_neg (N1 N2 D : Z) :
  0 < D -> 0 <= N1 <= N2 ->
  le (round fmt true N2 D) (round fmt true N1 D) = true.
Proof.
  intros HD HN. unfold round.
  pose proof (round_mag_mono N1 N2 D HD HN) as Hm.
  pose proof (round_mag_nonneg N1 D ltac:(lia) HD) as H0.
  destruct (Z.leb_spec (overflow fmt) (round_mag fmt N1 D)),
           (Z.leb_spec (overflow fmt) (round_mag fmt N2 D));
    try reflexivity; try lia.
  unfold le, sval. apply Z.leb_le. lia.
Qed.

Lemma round_neg_le_pos (N1 N2 D : Z) :
  0 < D -> 0 <= N1 -> 0 <= N2 ->
  le (round fmt true N1 D) (round fmt false N2 D) = true.
Proof.
  intros HD H1 H2. unfold round.
  pose proof (round_mag_nonneg N1 D H1 HD).
  pose proof (round_mag_nonneg N2 D H2 HD).
  destruct (_ <=? round_mag fmt N1 D), (_ <=? round_mag fmt N2 D);
    try reflexivity.
  unfold le, sval. apply Z.leb_le. lia.
Qed.

Lemma round_pos_ge_zero (z : bool) (N D : Z) :
  0 < D -> 0 <= N -> le (FFin z 0) (round fmt false N D) = true.
Proof.
  intros HD HN. unfold round.
  pose proof (round_mag_nonneg N D HN HD).
  destruct (_ <=? round_mag fmt N D); [reflexivity|].
  unfold le, sval. apply Z.leb_le. destruct z; lia.
Qed.

Lemma round_neg_le_zero (z : bool) (N D : Z) :
  0 < D -> 0 <= N -> le (round fmt true N D) (FFin z 0) = true.
Proof.
  intros HD HN. unfold round.
  pose proof (round_mag_nonneg N D HN HD).
  destruct (_ <=? round_mag fmt N D); [reflexivity|].
  unfold le, sval. apply Z.leb_le. destruct z; lia.
Qed.

Lemma round_signed_mono (z1 z2 : bool) (N1 N2 D : Z) :
  0 < D -> N1 <= N2 ->
  le (round_signed fmt z1 N1 D) (round_signed fmt z2 N2 D) = true.
Proof.
  intros HD HN. unfold round_signed.
  destruct N1 as [|p1|p1], N2 as [|p2|p2]; try lia.
  - unfold le, sval. destruct z1, z2; reflexivity.
  - apply round_pos_ge_zero; lia.
  - apply round_le_pos; lia.
  - apply round_neg_le_zero; lia.
  - apply round_neg_le_pos; lia.
  - apply round_le_neg; lia.
Qed.

(** Division by a positive finite number and subtraction from a finite
    number, as one rounding of a signed exact value. *)
Lemma div_fin (sx : bool) (nx ny : N) :
  ny <> 0%N ->
  div fmt (FFin sx nx) (FFin false ny) =
  round_signed fmt sx (sval sx nx * 2 ^ (- emin fmt)) (Z.of_N ny).
Proof.
  intros Hy. unfold div. destruct (N.eqb_spec ny 0%N); [contradiction|].
  rewrite xorb_false_r.
  assert (Hpow : 0 < 2 ^ (- emin fmt)) by (apply Z.pow_pos_nonneg; lia).
  destruct (N.eq_dec nx 0%N) as [->|Hx].
  - replace (sval sx 0 * 2 ^ (- emin fmt)) with 0 by (destruct sx; reflexivity).
    rewrite Z.mul_0_l. unfold round, round_mag.
    rewrite Z.div_0_l by lia. unfold rne. rewrite Z.div_0_l, Z.mod_0_l.
    + pose proof overflow_pos.
      assert (Hc : (2 * 0 ?= Z.of_N ny * 2 ^ rshift fmt 0) = Lt).
      { apply Z.compare_lt_iff.
        apply Z.mul_pos_pos; [lia | apply Z.pow_pos_nonneg; unfold rshift; lia]. }
      rewrite Hc, Z.mul_0_l. unfold round_signed.
      destruct (Z.leb_spec (overflow fmt) 0); [lia | reflexivity].
    + assert (0 < Z.of_N ny * 2 ^ rshift fmt 0); [|lia].
      apply Z.mul_pos_pos; [lia | apply Z.pow_pos_nonneg; unfold rshift; lia].
    + assert (0 < Z.of_N ny * 2 ^ rshift fmt 0); [|lia].
      apply Z.mul_pos_pos; [lia | apply Z.pow_pos_nonneg; unfold rshift; lia].
  - unfold round_signed, sval. destruct sx.
    + destruct (- Z.of_N nx * 2 ^ (- emin fmt)) eqn:E; try nia.
      rewrite <- E. f_equal. lia.
    + destruct (Z.of_N nx * 2 ^ (- emin fmt)) eqn:E; try nia. reflexivity.
Qed.

Lemma sub_fin (sa sy : bool) (na ny : N) :
  sub fmt (FFin sa na) (FFin sy ny) =
  round_signed fmt (sa && negb sy) (sval sa na - sval sy ny) 1.
Proof.
  unfold sub, opp, add. f_equal. unfold sval. destruct sy; simpl; lia.
Qed.

(** Division by a positive finite number is monotone; subtraction from a
    finite number is antitone. *)
Lemma div_mono (x1 x2 : fp) (ny : N) :
  ny <> 0%N -> le x1 x2 = true ->
  le (div fmt x1 (FFin false ny)) (div fmt x2 (FFin false ny)) = true.
Proof.
  intros Hy Hle.
  destruct x1 as [|s1|s1 n1], x2 as [|s2|s2 n2]; try discriminate.
  - destruct s1, s2; try discriminate; reflexivity.
  - rewrite div_fin by exact Hy. unfold le in Hle. subst s1.
    change (div fmt (FInf true) (FFin false ny)) with (FInf true).
    pose proof (round_signed_not_nan s2 (sval s2 n2 * 2 ^ (- emin fmt)) (Z.of_N ny)).
    destruct (round_signed _ _ _ _); [discriminate | reflexivity | reflexivity].
  - rewrite div_fin by exact Hy. unfold le in Hle. destruct s2; [discriminate|].
    change (div fmt (FInf false) (FFin false ny)) with (FInf false).
    pose proof (round_signed_not_nan s1 (sval s1 n1 * 2 ^ (- emin fmt)) (Z.of_N ny)).
    destruct (round_signed _ _ _ _) as [|[]|]; try discriminate; reflexivity.
  - rewrite !div_fin by exact Hy. apply round_signed_mono; [lia|].
    unfold le in Hle. apply Z.leb_le in Hle.
    apply Z.mul_le_mono_nonneg_r; [apply Z.pow_nonneg; lia | exact Hle].
Qed.

Lemma sub_antimono (sa : bool) (na : N) (y1 y2 : fp) :
  le y1 y2 = true ->
  le (sub fmt (FFin sa na) y2) (sub fmt (FFin sa na) y1) = true.
Proof.
  intros Hle.
  destruct y1 as [|s1|s1 n1], y2 as [|s2|s2 n2]; try discriminate.
  - destruct s1, s2; try discriminate; reflexivity.
  - rewrite sub_fin. unfold le in Hle. subst s1.
    change (sub fmt (FFin sa na) (FInf true)) with (FInf false).
    pose proof (round_signed_not_nan (sa && negb s2) (sval sa na - sval s2 n2) 1).
    destruct (round_signed _ _ _ _) as [|[]|]; try discriminate; reflexivity.
  - rewrite sub_fin. unfold le in Hle. destruct s2; [discriminate|].
    change (sub fmt (FFin sa na) (FInf false)) with (FInf true).
    pose proof (round_signed_not_nan (sa && negb s1) (sval sa na - sval s1 n1) 1).
    destruct (round_signed _ _ _ _); [discriminate | reflexivity | reflexivity].
  - rewrite !sub_fin. apply round_signed_mono; [lia|].
    unfold le in Hle. apply Z.leb_le in Hle. lia.
Qed.

(** Subtracting a number that is not positive does not decrease a value
    of the format. *)
Lemma sub_nonpos_le (x : fp) (sy : bool) (ny : N) :
  representable fmt x -> sval sy ny <= 0 ->
  le x (sub fmt x (FFin sy ny)) = true.
Proof.
  intros Hx Hy. destruct x as [|s|s n]; [contradiction | destruct s; reflexivity |].
  rewrite sub_fin. unfold representable in Hx. rewrite <- Hx at 1.
  apply round_signed_mono; lia.
Qed.

Lemma div_not_nan (x : fp) (ny : N) :
  ny <> 0%N -> is_nan x = false -> is_nan (div fmt x (FFin false ny)) = false.
Proof.
  intros Hy Hx. destruct x as [|s|s n]; [discriminate | reflexivity |].
  rewrite div_fin by exact Hy. apply round_signed_not_nan.
Qed.

Lemma sub_not_nan (sa : bool) (na : N) (y : fp) :
  is_nan y = false -> is_nan (sub fmt (FFin sa na) y) = false.
Proof.
  intros Hy. destruct y as [|s|s n]; [discriminate | reflexivity |].
  rewrite sub_fin. apply round_signed_not_nan.
Qed.

(** An integer of at most [prec] bits, scaled by a power of two, is
    a number of the format. *)
Lemma round_mag_exact (m e : Z) :
  0 < m < 2 ^ prec fmt -> 0 <= e -> round_mag fmt (m * 2 ^ e) 1 = m * 2 ^ e.
Proof.
  intros Hm He. unfold round_mag. rewrite Z.div_1_r, Z.mul_1_l.
  assert (Hlog : Z.log2 m < prec fmt) by (apply Z.log2_lt_pow2; lia).
  assert (Hpos : 0 < m * 2 ^ e)
    by (apply Z.mul_pos_pos; [lia | apply Z.pow_pos_nonneg; lia]).
  assert (Hd : digits (m * 2 ^ e) = Z.log2 m + e + 1).
  { unfold digits. destruct (Z.leb_spec (m * 2 ^ e) 0); [lia|].
    rewrite Z.log2_mul_pow2 by lia. lia. }
  unfold rshift. rewrite Hd.
  set (j := Z.max (Z.log2 m + e + 1 - prec fmt) 0).
  assert (Hj : 0 <= j <= e) by lia.
  assert (E : m * 2 ^ e = (m * 2 ^ (e - j)) * 2 ^ j).
  { rewrite <- Z.mul_assoc, <- Z.pow_add_r by lia. do 2 f_equal. lia. }
  assert (Hpj : 0 < 2 ^ j) by (apply Z.pow_pos_nonneg; lia).
  transitivity (rne (m * 2 ^ (e - j) * 2 ^ j) (2 ^ j) * 2 ^ j);
    [rewrite <- E; reflexivity|].
  rewrite rne_exact by exact Hpj. symmetry. exact E.
Qed.

End Format.

(** ** Order of the numbers *)

Lemma le_refl (x : fp) : is_nan x = false -> le x x = true.
Proof.
  destruct x as [|[]|s n]; try discriminate; try reflexivity.
  intros _. unfold le. apply Z.leb_le. lia.
Qed.

Lemma le_trans (x y z : fp) : le x y = true -> le y z = true -> le x z = true.
Proof.
  destruct x as [|[]|sx nx], y as [|[]|sy ny], z as [|[]|sz nz];
    unfold le; try discriminate; try reflexivity.
  rewrite !Z.leb_le. lia.
Qed.

Lemma lt_le (x y : fp) : lt x y = true -> le x y = true.
Proof.
  destruct x as [|[]|sx nx], y as [|[]|sy ny];
    unfold lt, le; try discriminate; try reflexivity.
  rewrite Z.ltb_lt, Z.leb_le. lia.
Qed.

(** Of two numbers, one is below the other. *)
Lemma not_lt_le (x y : fp) :
  is_nan x = false -> is_nan y = false -> lt x y = false -> le y x = true.
Proof.
  destruct x as [|[]|sx nx], y as [|[]|sy ny];
    unfold lt, le; try discriminate; try reflexivity.
  rewrite Z.ltb_ge, Z.leb_le. lia.
Qed.

Lemma le_lt_trans (x y z : fp) : le x y = true -> lt y z = true -> lt x z = true.
Proof.
  destruct x as [|[]|sx nx], y as [|[]|sy ny], z as [|[]|sz nz];
    unfold lt, le; try discriminate; try reflexivity.
  rewrite Z.leb_le, !Z.ltb_lt. lia.
Qed.

Lemma le_not_nan (x y : fp) : le x y = true -> is_nan x = false /\ is_nan y = false.
Proof. destruct x, y; try discriminate; split; reflexivity. Qed.

(** ** binary32 *)

Lemma binary32_prec : 0 < prec binary32.
Proof. reflexivity. Qed.
Lemma binary32_emin : emin binary32 <= 0.
Proof. discriminate. Qed.
Lemma binary32_emax : emin binary32 <= emax binary32.
Proof. discriminate. Qed.

(** An [int] below [2^24] in absolute value converts to [float] exactly. *)
Lemma of_int_exact (z : Z) :
  Z.abs z < 2 ^ 24 ->
  of_int binary32 z = FFin (z <? 0) (Z.to_N (Z.abs z * 2 ^ 149)).
Proof.
  intros Hz. unfold of_int, round_signed.
  change (- emin binary32) with 149.
  assert (Hp : 0 < 2 ^ 149) by (apply Z.pow_pos_nonneg; lia).
  assert (Hex : forall m, 0 < m < 2 ^ 24 ->
            round binary32 (m <? 0) (m * 2 ^ 149) 1 = FFin (m <? 0) (Z.to_N (m * 2 ^ 149))).
  { intros m Hm. unfold round.
    rewrite (round_mag_exact binary32 binary32_prec m 149) by (simpl; lia).
    destruct (Z.leb_spec (overflow binary32) (m * 2 ^ 149)); [|reflexivity].
    exfalso. unfold overflow in *. simpl in *.
    assert (m * 2 ^ 149 < 2 ^ 24 * 2 ^ 149) by (apply Z.mul_lt_mono_pos_r; lia).
    change (2 ^ 24 * 2 ^ 149) with (2 ^ 173) in *.
    assert (2 ^ 173 < 2 ^ 277) by (apply Z.pow_lt_mono_r; lia). lia. }
  destruct (z * 2 ^ 149) eqn:E.
  - assert (z = 0) by nia. subst z. reflexivity.
  - assert (0 < z) by nia. rewrite <- E.
    specialize (Hex z ltac:(lia)).
    replace (z <? 0) with false in * by (symmetry; apply Z.ltb_ge; lia).
    rewrite Hex. do 2 f_equal. lia.
  - assert (z < 0) by nia. 
    replace (- Z.neg p) with ((- z) * 2 ^ 149) by lia.
    specialize (Hex (- z) ltac:(lia)).
    replace (- z <? 0) with false in * by (symmetry; apply Z.ltb_ge; lia).
    replace (z <? 0) with true by (symmetry; apply Z.ltb_lt; lia).
    unfold round in *.
    destruct (overflow binary32 <=? _); [discriminate|].
    injection Hex as ->. do 2 f_equal. lia.
Qed.

End IEEE_facts.

(** The [float] arithmetic agrees with the Standard Library's
    [spec_float] operations on every pair of probes. *)
Lemma agrees_with_spec_float :
  forallb (fun x => forallb (IEEE.agrees f32 x) (IEEE.probes f32)) (IEEE.probes f32)
  = true.
Proof. vm_compute. reflexivity. Qed.

Ltac binary32_format :=
  first [ exact IEEE_facts.binary32_prec
        | exact IEEE_facts.binary32_emin
        | exact IEEE_facts.binary32_emax ].

(** ** Values of the constants *)

Lemma minimumSpawnRate_def : minimumSpawnRate = IEEE.of_int f32 1.
Proof. reflexivity. Qed.

Lemma maximumElapsed_def : maximumElapsed = IEEE.of_int f32 30.
Proof. reflexivity. Qed.

Lemma minimumSpawnRate_value :
  minimumSpawnRate = IEEE.FFin false (Z.to_N (1 * 2 ^ 149)).
Proof. apply (IEEE_facts.of_int_exact 1). reflexivity. Qed.

Lemma maximumElapsed_value :
  maximumElapsed = IEEE.FFin false (Z.to_N (30 * 2 ^ 149)).
Proof. apply (IEEE_facts.of_int_exact 30). reflexivity. Qed.

Lemma maximumElapsed_nonzero : Z.to_N (30 * 2 ^ 149) <> 0%N.
Proof. vm_compute. discriminate. Qed.

(** The [float] nearest to the [double] nearest to 0.1: slightly above
    one tenth. *)
Lemma maximumSpawnRate_value :
  maximumSpawnRate = IEEE.FFin false (13421773 * 2 ^ 122)%N.
Proof. vm_compute. reflexivity. Qed.

Lemma tenth_below_maximumSpawnRate :
  (2 ^ 149 <= 10 * Z.of_N (13421773 * 2 ^ 122))%Z.
Proof. vm_compute. discriminate. Qed.

Lemma particleMaximumElapsed_value :
  particleMaximumElapsed = IEEE.FFin false (13421773 * 2 ^ 122)%N.
Proof. vm_compute. reflexivity. Qed.

Lemma spawnLeft_value : spawnLeft = 240.
Proof. vm_compute. reflexivity. Qed.

Lemma spawnRight_value : spawnRight = 720.
Proof. vm_compute. reflexivity. Qed.

Lemma strafe_bounds :
  IEEE.to_int f32 minimumFruitStrafe = -5 /\ IEEE.to_int f32 maximumFruitStrafe = 5.
Proof. split; vm_compute; reflexivity. Qed.

Lemma thrust_bounds :
  IEEE.to_int f32 minimumFruitThrust = 5 /\ IEEE.to_int f32 maximumFruitThrust = 20.
Proof. split; vm_compute; reflexivity. Qed.

(** [-10.0 / 60] as a [float]: -0.16666667. *)
Lemma gravity_value : gravity = IEEE.FFin true (11184811 * 2 ^ 123)%N.
Proof. vm_compute. reflexivity. Qed.

Lemma gravity_negative : IEEE.lt gravity (IEEE.FFin false 0) = true.
Proof. rewrite gravity_value. reflexivity. Qed.

(** From here on the constants are used through these values only. *)
#[global] Opaque minimumFruitThrust maximumFruitThrust minimumFruitStrafe
  maximumFruitStrafe minimumSpawnRate maximumSpawnRate maximumElapsed gravity
  particleMaximumElapsed spawnLeft spawnRight.

Section Properties.

Context {Rng : Type} {raylib : Raylib Rng}.

Implicit Types (s t : Game Rng) (fr : Frame) (i : Z).

Lemma loop_upd_fruit s (f : Fruit.t -> Fruit.t) (n : Z) :
  Z.of_nat (length (fruits s)) = n ->
  for_loop n (fun i => upd_fruit i f) s = set_fruits (f <$> fruits s) s.
Proof.
  intros Hn. rewrite <- (loop_array_update f (fruits s) n Hn).
  apply (for_loop_inv
           (fun i t => t = set_fruits (for_loop i (fun i => array_update i f) (fruits s)) s)); [lia | |].
  - by destruct s.
  - intros i t Hi ->. rewrite for_loop_succ by lia. reflexivity.
Qed.

Lemma loop_upd_particle s (f : Particle.t -> Particle.t) (n : Z) :
  Z.of_nat (length (particles s)) = n ->
  for_loop n (fun i => upd_particle i f) s = set_particles (f <$> particles s) s.
Proof.
  intros Hn. rewrite <- (loop_array_update f (particles s) n Hn).
  apply (for_loop_inv
           (fun i t => t = set_particles (for_loop i (fun i => array_update i f) (particles s)) s)); [lia | |].
  - by destruct s.
  - intros i t Hi ->. rewrite for_loop_succ by lia. reflexivity.
Qed.

(** ** Integers and cursors *)

Lemma wrap_int_id (z : Z) : INT_MIN <= z <= INT_MAX -> wrap_int z = z.
Proof.
  unfold wrap_int, INT_MIN, INT_MAX. intros Hz.
  change (2 ^ 31) with 2147483648. change (2 ^ 32) with 4294967296.
  rewrite Z.mod_small; lia.
Qed.

(** [(c + 1) % n] for a cursor of an array of [n] slots. *)
Lemma cursor_step (c n : Z) :
  0 <= c < n -> n <= INT_MAX ->
  Z.rem (int_add c 1) n = (c + 1) mod n /\ 0 <= (c + 1) mod n < n.
Proof.
  intros Hc Hn. unfold int_add.
  rewrite wrap_int_id by (unfold INT_MIN, INT_MAX in *; lia).
  rewrite Z.rem_mod_nonneg by lia. split; [reflexivity|].
  apply Z.mod_pos_bound. lia.
Qed.

Lemma of_int_zero : IEEE.of_int f32 0 = zero.
Proof. reflexivity. Qed.

(** ** The three transitions *)

Lemma FromPlayToLoseState_eq s :
  pools_sized s ->
  FromPlayToLoseState s =
  mkGame loseState
    (Fruit.set_enabled false <$> fruits s)
    (Particle.set_enabled false <$> particles s)
    (nextFruitIndex s) (nextParticleIndex s) (score s) (fruitsSlashed s)
    zero zero false (rng s).
Proof.
  intros [Hf Hp]. unfold FromPlayToLoseState.
  rewrite loop_upd_fruit by (simpl; rewrite Hf; reflexivity).
  rewrite loop_upd_particle by (simpl; rewrite Hp; reflexivity).
  rewrite of_int_zero. reflexivity.
Qed.

Lemma filter_enabled_fruits_nil (l : list Fruit.t) :
  filter (fun f => Fruit.enabled f = true) (Fruit.set_enabled false <$> l) = [].
Proof.
  induction l as [|f l IH]; [reflexivity|].
  rewrite fmap_cons, filter_cons_False; [exact IH | simpl; discriminate].
Qed.

Lemma filter_enabled_particles_nil (l : list Particle.t) :
  filter (fun p => Particle.enabled p = true) (Particle.set_enabled false <$> l) = [].
Proof.
  induction l as [|p l IH]; [reflexivity|].
  rewrite fmap_cons, filter_cons_False; [exact IH | simpl; discriminate].
Qed.

(** C2.  The Play-to-Lose transition sets [state] to [loseState], clears
    the [enabled] flag of each of the 48 fruit slots and of each of the 16
    particle slots (so that no enabled fruit or particle remains), and
    resets [spawnElapsed] and [totalElapsed] to 0 and [slashing] to false;
    [score] and [fruitsSlashed] keep their values. *)
Theorem FromPlayToLoseState_spec s :
  pools_sized s ->
  let s' := FromPlayToLoseState s in
  state s' = loseState /\
  (forall i, 0 <= i < 48 -> Fruit.enabled <$> get_fruit i s' = Some false) /\
  (forall i, 0 <= i < 16 -> Particle.enabled <$> get_particle i s' = Some false) /\
  enabled_fruits s' = 0%nat /\
  enabled_particles s' = 0%nat /\
  spawnElapsed s' = IEEE.FFin false 0%N /\
  totalElapsed s' = IEEE.FFin false 0%N /\
  slashing s' = false /\
  score s' = score s /\
  fruitsSlashed s' = fruitsSlashed s.
Proof.
  intros Hs s'. subst s'. rewrite (FromPlayToLoseState_eq s Hs).
  destruct Hs as [Hf Hp].
  unfold get_fruit, get_particle, enabled_fruits, enabled_particles. simpl.
  repeat split; try reflexivity.
  - intros i Hi. rewrite array_get_fmap.
    destruct (array_get_in i (fruits s)) as [f ->]; [|reflexivity].
    rewrite Hf. unfold MAX_FRUIT_COUNT. lia.
  - intros i Hi. rewrite array_get_fmap.
    destruct (array_get_in i (particles s)) as [p ->]; [|reflexivity].
    rewrite Hp. unfold MAX_PARTICLE_COUNT. lia.
  - rewrite filter_enabled_fruits_nil. reflexivity.
  - rewrite filter_enabled_particles_nil. reflexivity.
Qed.

(** C8.  In the Lose state a press of the primary button runs the
    Lose-to-Start transition, which sets [state] to [startState] and
    [score] and [fruitsSlashed] to 0 and leaves every other variable and
    every pool slot as it was; without a press nothing changes. *)
Theorem Lose_to_Start_spec fr s :
  state s = loseState ->
  FromLoseToStartState s =
    mkGame startState (fruits s) (particles s)
      (nextFruitIndex s) (nextParticleIndex s) 0 0
      (spawnElapsed s) (totalElapsed s) (slashing s) (rng s) /\
  Update fr s = if IsMouseButtonPressed fr then FromLoseToStartState s else s.
Proof.
  intros Hs. split; [reflexivity|].
  unfold Update. rewrite Hs. reflexivity.
Qed.


(** ** Slash resolution *)

Lemma get_fruit_upd s i j (g : Fruit.t -> Fruit.t) :
  get_fruit j (upd_fruit i g s) =
  if decide (i = j) then g <$> get_fruit j s else get_fruit j s.
Proof. apply array_get_update. Qed.

Lemma get_particle_upd s i j (g : Particle.t -> Particle.t) :
  get_particle j (upd_particle i g s) =
  if decide (i = j) then g <$> get_particle j s else get_particle j s.
Proof. apply array_get_update. Qed.

Lemma upd_fruit_sized s i (g : Fruit.t -> Fruit.t) :
  pools_sized s -> pools_sized (upd_fruit i g s).
Proof.
  intros [Hf Hp]. split; simpl; [|exact Hp].
  rewrite length_array_update. exact Hf.
Qed.

Lemma upd_particle_sized s i (g : Particle.t -> Particle.t) :
  pools_sized s -> pools_sized (upd_particle i g s).
Proof.
  intros [Hf Hp]. split; simpl; [exact Hf|].
  rewrite length_array_update. exact Hp.
Qed.

Lemma set_slashing_sized s (v : bool) :
  pools_sized s -> pools_sized (set_slashing v s).
Proof. intros H. exact H. Qed.

Lemma set_slashing_cursors s (v : bool) :
  cursors_in_range s -> cursors_in_range (set_slashing v s).
Proof. intros H. exact H. Qed.

Lemma upd_fruit_cursors s i (g : Fruit.t -> Fruit.t) :
  cursors_in_range s -> cursors_in_range (upd_fruit i g s).
Proof. intros H. exact H. Qed.

Lemma SlashFruit_unfold s i (f : Fruit.t) :
  get_fruit i s = Some f ->
  SlashFruit i s =
  let s1 := upd_fruit i (Fruit.set_enabled false) s in
  match Fruit.type f with
  | appleType =>
      set_score (int_add (score s) appleScore)
        (set_fruitsSlashed (int_add (fruitsSlashed s) 1) s1)
  | bananaType =>
      set_score (int_add (score s) bananaScore)
        (set_fruitsSlashed (int_add (fruitsSlashed s) 1) s1)
  | cherryType =>
      set_score (int_add (score s) cherryScore)
        (set_fruitsSlashed (int_add (fruitsSlashed s) 1) s1)
  | donutType => FromPlayToLoseState s1
  end.
Proof.
  intros Hf. unfold SlashFruit.
  rewrite get_fruit_upd. case_decide; [|lia]. rewrite Hf. simpl.
  destruct (Fruit.type f); reflexivity.
Qed.

(** C1.  In the loop over the fruits of the Play-state update, an enabled
    fruit that is not below the screen and is hit by the slash: an Apple
    adds exactly 1 to [score] and 1 to [fruitsSlashed], a Banana exactly 3
    and 1, a Cherry exactly 9 and 1, and the state stays as it was; a
    Donut leaves [score] and [fruitsSlashed] unchanged and sets [state] to
    [loseState].  In each case the fruit's [enabled] flag is false
    afterwards. *)
Theorem slash_hit_spec fr i s (f : Fruit.t) :
  pools_sized s ->
  counters_in_range s ->
  get_fruit i s = Some f ->
  Fruit.enabled f = true ->
  below_screen f = false ->
  slash_hits fr s f = true ->
  let s' := play_fruit fr i s in
  s' = SlashFruit i s /\
  Fruit.enabled <$> get_fruit i s' = Some false /\
  match Fruit.type f with
  | appleType =>
      score s' = score s + 1 /\ fruitsSlashed s' = fruitsSlashed s + 1 /\
      state s' = state s
  | bananaType =>
      score s' = score s + 3 /\ fruitsSlashed s' = fruitsSlashed s + 1 /\
      state s' = state s
  | cherryType =>
      score s' = score s + 9 /\ fruitsSlashed s' = fruitsSlashed s + 1 /\
      state s' = state s
  | donutType =>
      score s' = score s /\ fruitsSlashed s' = fruitsSlashed s /\
      state s' = loseState
  end.
Proof.
  intros Hsz (Hs1 & Hs2 & Hn1 & Hn2) Hf Hen Hbelow Hhit s'. subst s'.
  unfold play_fruit. rewrite Hf, Hen, Hbelow, Hhit.
  split; [reflexivity|].
  rewrite (SlashFruit_unfold s i f Hf). cbv zeta.
  assert (Hoff : Fruit.enabled <$> get_fruit i (upd_fruit i (Fruit.set_enabled false) s)
                 = Some false).
  { rewrite get_fruit_upd. case_decide; [|lia]. rewrite Hf. reflexivity. }
  unfold cherryScore, bananaScore, appleScore, int_add in *.
  unfold get_fruit in *. simpl in Hoff.
  destruct (Fruit.type f); [simpl | simpl | simpl |].
  - rewrite !wrap_int_id by lia. auto.
  - rewrite !wrap_int_id by lia. auto.
  - rewrite !wrap_int_id by lia. auto.
  - rewrite FromPlayToLoseState_eq by (apply upd_fruit_sized; exact Hsz).
    unfold get_fruit in *. simpl in *. rewrite array_get_fmap.
    destruct (array_get i (array_update i _ (fruits s))) as [f'|];
      [|discriminate].
    simpl. auto.
Qed.

Lemma move_fruit_eq (f : Fruit.t) :
  move_fruit f =
  Fruit.mk (Fruit.type f)
    (Vector2.mk
       (IEEE.add f32 (Vector2.x (Fruit.position f)) (Vector2.x (Fruit.velocity f)))
       (IEEE.add f32 (Vector2.y (Fruit.position f)) (Vector2.y (Fruit.velocity f))))
    (Vector2.mk
       (Vector2.x (Fruit.velocity f))
       (IEEE.sub f32 (Vector2.y (Fruit.velocity f)) gravity))
    (Fruit.enabled f).
Proof. destruct f as [ty [px py] [vx vy] en]. reflexivity. Qed.

(** The body of the loop over the fruits, at any point of the loop.  In
    the loop over the fruits of the Play-state update, for an
    enabled fruit, in this order: (1) when its vertical position exceeds
    [screenHeight] (540) it is disabled and nothing else changes, the
    score in particular; (2) otherwise, when [slashing] is set and raylib
    finds the pointer within the circle of radius 32 centred on the
    fruit's position plus (32, 32), the fruit goes through [SlashFruit]
    and keeps its position and velocity this frame; (3) otherwise its
    position is advanced by its velocity and [gravity], which is negative,
    is subtracted from its vertical velocity, which does not decrease (the
    vertical axis points down).  No other slot changes, unless the game is
    lost by the slash. *)
Lemma play_fruit_body fr i s (f : Fruit.t) :
  pools_sized s ->
  get_fruit i s = Some f ->
  Fruit.enabled f = true ->
  let s' := play_fruit fr i s in
  let below :=
    IEEE.lt (IEEE.of_int f32 540) (Vector2.y (Fruit.position f)) in
  let hit :=
    slashing s &&
    CheckCollisionPointCircle (GetMousePosition fr)
      (Vector2.mk
         (IEEE.add f32 (Vector2.x (Fruit.position f)) (IEEE.of_int f32 32))
         (IEEE.add f32 (Vector2.y (Fruit.position f)) (IEEE.of_int f32 32)))
      (IEEE.of_int f32 32) in
  (below = true ->
     s' = upd_fruit i (Fruit.set_enabled false) s /\
     get_fruit i s' = Some (Fruit.set_enabled false f) /\
     score s' = score s /\ fruitsSlashed s' = fruitsSlashed s /\
     state s' = state s) /\
  (below = false -> hit = true ->
     s' = SlashFruit i s /\
     Fruit.position <$> get_fruit i s' = Some (Fruit.position f) /\
     Fruit.velocity <$> get_fruit i s' = Some (Fruit.velocity f)) /\
  (below = false -> hit = false ->
     s' = upd_fruit i move_fruit s /\
     get_fruit i s' =
       Some (Fruit.mk (Fruit.type f)
               (Vector2.mk
                  (IEEE.add f32 (Vector2.x (Fruit.position f))
                                (Vector2.x (Fruit.velocity f)))
                  (IEEE.add f32 (Vector2.y (Fruit.position f))
                                (Vector2.y (Fruit.velocity f))))
               (Vector2.mk
                  (Vector2.x (Fruit.velocity f))
                  (IEEE.sub f32 (Vector2.y (Fruit.velocity f)) gravity))
               true)) /\
  (forall j, j <> i -> get_fruit j s' = get_fruit j s \/ state s' = loseState) /\
  IEEE.lt gravity (IEEE.FFin false 0%N) = true /\
  (IEEE.representable f32 (Vector2.y (Fruit.velocity f)) ->
   IEEE.le (Vector2.y (Fruit.velocity f))
     (IEEE.sub f32 (Vector2.y (Fruit.velocity f)) gravity) = true).
Proof.
  intros Hsz Hf Hen s' below hit.
  assert (Hs' : s' = if below then upd_fruit i (Fruit.set_enabled false) s
                     else if hit then SlashFruit i s
                     else upd_fruit i move_fruit s).
  { subst s' below hit. unfold play_fruit. rewrite Hf, Hen. reflexivity. }
  clearbody s' below hit.
  split; [|split; [|split; [|split; [|split]]]].
  - intros Hb. rewrite Hb in Hs'. subst s'. split; [reflexivity|].
    rewrite get_fruit_upd. case_decide; [|lia]. rewrite Hf. auto.
  - intros Hb Hh. rewrite Hb, Hh in Hs'. subst s'. split; [reflexivity|].
    rewrite (SlashFruit_unfold s i f Hf). cbv zeta.
    assert (Hoff : get_fruit i (upd_fruit i (Fruit.set_enabled false) s)
                   = Some (Fruit.set_enabled false f)).
    { rewrite get_fruit_upd. case_decide; [|lia]. rewrite Hf. reflexivity. }
    destruct (Fruit.type f);
      try (unfold get_fruit in *; simpl in *; rewrite Hoff; split; reflexivity).
    rewrite FromPlayToLoseState_eq by (apply upd_fruit_sized; exact Hsz).
    unfold get_fruit in *. simpl in *. rewrite array_get_fmap, Hoff.
    split; reflexivity.
  - intros Hb Hh. rewrite Hb, Hh in Hs'. subst s'. split; [reflexivity|].
    rewrite get_fruit_upd. case_decide; [|lia]. rewrite Hf.
    simpl. rewrite move_fruit_eq, Hen. reflexivity.
  - intros j Hj. subst s'. destruct below; [|destruct hit].
    + left. rewrite get_fruit_upd. case_decide; [lia | reflexivity].
    + rewrite (SlashFruit_unfold s i f Hf). cbv zeta.
      destruct (Fruit.type f);
        try (left; unfold get_fruit; simpl; apply array_get_update_ne; lia).
      right. rewrite FromPlayToLoseState_eq by (apply upd_fruit_sized; exact Hsz).
      reflexivity.
    + left. rewrite get_fruit_upd. case_decide; [lia | reflexivity].
  - exact gravity_negative.
  - intros Hrep. rewrite gravity_value.
    apply IEEE_facts.sub_nonpos_le; [binary32_format | exact Hrep|].
    unfold IEEE.sval. lia.
Qed.

(** ** Initialisation, spawner and trail in closed form *)

Lemma array_update_twice {A : Type} (i : Z) (f g : A -> A) (l : list A) :
  array_update i g (array_update i f l) = array_update i (fun x => g (f x)) l.
Proof.
  unfold array_update. destruct (0 <=? i); [|reflexivity].
  apply (list_alter_alter_eq g f).
Qed.

Lemma Initialize_eq s :
  pools_sized s ->
  Initialize s =
  mkGame startState
    (Fruit.set_enabled false <$> fruits s)
    (Particle.set_enabled false <$> particles s)
    0 0 (score s) 0 zero zero false (rng s).
Proof.
  intros [Hf Hp]. unfold Initialize.
  rewrite loop_upd_fruit by (simpl; rewrite Hf; reflexivity).
  rewrite loop_upd_particle by (simpl; rewrite Hp; reflexivity).
  rewrite of_int_zero. reflexivity.
Qed.

Lemma static_init_sized (g : Rng) : pools_sized (static_init g).
Proof. split; reflexivity. Qed.

Lemma SpawnFruit_eq s :
  SpawnFruit s =
  let r1 := GetRandomValue 1 100 (rng s) in
  let r2 := GetRandomValue spawnLeft spawnRight (snd r1) in
  let r3 := GetRandomValue (IEEE.to_int f32 minimumFruitStrafe)
                           (IEEE.to_int f32 maximumFruitStrafe) (snd r2) in
  let r4 := GetRandomValue (IEEE.to_int f32 minimumFruitThrust)
                           (IEEE.to_int f32 maximumFruitThrust) (snd r3) in
  mkGame (state s)
    (array_update (nextFruitIndex s)
       (fun f =>
          Fruit.mk (spawn_type (fst r1) (Fruit.type f))
            (Vector2.mk (IEEE.of_int f32 (fst r2)) (IEEE.of_int f32 screenHeight))
            (Vector2.mk (IEEE.of_int f32 (fst r3)) (IEEE.of_int f32 (- fst r4)))
            true)
       (fruits s))
    (particles s)
    (Z.rem (int_add (nextFruitIndex s) 1) MAX_FRUIT_COUNT)
    (nextParticleIndex s) (score s) (fruitsSlashed s)
    (spawnElapsed s) (totalElapsed s) (slashing s) (snd r4).
Proof.
  unfold SpawnFruit.
  destruct (GetRandomValue 1 100 (rng s)) as [d g1]. simpl.
  destruct (GetRandomValue spawnLeft spawnRight g1) as [px g2]. simpl.
  destruct (GetRandomValue _ _ g2) as [sx g3]. simpl.
  destruct (GetRandomValue _ _ g3) as [th g4]. simpl.
  unfold upd_fruit, set_nextFruitIndex. simpl.
  rewrite !array_update_twice. reflexivity.
Qed.

Lemma play_trail_eq fr s :
  play_trail fr s =
  if slashing s then
    mkGame (state s) (fruits s)
      (array_update (nextParticleIndex s)
         (fun _ => Particle.mk (GetMousePosition fr) zero true) (particles s))
      (nextFruitIndex s)
      (Z.rem (int_add (nextParticleIndex s) 1) MAX_PARTICLE_COUNT)
      (score s) (fruitsSlashed s) (spawnElapsed s) (totalElapsed s)
      (slashing s) (rng s)
  else s.
Proof.
  unfold play_trail. destruct (slashing s) eqn:E; [|reflexivity].
  unfold upd_particle, set_nextParticleIndex. simpl.
  rewrite !array_update_twice, E. reflexivity.
Qed.

Lemma play_particles_eq fr s :
  pools_sized s ->
  play_particles fr s = set_particles (age_particle fr <$> particles s) s.
Proof.
  intros [Hf Hp]. unfold play_particles.
  apply loop_upd_particle. rewrite Hp. reflexivity.
Qed.

(** ** What the loop over the fruits leaves alone *)

Lemma fruits_step_refl s : pools_sized s -> fruits_step s s.
Proof. intros Hs. repeat split; try apply Hs. right. auto. Qed.

Lemma fruits_step_trans s t u :
  fruits_step s t -> fruits_step t u -> fruits_step s u.
Proof.
  intros (Hs1 & Hf1 & Hp1 & Hr1 & H1) (Hs2 & Hf2 & Hp2 & Hr2 & H2).
  repeat split; try apply Hs2; try congruence.
  destruct H2 as [H2 | (E1 & E2 & E3 & E4 & E5)]; [left; exact H2|].
  destruct H1 as [H1 | (D1 & D2 & D3 & D4 & D5)]; [left; congruence|].
  right. repeat split; congruence.
Qed.

Lemma SlashFruit_step s i : pools_sized s -> fruits_step s (SlashFruit i s).
Proof.
  intros Hs. unfold SlashFruit.
  pose proof (upd_fruit_sized s i (Fruit.set_enabled false) Hs) as Hs1.
  destruct (Fruit.type <$> get_fruit i _) as [[| | |]|].
  1-3: repeat split; try apply Hs1; right; auto.
  - rewrite (FromPlayToLoseState_eq _ Hs1).
    destruct Hs1 as [Hf Hp].
    repeat split; simpl; rewrite ?length_fmap; auto.
  - repeat split; try apply Hs1. right. auto.
Qed.

Lemma play_fruit_step fr s i : pools_sized s -> fruits_step s (play_fruit fr i s).
Proof.
  intros Hs. unfold play_fruit.
  destruct (get_fruit i s) as [f|]; [|by apply fruits_step_refl].
  destruct (Fruit.enabled f); [|by apply fruits_step_refl].
  destruct (below_screen f); [|destruct (slash_hits fr s f)].
  - pose proof (upd_fruit_sized s i (Fruit.set_enabled false) Hs) as Hs1.
    repeat split; try apply Hs1. right. auto.
  - by apply SlashFruit_step.
  - pose proof (upd_fruit_sized s i move_fruit Hs) as Hs1.
    repeat split; try apply Hs1. right. auto.
Qed.

Lemma play_fruits_step fr s : pools_sized s -> fruits_step s (play_fruits fr s).
Proof.
  intros Hs. unfold play_fruits.
  apply (for_loop_inv (fun _ t => fruits_step s t)).
  - unfold MAX_FRUIT_COUNT. lia.
  - by apply fruits_step_refl.
  - intros i t _ Ht. apply (fruits_step_trans s t); [exact Ht|].
    apply play_fruit_step. apply Ht.
Qed.


(** ** The Play-state update up to the spawn test, in closed form *)

Lemma play_prefix_eq fr s :
  pools_sized s ->
  play_particles fr (play_trail fr (play_input fr (play_timers fr s))) =
  mkGame (state s) (fruits s)
    (age_particle fr <$>
       (if slashing_in fr s
        then array_update (nextParticleIndex s)
               (fun _ => Particle.mk (GetMousePosition fr) zero true) (particles s)
        else particles s))
    (nextFruitIndex s)
    (if slashing_in fr s
     then Z.rem (int_add (nextParticleIndex s) 1) MAX_PARTICLE_COUNT
     else nextParticleIndex s)
    (score s) (fruitsSlashed s)
    (IEEE.add f32 (spawnElapsed s) (GetFrameTime fr))
    (IEEE.add f32 (totalElapsed s) (GetFrameTime fr))
    (slashing_in fr s) (rng s).
Proof.
  intros [Hf Hp].
  rewrite play_particles_eq.
  - rewrite play_trail_eq.
    destruct s as [st fs ps cf cp sc fsl se te sl g].
    unfold play_input, play_timers, slashing_in. simpl.
    destruct (IsMouseButtonPressed fr), (IsMouseButtonReleased fr), sl;
      reflexivity.
  - rewrite play_trail_eq.
    destruct s as [st fs ps cf cp sc fsl se te sl g].
    unfold play_input, play_timers, pools_sized. simpl in *.
    destruct (IsMouseButtonPressed fr), (IsMouseButtonReleased fr), sl;
      simpl; rewrite ?length_array_update; auto.
Qed.

Lemma UpdatePlayState_eq fr s :
  UpdatePlayState fr s =
  play_fruits fr
    (play_spawn (play_particles fr (play_trail fr (play_input fr (play_timers fr s))))).
Proof. reflexivity. Qed.

(** ** Invariants of the main loop *)

Lemma play_spawn_inv s :
  pools_sized s -> cursors_in_range s ->
  pools_sized (play_spawn s) /\ cursors_in_range (play_spawn s) /\
  nextParticleIndex (play_spawn s) = nextParticleIndex s /\
  nextFruitIndex (play_spawn s) =
    (if spawn_due s then (nextFruitIndex s + 1) mod 48 else nextFruitIndex s).
Proof.
  intros [Hf Hp] [Hc1 Hc2]. unfold play_spawn.
  destruct (spawn_due s); [|repeat split; auto; apply Hc1 || apply Hc2].
  rewrite SpawnFruit_eq. cbv zeta. simpl.
  destruct (cursor_step (nextFruitIndex s) MAX_FRUIT_COUNT Hc1) as [E B];
    [unfold MAX_FRUIT_COUNT, INT_MAX; lia|].
  unfold pools_sized, cursors_in_range. simpl.
  rewrite length_array_update, E. repeat split; auto; apply B || apply Hc2.
Qed.

Lemma UpdatePlayState_inv fr s :
  pools_sized s -> cursors_in_range s ->
  let s' := UpdatePlayState fr s in
  pools_sized s' /\ cursors_in_range s' /\
  nextParticleIndex s' =
    (if slashing_in fr s then (nextParticleIndex s + 1) mod 16
     else nextParticleIndex s) /\
  nextFruitIndex s' =
    (if spawn_due_in fr s then (nextFruitIndex s + 1) mod 48
     else nextFruitIndex s).
Proof.
  intros Hs Hc s'. subst s'. rewrite UpdatePlayState_eq.
  pose proof (play_prefix_eq fr s Hs) as Hpre.
  set (s4 := play_particles fr _) in *.
  destruct Hs as [Hf Hp], Hc as [Hc1 Hc2].
  destruct (cursor_step (nextParticleIndex s) MAX_PARTICLE_COUNT Hc2) as [E B];
    [unfold MAX_PARTICLE_COUNT, INT_MAX; lia|].
  assert (Hs4 : pools_sized s4).
  { rewrite Hpre. split; simpl; [exact Hf|].
    rewrite length_fmap. destruct (slashing_in fr s);
      rewrite ?length_array_update; exact Hp. }
  assert (Hc4 : cursors_in_range s4).
  { rewrite Hpre. split; simpl; [exact Hc1|].
    destruct (slashing_in fr s); [rewrite E; exact B | exact Hc2]. }
  destruct (play_spawn_inv s4 Hs4 Hc4) as (Hs5 & Hc5 & Ep & Ef).
  destruct (play_fruits_step fr (play_spawn s4) Hs5) as (Hs6 & Ef6 & Ep6 & _).
  split; [exact Hs6|]. split.
  - unfold cursors_in_range. rewrite Ef6, Ep6. exact Hc5.
  - rewrite Ep6, Ef6, Ep, Ef. split.
    + rewrite Hpre. simpl. destruct (slashing_in fr s); [exact E | reflexivity].
    + replace (spawn_due s4) with (spawn_due_in fr s)
        by (rewrite Hpre; reflexivity).
      rewrite Hpre. reflexivity.
Qed.

Lemma Update_inv fr s :
  pools_sized s -> cursors_in_range s ->
  pools_sized (Update fr s) /\ cursors_in_range (Update fr s).
Proof.
  intros Hs Hc. unfold Update. destruct (state s).
  - unfold UpdateStartState. destruct (IsMouseButtonPressed fr); auto.
  - pose proof (UpdatePlayState_inv fr s Hs Hc) as H. cbv zeta in H. tauto.
  - unfold UpdateLoseState. destruct (IsMouseButtonPressed fr); auto.
Qed.

Lemma run_inv (frames : list Frame) s :
  pools_sized s -> cursors_in_range s ->
  pools_sized (run frames s) /\ cursors_in_range (run frames s).
Proof.
  revert s. induction frames as [|fr frames IH]; intros s Hs Hc; [auto|].
  simpl. destruct (Update_inv fr s Hs Hc). apply IH; assumption.
Qed.

Lemma Initialize_inv (g : Rng) :
  pools_sized (Initialize (static_init g)) /\
  cursors_in_range (Initialize (static_init g)).
Proof.
  rewrite Initialize_eq by apply static_init_sized.
  repeat split; simpl; rewrite ?length_fmap; try reflexivity;
    unfold MAX_FRUIT_COUNT, MAX_PARTICLE_COUNT; lia.
Qed.

Lemma main_inv (g : Rng) (frames : list Frame) :
  pools_sized (main g frames) /\ cursors_in_range (main g frames).
Proof.
  unfold main. destruct (Initialize_inv g). apply run_inv; assumption.
Qed.

(** C9.  After any sequence of frames from the initialised state, at most
    48 fruit slots and at most 16 particle slots are enabled. *)
Theorem enabled_bounded (g : Rng) (frames : list Frame) :
  (enabled_fruits (main g frames) <= 48)%nat /\
  (enabled_particles (main g frames) <= 16)%nat.
Proof.
  destruct (main_inv g frames) as [[Hf Hp] _].
  unfold enabled_fruits, enabled_particles. split.
  - etrans; [apply length_filter|]. rewrite Hf. reflexivity.
  - etrans; [apply length_filter|]. rewrite Hp. reflexivity.
Qed.


Lemma FromPlayToLoseState_cursors s :
  nextFruitIndex (FromPlayToLoseState s) = nextFruitIndex s /\
  nextParticleIndex (FromPlayToLoseState s) = nextParticleIndex s.
Proof.
  unfold FromPlayToLoseState. simpl. split; reflexivity.
Qed.

(** C10.  In every state reached from the initialised one, before and
    after any further update, the fruit cursor lies in [0, 48) and the
    particle cursor in [0, 16), and each indexes a slot of its array.  An
    update advances the fruit cursor, by one modulo 48, exactly when it
    runs in the Play state and the spawn test succeeds, and the particle
    cursor, by one modulo 16, exactly when it runs in the Play state with
    [slashing] set after the press / release test; otherwise the cursors
    keep their values.  None of the three transitions changes a cursor. *)
Theorem cursors_spec (g : Rng) (frames : list Frame) (fr : Frame) :
  let s := main g frames in
  let s' := Update fr s in
  (0 <= nextFruitIndex s < 48 /\ 0 <= nextParticleIndex s < 16) /\
  (0 <= nextFruitIndex s' < 48 /\ 0 <= nextParticleIndex s' < 16) /\
  (is_Some (get_fruit (nextFruitIndex s) s) /\
   is_Some (get_particle (nextParticleIndex s) s)) /\
  nextFruitIndex s' =
    match state s with
    | playState =>
        if spawn_due_in fr s then (nextFruitIndex s + 1) mod 48
        else nextFruitIndex s
    | _ => nextFruitIndex s
    end /\
  nextParticleIndex s' =
    match state s with
    | playState =>
        if slashing_in fr s then (nextParticleIndex s + 1) mod 16
        else nextParticleIndex s
    | _ => nextParticleIndex s
    end /\
  (forall t : Game Rng,
     nextFruitIndex (FromStartToPlayState t) = nextFruitIndex t /\
     nextParticleIndex (FromStartToPlayState t) = nextParticleIndex t /\
     nextFruitIndex (FromPlayToLoseState t) = nextFruitIndex t /\
     nextParticleIndex (FromPlayToLoseState t) = nextParticleIndex t /\
     nextFruitIndex (FromLoseToStartState t) = nextFruitIndex t /\
     nextParticleIndex (FromLoseToStartState t) = nextParticleIndex t).
Proof.
  intros s s'.
  destruct (main_inv g frames) as [Hs Hc]. fold s in Hs, Hc.
  destruct (Update_inv fr s Hs Hc) as [Hs' Hc']. fold s' in Hs', Hc'.
  split; [exact Hc|]. split; [exact Hc'|]. split; [|split; [|split]].
  - destruct Hs as [Hf Hp], Hc as [Hc1 Hc2]. split.
    + destruct (array_get_in (nextFruitIndex s) (fruits s)) as [f Hfr]; [|by exists f].
      rewrite Hf. unfold MAX_FRUIT_COUNT in *. lia.
    + destruct (array_get_in (nextParticleIndex s) (particles s)) as [p Hpa];
        [|by exists p].
      rewrite Hp. unfold MAX_PARTICLE_COUNT in *. lia.
  - subst s'. unfold Update. destruct (state s).
    + unfold UpdateStartState. destruct (IsMouseButtonPressed fr); reflexivity.
    + apply (UpdatePlayState_inv fr s Hs Hc).
    + unfold UpdateLoseState. destruct (IsMouseButtonPressed fr); reflexivity.
  - subst s'. unfold Update. destruct (state s).
    + unfold UpdateStartState. destruct (IsMouseButtonPressed fr); reflexivity.
    + apply (UpdatePlayState_inv fr s Hs Hc).
    + unfold UpdateLoseState. destruct (IsMouseButtonPressed fr); reflexivity.
  - intros t. destruct (FromPlayToLoseState_cursors t) as [E1 E2].
    repeat split; try reflexivity; assumption.
Qed.


(** ** The spawn test *)



Lemma spawn_threshold_not_nan (t : float) :
  IEEE.is_nan t = false -> IEEE.is_nan (spawn_threshold t) = false.
Proof.
  intros Ht. unfold spawn_threshold.
  destruct (IEEE.lt _ _); [rewrite maximumSpawnRate_value; reflexivity|].
  rewrite minimumSpawnRate_value, maximumElapsed_value.
  apply IEEE_facts.sub_not_nan; try binary32_format.
  apply IEEE_facts.div_not_nan;
    first [binary32_format | exact maximumElapsed_nonzero | exact Ht].
Qed.

(** The threshold never drops below [maximumSpawnRate]. *)
Lemma spawn_threshold_floor (t : float) :
  IEEE.is_nan t = false -> IEEE.le maximumSpawnRate (spawn_threshold t) = true.
Proof.
  intros Ht. pose proof (spawn_threshold_not_nan t Ht) as Hn.
  unfold spawn_threshold in *.
  destruct (IEEE.lt _ maximumSpawnRate) eqn:E.
  - apply IEEE_facts.le_refl. exact Hn.
  - apply IEEE_facts.not_lt_le; [exact Hn | | exact E].
    rewrite maximumSpawnRate_value. reflexivity.
Qed.

(** The threshold does not increase with the play time. *)
Lemma spawn_threshold_mono (t1 t2 : float) :
  IEEE.le t1 t2 = true ->
  IEEE.le (spawn_threshold t2) (spawn_threshold t1) = true.
Proof.
  intros Hle. destruct (IEEE_facts.le_not_nan t1 t2 Hle) as [Hn1 Hn2].
  pose proof (spawn_threshold_floor t1 Hn1) as Hf1.
  pose proof (spawn_threshold_not_nan t1 Hn1) as Hnn1.
  assert (Hu : IEEE.le
                 (IEEE.sub f32 minimumSpawnRate (IEEE.div f32 t2 maximumElapsed))
                 (IEEE.sub f32 minimumSpawnRate (IEEE.div f32 t1 maximumElapsed))
               = true).
  { rewrite minimumSpawnRate_value, maximumElapsed_value.
    apply IEEE_facts.sub_antimono; try binary32_format.
    apply IEEE_facts.div_mono;
      first [binary32_format | exact maximumElapsed_nonzero | exact Hle]. }
  unfold spawn_threshold in *.
  destruct (IEEE.lt (IEEE.sub f32 minimumSpawnRate (IEEE.div f32 t2 maximumElapsed))
              maximumSpawnRate) eqn:E2; [exact Hf1|].
  destruct (IEEE.lt (IEEE.sub f32 minimumSpawnRate (IEEE.div f32 t1 maximumElapsed))
              maximumSpawnRate) eqn:E1; [|exact Hu].
  rewrite (IEEE_facts.le_lt_trans _ _ _ Hu E1) in E2. discriminate.
Qed.


Lemma cursor_moves (c n : Z) : 0 <= c < n -> 1 < n -> (c + 1) mod n <> c.
Proof.
  intros Hc Hn. destruct (Z.eq_dec (c + 1) n) as [E|NE].
  - rewrite E, Z.mod_same by lia. lia.
  - rewrite Z.mod_small by lia. lia.
Qed.

(** The spawn test under the names of its constants.  In the Play-state
    update the spawn test reads the timers already
    advanced by the frame time, and compares [spawnElapsed] with the
    larger of [1 - totalElapsed / 30] and [maximumSpawnRate] (the [float]
    0.1).  A fruit is spawned exactly when [spawnElapsed] exceeds that
    threshold, and then [spawnElapsed] is set to 0 before [SpawnFruit]
    runs; otherwise the state is left as it is.  As a function of
    [totalElapsed] (not a NaN) the threshold is non-increasing and never
    below [maximumSpawnRate], whose value is at least one tenth. *)
Lemma spawn_test_facts fr s :
  pools_sized s ->
  cursors_in_range s ->
  let s4 := play_particles fr (play_trail fr (play_input fr (play_timers fr s))) in
  let u :=
    IEEE.sub f32 (IEEE.of_int f32 1)
      (IEEE.div f32 (totalElapsed s4) (IEEE.of_int f32 30)) in
  let thr := spawn_threshold (totalElapsed s4) in
  (totalElapsed s4 = IEEE.add f32 (totalElapsed s) (GetFrameTime fr) /\
   spawnElapsed s4 = IEEE.add f32 (spawnElapsed s) (GetFrameTime fr) /\
   UpdatePlayState fr s = play_fruits fr (play_spawn s4)) /\
  (thr = (if IEEE.lt u maximumSpawnRate then maximumSpawnRate else u) /\
   (IEEE.is_nan (totalElapsed s4) = false ->
    IEEE.le u thr = true /\ IEEE.le maximumSpawnRate thr = true)) /\
  (IEEE.lt thr (spawnElapsed s4) = true ->
     play_spawn s4 = SpawnFruit (set_spawnElapsed (IEEE.FFin false 0) s4) /\
     spawnElapsed (play_spawn s4) = IEEE.FFin false 0 /\
     nextFruitIndex (play_spawn s4) = (nextFruitIndex s + 1) mod 48 /\
     nextFruitIndex (play_spawn s4) <> nextFruitIndex s) /\
  (IEEE.lt thr (spawnElapsed s4) = false -> play_spawn s4 = s4) /\
  (forall t1 t2 : float,
     IEEE.le t1 t2 = true ->
     IEEE.le (spawn_threshold t2) (spawn_threshold t1) = true) /\
  (forall t : float,
     IEEE.is_nan t = false ->
     IEEE.le maximumSpawnRate (spawn_threshold t) = true) /\
  (exists n : N,
     maximumSpawnRate = IEEE.FFin false n /\ 2 ^ 149 <= 10 * Z.of_N n).
Proof.
  intros Hs Hc s4 u thr.
  pose proof (play_prefix_eq fr s Hs) as Hpre. fold s4 in Hpre.
  assert (Ht : totalElapsed s4 = IEEE.add f32 (totalElapsed s) (GetFrameTime fr))
    by (rewrite Hpre; reflexivity).
  assert (Hsp : spawnElapsed s4 = IEEE.add f32 (spawnElapsed s) (GetFrameTime fr))
    by (rewrite Hpre; reflexivity).
  assert (Hcur : nextFruitIndex s4 = nextFruitIndex s)
    by (rewrite Hpre; reflexivity).
  assert (Hupd : UpdatePlayState fr s = play_fruits fr (play_spawn s4))
    by reflexivity.
  clearbody s4.
  split; [split; [exact Ht | split; [exact Hsp | exact Hupd]]|].
  assert (Hthr : thr = if IEEE.lt u maximumSpawnRate then maximumSpawnRate else u).
  { subst thr u. unfold spawn_threshold.
    rewrite minimumSpawnRate_def, maximumElapsed_def. reflexivity. }
  split; [split; [exact Hthr|]|].
  { intros Hn. split.
    - pose proof (spawn_threshold_not_nan _ Hn) as Hnn. fold thr in Hnn.
      rewrite Hthr in *.
      destruct (IEEE.lt _ maximumSpawnRate) eqn:E.
      + apply IEEE_facts.lt_le. exact E.
      + apply IEEE_facts.le_refl. exact Hnn.
    - apply spawn_threshold_floor. exact Hn. }
  split; [|split; [|split; [|split]]].
  - intros Hdue. unfold play_spawn, spawn_due. fold thr. rewrite Hdue.
    split; [reflexivity|].
    rewrite SpawnFruit_eq. cbv zeta. simpl. rewrite Hcur.
    destruct Hc as [Hc1 _].
    destruct (cursor_step (nextFruitIndex s) MAX_FRUIT_COUNT Hc1) as [E B];
      [unfold MAX_FRUIT_COUNT, INT_MAX; lia|].
    rewrite E. split; [reflexivity|]. split; [reflexivity|].
    apply cursor_moves; unfold MAX_FRUIT_COUNT in *; lia.
  - intros Hdue. unfold play_spawn, spawn_due. fold thr. rewrite Hdue. reflexivity.
  - exact spawn_threshold_mono.
  - exact spawn_threshold_floor.
  - exists (13421773 * 2 ^ 122)%N.
    split; [exact maximumSpawnRate_value | exact tenth_below_maximumSpawnRate].
Qed.


(** ** The spawner *)

Lemma spawn_type_cases (v : Z) (old : FruitType) :
  v <= 100 ->
  spawn_type v old =
  if v <=? 50 then appleType
  else if v <=? 75 then bananaType
  else if v <=? 85 then cherryType
  else donutType.
Proof.
  intros Hv. unfold spawn_type, appleSpawnCeiling, bananaSpawnCeiling,
    cherrySpawnCeiling, donutSpawnCeiling.
  destruct (v <=? 50), (v <=? 75), (v <=? 85); try reflexivity.
  destruct (Z.leb_spec v 100); [reflexivity | lia].
Qed.

Lemma cursor_slot s :
  pools_sized s -> cursors_in_range s ->
  exists f, get_fruit (nextFruitIndex s) s = Some f.
Proof.
  intros [Hf _] [Hc _]. apply array_get_in. rewrite Hf.
  unfold MAX_FRUIT_COUNT in *. lia.
Qed.

(** C5.  The draw [d] that [SpawnFruit] takes from [GetRandomValue(1,
    100)] lies in [1, 100], and the slot at the write cursor gets the type
    Apple when [d <= 50], Banana when [50 < d <= 75], Cherry when
    [75 < d <= 85] and Donut when [85 < d <= 100].  Of the 100 values of
    the draw, 50 give an Apple, 25 a Banana, 10 a Cherry and 15 a Donut. *)
Theorem spawn_type_spec s :
  RaylibSpec raylib ->
  pools_sized s ->
  cursors_in_range s ->
  let d := fst (GetRandomValue 1 100 (rng s)) in
  1 <= d <= 100 /\
  Fruit.type <$> get_fruit (nextFruitIndex s) (SpawnFruit s) =
    Some (if d <=? 50 then appleType
          else if d <=? 75 then bananaType
          else if d <=? 85 then cherryType
          else donutType) /\
  (forall (v : Z) (old : FruitType),
     1 <= v <= 100 ->
     spawn_type v old =
       if v <=? 50 then appleType
       else if v <=? 75 then bananaType
       else if v <=? 85 then cherryType
       else donutType) /\
  (forall old : FruitType,
     length (filter (fun v => spawn_type v old = appleType) (seqZ 1 100)) = 50%nat /\
     length (filter (fun v => spawn_type v old = bananaType) (seqZ 1 100)) = 25%nat /\
     length (filter (fun v => spawn_type v old = cherryType) (seqZ 1 100)) = 10%nat /\
     length (filter (fun v => spawn_type v old = donutType) (seqZ 1 100)) = 15%nat).
Proof.
  intros Hrl Hs Hc d.
  assert (Hd : 1 <= d <= 100) by (apply Hrl; lia).
  split; [exact Hd|]. split; [|split].
  - destruct (cursor_slot s Hs Hc) as [f Hf].
    rewrite SpawnFruit_eq. cbv zeta. unfold get_fruit in *. simpl.
    rewrite array_get_update_eq, Hf. simpl. fold d.
    rewrite spawn_type_cases by lia. reflexivity.
  - intros v old Hv. apply spawn_type_cases. lia.
  - intros old. destruct old; vm_compute; auto.
Qed.

(** C6.  [SpawnFruit] leaves in the slot at the write cursor an enabled
    fruit whose horizontal position is raylib's draw on [240, 720] (the
    middle half of the 960 wide screen), whose vertical position is 540
    (the bottom edge), whose horizontal velocity is raylib's draw on
    [-5, 5] and whose vertical velocity is minus raylib's draw on [5, 20],
    hence in [-20, -5]; each of these integers is converted to [float]
    without rounding.  The cursor then advances by one modulo 48, and no
    other slot changes. *)
Theorem SpawnFruit_spec s :
  RaylibSpec raylib ->
  pools_sized s ->
  cursors_in_range s ->
  let c := nextFruitIndex s in
  let r1 := GetRandomValue 1 100 (rng s) in
  let r2 := GetRandomValue 240 720 (snd r1) in
  let r3 := GetRandomValue (-5) 5 (snd r2) in
  let r4 := GetRandomValue 5 20 (snd r3) in
  let s' := SpawnFruit s in
  (exists f' : Fruit.t,
     get_fruit c s' = Some f' /\
     Fruit.enabled f' = true /\
     Fruit.position f' =
       Vector2.mk (IEEE.of_int f32 (fst r2)) (IEEE.of_int f32 540) /\
     Fruit.velocity f' =
       Vector2.mk (IEEE.of_int f32 (fst r3)) (IEEE.of_int f32 (- fst r4))) /\
  (240 <= fst r2 <= 720 /\ 240 = screenWidth / 4 /\ 720 = 3 * screenWidth / 4 /\
   IEEE.of_int f32 (fst r2) = IEEE.FFin false (Z.to_N (fst r2 * 2 ^ 149))) /\
  (540 = screenHeight /\
   IEEE.of_int f32 540 = IEEE.FFin false (Z.to_N (540 * 2 ^ 149))) /\
  (-5 <= fst r3 <= 5 /\
   IEEE.of_int f32 (fst r3) =
     IEEE.FFin (fst r3 <? 0) (Z.to_N (Z.abs (fst r3) * 2 ^ 149))) /\
  (-20 <= - fst r4 <= -5 /\
   IEEE.of_int f32 (- fst r4) = IEEE.FFin true (Z.to_N (fst r4 * 2 ^ 149))) /\
  nextFruitIndex s' = (c + 1) mod 48 /\
  rng s' = snd r4 /\
  (forall j, j <> c -> get_fruit j s' = get_fruit j s).
Proof.
  intros Hrl Hs Hc c r1 r2 r3 r4 s'.
  assert (H2 : 240 <= fst r2 <= 720) by (apply Hrl; lia).
  assert (H3 : -5 <= fst r3 <= 5) by (apply Hrl; lia).
  assert (H4 : 5 <= fst r4 <= 20) by (apply Hrl; lia).
  assert (Hpow : 2 ^ 24 = 16777216) by reflexivity.
  assert (Hs' : s' =
    mkGame (state s)
      (array_update c
         (fun f =>
            Fruit.mk (spawn_type (fst r1) (Fruit.type f))
              (Vector2.mk (IEEE.of_int f32 (fst r2)) (IEEE.of_int f32 540))
              (Vector2.mk (IEEE.of_int f32 (fst r3)) (IEEE.of_int f32 (- fst r4)))
              true)
         (fruits s))
      (particles s) (Z.rem (int_add c 1) MAX_FRUIT_COUNT)
      (nextParticleIndex s) (score s) (fruitsSlashed s)
      (spawnElapsed s) (totalElapsed s) (slashing s) (snd r4)).
  { subst s'. rewrite SpawnFruit_eq. cbv zeta.
    destruct strafe_bounds as [-> ->], thrust_bounds as [-> ->].
    rewrite spawnLeft_value, spawnRight_value. reflexivity. }
  clearbody s'. subst s'.
  destruct (cursor_slot s Hs Hc) as [f Hf]. fold c in Hf.
  destruct Hc as [Hc1 _].
  destruct (cursor_step c MAX_FRUIT_COUNT Hc1) as [E B];
    [unfold MAX_FRUIT_COUNT, INT_MAX; lia|].
  unfold get_fruit in *. simpl.
  split; [|split; [|split; [|split; [|split; [|split; [|split]]]]]].
  - eexists. rewrite array_get_update_eq, Hf. simpl. repeat split; reflexivity.
  - repeat split; try lia; try reflexivity.
    rewrite IEEE_facts.of_int_exact by lia.
    replace (fst r2 <? 0) with false by (symmetry; apply Z.ltb_ge; lia).
    do 2 f_equal. lia.
  - split; [reflexivity|]. apply (IEEE_facts.of_int_exact 540). reflexivity.
  - split; [exact H3|]. apply IEEE_facts.of_int_exact. lia.
  - split; [lia|]. rewrite IEEE_facts.of_int_exact by lia.
    replace (- fst r4 <? 0) with true by (symmetry; apply Z.ltb_lt; lia).
    do 2 f_equal. lia.
  - exact E.
  - reflexivity.
  - intros j Hj. apply array_get_update_ne. lia.
Qed.


(** ** The particle trail *)

Lemma play_spawn_frame s :
  particles (play_spawn s) = particles s /\
  nextParticleIndex (play_spawn s) = nextParticleIndex s /\
  length (fruits (play_spawn s)) = length (fruits s).
Proof.
  unfold play_spawn. destruct (spawn_due s); [|auto].
  rewrite SpawnFruit_eq. cbv zeta.
  cbn [particles nextParticleIndex fruits set_spawnElapsed].
  repeat split. apply length_array_update.
Qed.

Lemma age_particle_eq fr (p : Particle.t) :
  age_particle fr p =
  if Particle.enabled p then
    Particle.mk (Particle.position p)
      (IEEE.add f32 (Particle.elapsed p) (GetFrameTime fr))
      (negb (IEEE.lt particleMaximumElapsed
               (IEEE.add f32 (Particle.elapsed p) (GetFrameTime fr))))
  else p.
Proof.
  unfold age_particle, Particle.set_elapsed, Particle.set_enabled.
  destruct p as [pos el en].
  cbn [Particle.enabled Particle.elapsed Particle.position].
  destruct en; [|reflexivity]. destruct (IEEE.lt _ _); reflexivity.
Qed.

(** The trail under the name of its constant.  In the Play-state update,
    with [slashing] as the press / release
    test leaves it: when it is set, one particle is written at the
    particle cursor, at the pointer position, with [elapsed = 0] and
    [enabled = true], no other slot is written, and the cursor advances by
    one modulo 16; when it is not set, the pool and the cursor are left as
    they are.  Then every enabled particle has the frame time added to
    its [elapsed] and is disabled when the sum exceeds
    [particleMaximumElapsed] (the [float] 0.1); disabled particles do not
    change.  That is the pool at the end of the update, unless the game is
    lost in it. *)
Lemma trail_facts fr s :
  pools_sized s ->
  cursors_in_range s ->
  let c := nextParticleIndex s in
  let s1 := play_input fr (play_timers fr s) in
  let s2 := play_trail fr s1 in
  let s3 := play_particles fr s2 in
  let s' := UpdatePlayState fr s in
  slashing s1 =
    (if IsMouseButtonPressed fr then true
     else if IsMouseButtonReleased fr then false
     else slashing s) /\
  (slashing s1 = true ->
     get_particle c s2 =
       Some (Particle.mk (GetMousePosition fr) (IEEE.FFin false 0) true) /\
     (forall j, j <> c -> get_particle j s2 = get_particle j s) /\
     nextParticleIndex s2 = (c + 1) mod 16) /\
  (slashing s1 = false ->
     particles s2 = particles s /\ nextParticleIndex s2 = c) /\
  (forall j (p : Particle.t),
     get_particle j s2 = Some p ->
     get_particle j s3 =
       Some (if Particle.enabled p then
               Particle.mk (Particle.position p)
                 (IEEE.add f32 (Particle.elapsed p) (GetFrameTime fr))
                 (negb (IEEE.lt particleMaximumElapsed
                          (IEEE.add f32 (Particle.elapsed p) (GetFrameTime fr))))
             else p)) /\
  (exists n : N,
     particleMaximumElapsed = IEEE.FFin false n /\ 2 ^ 149 <= 10 * Z.of_N n) /\
  (state s' = loseState \/ particles s' = particles s3) /\
  nextParticleIndex s' = nextParticleIndex s2.
Proof.
  intros Hs Hc c s1 s2 s3 s'.
  assert (Hs1 : pools_sized s1).
  { subst s1. unfold play_input, play_timers.
    destruct (IsMouseButtonPressed fr), (IsMouseButtonReleased fr); exact Hs. }
  assert (Hsl : slashing s1 =
                if IsMouseButtonPressed fr then true
                else if IsMouseButtonReleased fr then false else slashing s).
  { subst s1. unfold play_input, play_timers.
    destruct (IsMouseButtonPressed fr), (IsMouseButtonReleased fr); reflexivity. }
  assert (Hp1 : particles s1 = particles s /\ nextParticleIndex s1 = c).
  { subst s1. unfold play_input, play_timers.
    destruct (IsMouseButtonPressed fr), (IsMouseButtonReleased fr);
      split; reflexivity. }
  destruct Hp1 as [Hp1 Hc1].
  assert (Hs2 : pools_sized s2).
  { subst s2. rewrite play_trail_eq. destruct (slashing s1); [|exact Hs1].
    destruct Hs1 as [Hf Hp]. split; simpl; [exact Hf|].
    rewrite length_array_update. exact Hp. }
  assert (Hs3 : s3 = set_particles (age_particle fr <$> particles s2) s2)
    by (apply play_particles_eq; exact Hs2).
  destruct Hc as [_ Hc2]. fold c in Hc2.
  destruct (cursor_step c MAX_PARTICLE_COUNT Hc2) as [E B];
    [unfold MAX_PARTICLE_COUNT, INT_MAX; lia|].
  assert (Hupd : s' = play_fruits fr (play_spawn s3)) by reflexivity.
  assert (Hs3' : pools_sized s3).
  { rewrite Hs3. destruct Hs2 as [Hf Hp]. split; simpl; [exact Hf|].
    rewrite length_fmap. exact Hp. }
  assert (H2 : s2 = play_trail fr s1) by reflexivity.
  assert (Hsp : particles (play_spawn s3) = particles s3 /\
                nextParticleIndex (play_spawn s3) = nextParticleIndex s3 /\
                pools_sized (play_spawn s3)).
  { destruct (play_spawn_frame s3) as (F1 & F2 & F3).
    split; [exact F1|]. split; [exact F2|].
    destruct Hs3' as [Hf Hp]. split; [rewrite F3; exact Hf | rewrite F1; exact Hp]. }
  destruct Hsp as (Ep & Ec & Hsz).
  clearbody s' s3 s2 s1.
  split; [exact Hsl|].
  split; [|split; [|split; [|split; [|split]]]].
  - intros Hon. rewrite H2, play_trail_eq, Hon. unfold get_particle. simpl.
    rewrite Hp1, Hc1. split; [|split].
    + rewrite array_get_update_eq.
      destruct (array_get_in c (particles s)) as [p ->]; [|reflexivity].
      destruct Hs as [_ Hp]. rewrite Hp. unfold MAX_PARTICLE_COUNT in *. lia.
    + intros j Hj. apply array_get_update_ne. lia.
    + exact E.
  - intros Hoff. rewrite H2, play_trail_eq, Hoff. split; assumption.
  - intros j p Hj. rewrite Hs3. unfold get_particle in *. simpl.
    rewrite array_get_fmap, Hj. simpl. rewrite age_particle_eq. reflexivity.
  - exists (13421773 * 2 ^ 122)%N.
    split; [exact particleMaximumElapsed_value | exact tenth_below_maximumSpawnRate].
  - rewrite Hupd.
    destruct (play_fruits_step fr (play_spawn s3) Hsz)
      as (_ & _ & _ & _ & [Hl | (_ & Hpa & _)]).
    + left. exact Hl.
    + right. rewrite Hpa. exact Ep.
  - rewrite Hupd.
    destruct (play_fruits_step fr (play_spawn s3) Hsz) as (_ & _ & Hpi & _).
    rewrite Hpi, Ec, Hs3. reflexivity.
Qed.


(** * Further properties of the update *)

(** ** The state machine *)

Lemma FromPlayToLoseState_state s : state (FromPlayToLoseState s) = loseState.
Proof. unfold FromPlayToLoseState. simpl. reflexivity. Qed.

Lemma SlashFruit_state s i :
  state (SlashFruit i s) = state s \/ state (SlashFruit i s) = loseState.
Proof.
  unfold SlashFruit.
  destruct (Fruit.type <$> get_fruit i _) as [[| | |]|]; try (left; reflexivity).
  right. apply FromPlayToLoseState_state.
Qed.

Lemma play_fruit_state fr s i :
  state (play_fruit fr i s) = state s \/ state (play_fruit fr i s) = loseState.
Proof.
  unfold play_fruit.
  destruct (get_fruit i s) as [f|]; [|left; reflexivity].
  destruct (Fruit.enabled f); [|left; reflexivity].
  destruct (below_screen f); [left; reflexivity|].
  destruct (slash_hits fr s f); [apply SlashFruit_state | left; reflexivity].
Qed.

Lemma play_fruits_state fr s :
  state (play_fruits fr s) = state s \/ state (play_fruits fr s) = loseState.
Proof.
  unfold play_fruits.
  apply (for_loop_inv (fun _ t => state t = state s \/ state t = loseState)).
  - unfold MAX_FRUIT_COUNT. lia.
  - left. reflexivity.
  - intros i t _ [Ht | Ht]; destruct (play_fruit_state fr t i) as [E | E];
      rewrite ?E; auto; rewrite E; auto.
Qed.

Lemma play_spawn_state s : state (play_spawn s) = state s.
Proof.
  unfold play_spawn. destruct (spawn_due s); [|reflexivity].
  rewrite SpawnFruit_eq. reflexivity.
Qed.

Lemma play_until_spawn_state fr s :
  state (play_particles fr (play_trail fr (play_input fr (play_timers fr s)))) = state s.
Proof.
  unfold play_particles.
  rewrite (for_loop_preserves state) by reflexivity.
  rewrite play_trail_eq.
  destruct (slashing _); unfold play_input, play_timers;
    destruct (IsMouseButtonPressed fr), (IsMouseButtonReleased fr); reflexivity.
Qed.

(** X1.  One update moves the game along start -> play -> lose -> start
    and nowhere else.  In the Start state a press enters Play and changes
    no variable but [state], and without a press nothing changes; a Play
    frame ends in Play or in Lose; the Lose state is left, for Start, on a
    press and only then. *)
Theorem state_machine fr s :
  match state s with
  | startState =>
      Update fr s = (if IsMouseButtonPressed fr then set_state playState s else s)
  | playState =>
      state (Update fr s) = playState \/ state (Update fr s) = loseState
  | loseState =>
      state (Update fr s) =
        (if IsMouseButtonPressed fr then startState else loseState)
  end.
Proof.
  unfold Update. destruct (state s) eqn:Hs.
  - reflexivity.
  - rewrite UpdatePlayState_eq.
    destruct (play_fruits_state fr
                (play_spawn
                   (play_particles fr
                      (play_trail fr (play_input fr (play_timers fr s))))))
      as [E | E]; [left | right; exact E].
    rewrite E, play_spawn_state, play_until_spawn_state. exact Hs.
  - unfold UpdateLoseState. destruct (IsMouseButtonPressed fr); [reflexivity | exact Hs].
Qed.


(** ** The board outside the Play state *)

Lemma before_fruits_state fr s : state (before_fruits fr s) = state s.
Proof.
  unfold before_fruits. rewrite play_spawn_state. apply play_until_spawn_state.
Qed.

Lemma before_fruits_inv fr s :
  pools_sized s -> cursors_in_range s ->
  pools_sized (before_fruits fr s) /\ cursors_in_range (before_fruits fr s).
Proof.
  intros Hs Hc. unfold before_fruits.
  pose proof (play_prefix_eq fr s Hs) as Hpre.
  set (s4 := play_particles fr _) in *.
  destruct Hs as [Hf Hp], Hc as [Hc1 Hc2].
  destruct (cursor_step (nextParticleIndex s) MAX_PARTICLE_COUNT Hc2) as [E B];
    [unfold MAX_PARTICLE_COUNT, INT_MAX; lia|].
  assert (Hs4 : pools_sized s4).
  { rewrite Hpre. split; simpl; [exact Hf|].
    rewrite length_fmap. destruct (slashing_in fr s);
      rewrite ?length_array_update; exact Hp. }
  assert (Hc4 : cursors_in_range s4).
  { rewrite Hpre. split; simpl; [exact Hc1|].
    destruct (slashing_in fr s); [rewrite E; exact B | exact Hc2]. }
  destruct (play_spawn_inv s4 Hs4 Hc4) as (Hs5 & Hc5 & _).
  split; assumption.
Qed.

Lemma FromPlayToLoseState_clear s :
  pools_sized s -> board_clear (FromPlayToLoseState s).
Proof.
  intros Hs. rewrite (FromPlayToLoseState_eq s Hs).
  unfold board_clear. simpl. repeat split.
  - apply Forall_fmap, Forall_forall. intros f _. reflexivity.
  - apply Forall_fmap, Forall_forall. intros p _. reflexivity.
Qed.

Lemma board_clear_play_fruit fr s i : board_clear s -> play_fruit fr i s = s.
Proof.
  intros [Hf _]. unfold play_fruit, get_fruit.
  destruct (array_get i (fruits s)) as [f|] eqn:E; [|reflexivity].
  apply array_get_Some in E as [_ E].
  rewrite (Forall_lookup_1 _ _ _ _ Hf E). reflexivity.
Qed.

Lemma play_fruit_lost fr s i :
  pools_sized s -> state s <> loseState ->
  state (play_fruit fr i s) = loseState -> board_clear (play_fruit fr i s).
Proof.
  intros Hs Hn. unfold play_fruit.
  destruct (get_fruit i s) as [f|] eqn:Ef; [|intros H; contradiction].
  destruct (Fruit.enabled f); [|intros H; contradiction].
  destruct (below_screen f); [intros H; contradiction|].
  destruct (slash_hits fr s f); [|intros H; contradiction].
  rewrite (SlashFruit_unfold s i f Ef). cbv zeta.
  destruct (Fruit.type f); try (intros H; contradiction).
  intros _. apply FromPlayToLoseState_clear. by apply upd_fruit_sized.
Qed.

Lemma play_fruits_lost fr s :
  pools_sized s -> state s <> loseState ->
  state (play_fruits fr s) = loseState -> board_clear (play_fruits fr s).
Proof.
  intros Hs Hn. unfold play_fruits.
  assert (H : pools_sized (for_loop MAX_FRUIT_COUNT (play_fruit fr) s) /\
              (state (for_loop MAX_FRUIT_COUNT (play_fruit fr) s) = loseState ->
               board_clear (for_loop MAX_FRUIT_COUNT (play_fruit fr) s))).
  { apply (for_loop_inv
             (fun _ t => pools_sized t /\ (state t = loseState -> board_clear t))).
    - unfold MAX_FRUIT_COUNT. lia.
    - split; [exact Hs | intros H; contradiction].
    - intros i t _ [Ht Hl]. split; [apply (play_fruit_step fr t i Ht)|].
      destruct (state t) eqn:E.
      + apply play_fruit_lost; [exact Ht | congruence].
      + apply play_fruit_lost; [exact Ht | congruence].
      + intros _. rewrite (board_clear_play_fruit fr t i (Hl eq_refl)).
        exact (Hl eq_refl). }
  apply H.
Qed.

Lemma filter_none {A : Type} (P : A -> Prop) `{forall x, Decision (P x)}
    (l : list A) :
  Forall (fun x => ~ P x) l -> filter P l = [].
Proof.
  induction 1 as [|x l Hx _ IH]; [reflexivity|].
  rewrite filter_cons_False by exact Hx. exact IH.
Qed.

Lemma board_clear_enabled s :
  board_clear s -> enabled_fruits s = 0%nat /\ enabled_particles s = 0%nat.
Proof.
  intros (Hf & Hp & _). unfold enabled_fruits, enabled_particles.
  rewrite !filter_none; [split; reflexivity | |].
  - eapply Forall_impl; [exact Hp|]. simpl. intros p ->. discriminate.
  - eapply Forall_impl; [exact Hf|]. simpl. intros f ->. discriminate.
Qed.

Lemma run_snoc (frames : list Frame) fr s :
  run (frames ++ [fr]) s = Update fr (run frames s).
Proof. unfold run. rewrite fold_left_app. reflexivity. Qed.

Lemma Initialize_clear s :
  pools_sized s ->
  state (Initialize s) = startState /\ board_clear (Initialize s) /\
  score (Initialize s) = score s /\ fruitsSlashed (Initialize s) = 0.
Proof.
  intros Hs. rewrite (Initialize_eq s Hs).
  unfold board_clear. cbn [state fruits particles score fruitsSlashed
                            spawnElapsed totalElapsed slashing].
  repeat split.
  - apply Forall_fmap, Forall_forall. intros f _. reflexivity.
  - apply Forall_fmap, Forall_forall. intros p _. reflexivity.
Qed.

Lemma main_idle (g : Rng) (frames : list Frame) :
  state (main g frames) <> playState ->
  board_clear (main g frames) /\
  (state (main g frames) = startState ->
   score (main g frames) = 0 /\ fruitsSlashed (main g frames) = 0).
Proof.
  intros Hst.
  assert (H : match state (main g frames) with
              | startState =>
                  board_clear (main g frames) /\
                  score (main g frames) = 0 /\ fruitsSlashed (main g frames) = 0
              | playState => True
              | loseState => board_clear (main g frames)
              end).
  { clear Hst.
    induction frames as [|fr frames IH] using rev_ind.
    - unfold main, run. simpl fold_left.
      destruct (Initialize_clear (static_init g) (static_init_sized g))
        as (E & Hb & Hsc & Hfs).
      rewrite E. exact (conj Hb (conj Hsc Hfs)).
    - destruct (main_inv g frames) as [Hs Hc].
      unfold main in *. rewrite run_snoc.
      set (t := run frames (Initialize (static_init g))) in *.
      clearbody t. unfold Update.
      destruct (state t) eqn:Et.
      + unfold UpdateStartState.
        destruct (IsMouseButtonPressed fr); [exact I|].
        rewrite Et. exact IH.
      + rewrite UpdatePlayState_eq. fold (before_fruits fr t).
        destruct (before_fruits_inv fr t Hs Hc) as [Hs5 _].
        pose proof (before_fruits_state fr t) as E5. rewrite Et in E5.
        destruct (play_fruits_state fr (before_fruits fr t)) as [E | E].
        * rewrite E, E5. exact I.
        * rewrite E. apply play_fruits_lost; [exact Hs5 | congruence | exact E].
      + unfold UpdateLoseState.
        destruct (IsMouseButtonPressed fr); [|rewrite Et; exact IH].
        unfold FromLoseToStartState. simpl.
        split; [exact IH | split; reflexivity]. }
  destruct (state (main g frames)); [|contradiction|].
  - split; [apply H|]. intros _. split; apply H.
  - split; [exact H | discriminate].
Qed.

(** X2.  Outside the Play state the board is clear.  After any sequence
    of frames from the initialised state: in the Start and in the Lose
    state every fruit slot and every particle slot is disabled, both
    timers are 0 and [slashing] is false; in the Start state moreover
    [score] and [fruitsSlashed] are 0. *)
Theorem idle_board_clear (g : Rng) (frames : list Frame) :
  match state (main g frames) with
  | startState =>
      board_clear (main g frames) /\
      score (main g frames) = 0 /\ fruitsSlashed (main g frames) = 0
  | playState => True
  | loseState => board_clear (main g frames)
  end.
Proof.
  pose proof (main_idle g frames) as H.
  destruct (state (main g frames)); [|exact I|].
  - destruct H as [Hb Hc]; [discriminate|].
    split; [exact Hb | exact (Hc eq_refl)].
  - destruct H as [Hb _]; [discriminate | exact Hb].
Qed.


(** ** Slots the update leaves alone *)

Lemma play_until_spawn_fruits fr s :
  fruits (play_particles fr (play_trail fr (play_input fr (play_timers fr s)))) =
  fruits s /\
  nextFruitIndex (play_particles fr (play_trail fr (play_input fr (play_timers fr s)))) =
  nextFruitIndex s.
Proof.
  unfold play_particles.
  rewrite (for_loop_preserves fruits), (for_loop_preserves nextFruitIndex)
    by reflexivity.
  rewrite play_trail_eq.
  destruct (slashing _); unfold play_input, play_timers;
    destruct (IsMouseButtonPressed fr), (IsMouseButtonReleased fr);
    split; reflexivity.
Qed.

Lemma play_until_spawn_timers fr s :
  spawn_due (play_particles fr (play_trail fr (play_input fr (play_timers fr s)))) =
  spawn_due_in fr s /\
  slashing (play_particles fr (play_trail fr (play_input fr (play_timers fr s)))) =
  slashing_in fr s.
Proof.
  unfold spawn_due, spawn_due_in, slashing_in, play_particles.
  rewrite (for_loop_preserves totalElapsed), (for_loop_preserves spawnElapsed),
    (for_loop_preserves slashing) by reflexivity.
  rewrite play_trail_eq.
  destruct (slashing _) eqn:E; revert E; unfold play_input, play_timers;
    destruct (IsMouseButtonPressed fr), (IsMouseButtonReleased fr);
    cbn [slashing totalElapsed spawnElapsed set_slashing set_spawnElapsed
         set_totalElapsed]; intros E; rewrite ?E; split; reflexivity.
Qed.

Lemma before_fruits_slashing fr s :
  slashing (before_fruits fr s) = slashing_in fr s.
Proof.
  unfold before_fruits, play_spawn.
  destruct (spawn_due _); [|apply play_until_spawn_timers].
  rewrite SpawnFruit_eq. cbn [slashing set_spawnElapsed].
  apply play_until_spawn_timers.
Qed.

Lemma fruits_after_reset (a b : float) (v : bool) s :
  fruits (set_slashing v (set_totalElapsed a (set_spawnElapsed b s))) = fruits s.
Proof. reflexivity. Qed.

Lemma FromPlayToLoseState_disabled s i (f : Fruit.t) :
  get_fruit i s = Some f -> Fruit.enabled f = false ->
  get_fruit i (FromPlayToLoseState s) = Some f.
Proof.
  intros Hf He. unfold FromPlayToLoseState, get_fruit. cbv zeta.
  rewrite fruits_after_reset.
  rewrite (for_loop_preserves fruits) by reflexivity.
  apply (for_loop_inv (fun _ t => array_get i (fruits t) = Some f)).
  - unfold MAX_FRUIT_COUNT. lia.
  - exact Hf.
  - intros k t _ Ht. unfold upd_fruit. cbn [fruits set_fruits].
    rewrite array_get_update, Ht. case_decide; [|reflexivity].
    destruct f as [ty p v e]. simpl in He. subst e. reflexivity.
Qed.

Lemma SlashFruit_other s i k (f : Fruit.t) :
  k <> i -> get_fruit i s = Some f -> Fruit.enabled f = false ->
  get_fruit i (SlashFruit k s) = Some f.
Proof.
  intros Hk Hf He. unfold SlashFruit.
  assert (H1 : get_fruit i (upd_fruit k (Fruit.set_enabled false) s) = Some f).
  { rewrite get_fruit_upd. case_decide; [contradiction | exact Hf]. }
  destruct (Fruit.type <$> get_fruit k _) as [[| | |]|]; try exact H1.
  apply FromPlayToLoseState_disabled; assumption.
Qed.

Lemma play_fruit_disabled fr s i k (f : Fruit.t) :
  get_fruit i s = Some f -> Fruit.enabled f = false ->
  get_fruit i (play_fruit fr k s) = Some f.
Proof.
  intros Hf He. unfold play_fruit.
  destruct (decide (k = i)) as [-> | Hk].
  - rewrite Hf, He. exact Hf.
  - destruct (get_fruit k s) as [f'|]; [|exact Hf].
    destruct (Fruit.enabled f'); [|exact Hf].
    destruct (below_screen f'); [|destruct (slash_hits fr s f')].
    + rewrite get_fruit_upd. case_decide; [contradiction | exact Hf].
    + apply SlashFruit_other; assumption.
    + rewrite get_fruit_upd. case_decide; [contradiction | exact Hf].
Qed.

Lemma play_fruits_disabled fr s i (f : Fruit.t) :
  get_fruit i s = Some f -> Fruit.enabled f = false ->
  get_fruit i (play_fruits fr s) = Some f.
Proof.
  intros Hf He. unfold play_fruits.
  apply (for_loop_inv (fun _ t => get_fruit i t = Some f)).
  - unfold MAX_FRUIT_COUNT. lia.
  - exact Hf.
  - intros k t _ Ht. apply play_fruit_disabled; assumption.
Qed.

Lemma play_spawn_other s i :
  (spawn_due s = true -> i <> nextFruitIndex s) ->
  get_fruit i (play_spawn s) = get_fruit i s.
Proof.
  intros Hc. unfold play_spawn. destruct (spawn_due s); [|reflexivity].
  rewrite SpawnFruit_eq. unfold get_fruit. cbn [fruits nextFruitIndex set_spawnElapsed].
  apply array_get_update_ne. intros E. apply Hc; auto.
Qed.

(** X3.  A disabled fruit slot is changed by an update only when a fruit
    is spawned into it: unless the game is in the Play state, the spawn
    test of the frame succeeds and the slot is the one at the cursor
    [nextFruitIndex], the slot holds after the update exactly what it
    held before (type, position, velocity and the cleared flag). *)
Theorem disabled_slot_kept fr s i (f : Fruit.t) :
  get_fruit i s = Some f -> Fruit.enabled f = false ->
  (state s = playState -> spawn_due_in fr s = true -> i <> nextFruitIndex s) ->
  get_fruit i (Update fr s) = Some f.
Proof.
  intros Hf He Hc. unfold Update. destruct (state s).
  - unfold UpdateStartState. destruct (IsMouseButtonPressed fr); exact Hf.
  - rewrite UpdatePlayState_eq. apply play_fruits_disabled; [|exact He].
    destruct (play_until_spawn_fruits fr s) as [E1 E2].
    destruct (play_until_spawn_timers fr s) as [E3 _].
    rewrite play_spawn_other.
    + unfold get_fruit. rewrite E1. exact Hf.
    + rewrite E2, E3. intros H. apply Hc; [reflexivity | exact H].
  - unfold UpdateLoseState. destruct (IsMouseButtonPressed fr); exact Hf.
Qed.


(** ** How a game is lost *)

Lemma slash_hits_slashing fr s t (f : Fruit.t) :
  slashing s = slashing t -> slash_hits fr s f = slash_hits fr t f.
Proof. intros E. unfold slash_hits. rewrite E. reflexivity. Qed.

Lemma play_fruit_hunt fr t k s :
  state s <> loseState -> slashing s = slashing t ->
  (forall j, k <= j -> get_fruit j s = get_fruit j t) ->
  (state (play_fruit fr k s) <> loseState /\
   slashing (play_fruit fr k s) = slashing t /\
   forall j, k + 1 <= j -> get_fruit j (play_fruit fr k s) = get_fruit j t) \/
  (exists f : Fruit.t,
     get_fruit k t = Some f /\ Fruit.type f = donutType /\
     Fruit.enabled f = true /\ below_screen f = false /\
     slash_hits fr t f = true).
Proof.
  intros Hn Hsl Hget.
  assert (Hupd : forall g : Fruit.t -> Fruit.t,
             forall j, k + 1 <= j -> get_fruit j (upd_fruit k g s) = get_fruit j t).
  { intros g j Hj. rewrite get_fruit_upd.
    case_decide; [lia | apply Hget; lia]. }
  unfold play_fruit.
  destruct (get_fruit k s) as [f|] eqn:Ef.
  2: { left. split; [exact Hn|]. split; [exact Hsl|].
       intros j Hj. apply Hget. lia. }
  destruct (Fruit.enabled f) eqn:Een.
  2: { left. split; [exact Hn|]. split; [exact Hsl|].
       intros j Hj. apply Hget. lia. }
  destruct (below_screen f) eqn:Eb.
  { left. split; [exact Hn|]. split; [exact Hsl|]. apply Hupd. }
  destruct (slash_hits fr s f) eqn:Eh.
  2: { left. split; [exact Hn|]. split; [exact Hsl|]. apply Hupd. }
  rewrite (SlashFruit_unfold s k f Ef). cbv zeta.
  destruct (Fruit.type f) eqn:Ety.
  1-3: left; split; [exact Hn|]; split; [exact Hsl|];
       exact (Hupd (Fruit.set_enabled false)).
  right. exists f. rewrite <- (Hget k) by lia.
  rewrite <- (slash_hits_slashing fr s t f Hsl). auto.
Qed.

Lemma play_fruits_hunt fr t :
  state t <> loseState -> state (play_fruits fr t) = loseState ->
  exists i (f : Fruit.t),
    get_fruit i t = Some f /\ Fruit.type f = donutType /\
    Fruit.enabled f = true /\ below_screen f = false /\
    slash_hits fr t f = true.
Proof.
  intros Hn Hl.
  pose (found := exists i (f : Fruit.t),
          get_fruit i t = Some f /\ Fruit.type f = donutType /\
          Fruit.enabled f = true /\ below_screen f = false /\
          slash_hits fr t f = true).
  assert (H : (state (play_fruits fr t) <> loseState /\
               slashing (play_fruits fr t) = slashing t /\
               forall j, MAX_FRUIT_COUNT <= j ->
                         get_fruit j (play_fruits fr t) = get_fruit j t) \/ found).
  { unfold play_fruits.
    apply (for_loop_inv
             (fun n s => (state s <> loseState /\ slashing s = slashing t /\
                          forall j, n <= j -> get_fruit j s = get_fruit j t) \/
                         found)).
    - unfold MAX_FRUIT_COUNT. lia.
    - left. auto.
    - intros k s _ [(H1 & H2 & H3) | H]; [|right; exact H].
      destruct (play_fruit_hunt fr t k s H1 H2 H3) as [H | (f & H)];
        [left; exact H | right; exists k, f; exact H]. }
  destruct H as [(H & _) | H]; [contradiction | exact H].
Qed.

(** X4.  A game is lost only by slashing a donut.  If an update takes the
    game from Play to Lose, then the player is slashing in that frame and
    some slot holds, when the loop over the fruits starts, an enabled
    donut that is not below the screen and that the pointer hits. *)
Theorem lose_needs_donut fr s :
  state s = playState -> state (Update fr s) = loseState ->
  slashing_in fr s = true /\
  exists i (f : Fruit.t),
    get_fruit i (before_fruits fr s) = Some f /\
    Fruit.type f = donutType /\ Fruit.enabled f = true /\
    below_screen f = false /\
    CheckCollisionPointCircle (GetMousePosition fr)
      (Vector2.mk
         (IEEE.add f32 (Vector2.x (Fruit.position f)) (IEEE.of_int f32 fruitRadius))
         (IEEE.add f32 (Vector2.y (Fruit.position f)) (IEEE.of_int f32 fruitRadius)))
      (IEEE.of_int f32 fruitRadius) = true.
Proof.
  intros Hs. unfold Update. rewrite Hs, UpdatePlayState_eq.
  fold (before_fruits fr s). intros Hl.
  destruct (play_fruits_hunt fr (before_fruits fr s)) as (i & f & H1 & H2 & H3 & H4 & H5);
    [rewrite before_fruits_state, Hs; discriminate | exact Hl |].
  unfold slash_hits in H5. apply andb_true_iff in H5 as [H5 H6].
  rewrite before_fruits_slashing in H5.
  split; [exact H5|]. exists i, f. auto.
Qed.

(** ** Frames in which the player is not slashing *)

Lemma array_update_ext {A : Type} (i : Z) (g h : A -> A) (l : list A) (x : A) :
  array_get i l = Some x -> g x = h x -> array_update i g l = array_update i h l.
Proof.
  intros Hx E. apply array_get_Some in Hx as [Hi Hx]. unfold array_update.
  destruct (0 <=? i); [|reflexivity].
  apply list_eq. intros j. rewrite !list_lookup_alter.
  case_decide; [subst j; rewrite Hx; simpl; congruence | reflexivity].
Qed.

Lemma array_update_same {A : Type} (i : Z) (g : A -> A) (l : list A) (x : A) :
  array_get i l = Some x -> g x = x -> array_update i g l = l.
Proof.
  intros Hx E. apply array_get_Some in Hx as [Hi Hx]. unfold array_update.
  destruct (0 <=? i); [|reflexivity].
  apply list_eq. intros j. rewrite list_lookup_alter.
  case_decide; [subst j; rewrite Hx; simpl; congruence | reflexivity].
Qed.

Lemma set_fruits_same s : set_fruits (fruits s) s = s.
Proof. by destruct s. Qed.

Lemma play_fruit_fall fr s i :
  pools_sized s -> 0 <= i < MAX_FRUIT_COUNT -> slashing s = false ->
  play_fruit fr i s = upd_fruit i fruit_fall s.
Proof.
  intros [Hf _] Hi Hsl.
  destruct (array_get_in i (fruits s)) as [f Ef];
    [rewrite Hf; unfold MAX_FRUIT_COUNT in *; lia|].
  unfold play_fruit, get_fruit, upd_fruit. rewrite Ef.
  destruct (Fruit.enabled f) eqn:Een.
  - destruct (below_screen f) eqn:Eb.
    + f_equal. apply (array_update_ext _ _ _ _ f Ef).
      unfold fruit_fall. rewrite Een, Eb. reflexivity.
    + unfold slash_hits. rewrite Hsl. cbn [andb].
      f_equal. apply (array_update_ext _ _ _ _ f Ef).
      unfold fruit_fall. rewrite Een, Eb. reflexivity.
  - rewrite (array_update_same i fruit_fall (fruits s) f Ef).
    + symmetry. apply set_fruits_same.
    + unfold fruit_fall. rewrite Een. reflexivity.
Qed.

Lemma play_fruits_fall fr s :
  pools_sized s -> slashing s = false ->
  play_fruits fr s = set_fruits (fruit_fall <$> fruits s) s.
Proof.
  intros Hs Hsl.
  rewrite <- (loop_upd_fruit s fruit_fall MAX_FRUIT_COUNT)
    by (destruct Hs as [Hf _]; rewrite Hf; unfold MAX_FRUIT_COUNT; lia).
  unfold play_fruits.
  assert (H : for_loop MAX_FRUIT_COUNT (play_fruit fr) s =
              for_loop MAX_FRUIT_COUNT (fun i => upd_fruit i fruit_fall) s /\
              pools_sized (for_loop MAX_FRUIT_COUNT (play_fruit fr) s) /\
              slashing (for_loop MAX_FRUIT_COUNT (play_fruit fr) s) = false).
  { apply (for_loop_inv
             (fun n t => t = for_loop n (fun i => upd_fruit i fruit_fall) s /\
                         pools_sized t /\ slashing t = false)).
    - unfold MAX_FRUIT_COUNT. lia.
    - auto.
    - intros i t Hi (E & Ht & Hslt).
      rewrite (play_fruit_fall fr t i Ht Hi Hslt).
      split; [|split; [by apply upd_fruit_sized | exact Hslt]].
      rewrite for_loop_succ by lia. rewrite <- E. reflexivity. }
  apply H.
Qed.

Lemma before_fruits_sized fr s : pools_sized s -> pools_sized (before_fruits fr s).
Proof.
  intros Hs. unfold before_fruits.
  pose proof (play_prefix_eq fr s Hs) as Hpre.
  set (s4 := play_particles fr _) in *.
  assert (Hs4 : pools_sized s4).
  { destruct Hs as [Hf Hp]. rewrite Hpre.
    split; cbn [fruits particles]; [exact Hf|].
    rewrite length_fmap. destruct (slashing_in fr s);
      rewrite ?length_array_update; exact Hp. }
  clearbody s4. unfold play_spawn. destruct (spawn_due s4); [|exact Hs4].
  rewrite SpawnFruit_eq. destruct Hs4 as [Hf Hp].
  split; cbn [fruits particles set_spawnElapsed];
    rewrite ?length_array_update; assumption.
Qed.

Lemma play_fruits_idle fr s :
  pools_sized s -> slashing s = false ->
  state (play_fruits fr s) = state s /\
  score (play_fruits fr s) = score s /\
  fruitsSlashed (play_fruits fr s) = fruitsSlashed s.
Proof.
  intros Hs Hsl. rewrite (play_fruits_fall fr s Hs Hsl).
  repeat split; reflexivity.
Qed.

(** X5.  A Play frame in which the player is not slashing cannot end the
    game and scores nothing: the loop over the fruits then treats every
    slot on its own (an enabled fruit below the screen is disabled, any
    other enabled fruit moves by its velocity and gains gravity, a
    disabled slot is kept), the state stays Play, and [score] and
    [fruitsSlashed] keep their values. *)
Theorem idle_frame_falls fr s :
  pools_sized s -> state s = playState -> slashing_in fr s = false ->
  Update fr s =
    set_fruits (fruit_fall <$> fruits (before_fruits fr s)) (before_fruits fr s) /\
  state (Update fr s) = playState /\
  score (Update fr s) = score s /\
  fruitsSlashed (Update fr s) = fruitsSlashed s.
Proof.
  intros Hs Hst Hsl. unfold Update. rewrite Hst, UpdatePlayState_eq.
  fold (before_fruits fr s).
  pose proof (before_fruits_sized fr s Hs) as Hs5.
  pose proof (before_fruits_slashing fr s) as Hsl5. rewrite Hsl in Hsl5.
  destruct (play_fruits_idle fr _ Hs5 Hsl5) as (E1 & E2 & E3).
  split; [apply play_fruits_fall; assumption|].
  rewrite E1, E2, E3, before_fruits_state.
  split; [exact Hst|].
  unfold before_fruits.
  pose proof (play_prefix_eq fr s Hs) as Hpre.
  set (s4 := play_particles fr _) in *.
  assert (Hsc : score s4 = score s /\ fruitsSlashed s4 = fruitsSlashed s)
    by (rewrite Hpre; split; reflexivity).
  clearbody s4. destruct Hsc as [<- <-].
  unfold play_spawn. destruct (spawn_due s4); [|split; reflexivity].
  rewrite SpawnFruit_eq. split; reflexivity.
Qed.


(** ** The counters *)

Lemma tally_within_mono (n m : Z) s : n <= m -> tally_within n s -> tally_within m s.
Proof. unfold tally_within. lia. Qed.

Lemma SlashFruit_tally s i (n : Z) :
  pools_sized s -> cherryScore * (n + 1) <= INT_MAX ->
  tally_within n s -> tally_within (n + 1) (SlashFruit i s).
Proof.
  intros Hs Hn [Hfs Hsc]. unfold SlashFruit.
  pose proof (upd_fruit_sized s i (Fruit.set_enabled false) Hs) as Hs1.
  unfold cherryScore, bananaScore, appleScore, INT_MAX in *.
  destruct (Fruit.type <$> get_fruit i _) as [[| | |]|].
  1-3: unfold tally_within, int_add, cherryScore, bananaScore, appleScore;
       cbn [score fruitsSlashed set_score set_fruitsSlashed upd_fruit set_fruits];
       rewrite !wrap_int_id by (unfold INT_MIN, INT_MAX; lia); lia.
  - rewrite (FromPlayToLoseState_eq _ Hs1).
    unfold tally_within, cherryScore, bananaScore, appleScore.
    cbn [score fruitsSlashed upd_fruit set_fruits]. lia.
  - unfold tally_within, cherryScore, bananaScore, appleScore.
    cbn [score fruitsSlashed upd_fruit set_fruits]. lia.
Qed.

Lemma play_fruit_tally fr s i (n : Z) :
  pools_sized s -> cherryScore * (n + 1) <= INT_MAX ->
  tally_within n s -> tally_within (n + 1) (play_fruit fr i s).
Proof.
  intros Hs Hn Ht.
  pose proof (tally_within_mono n (n + 1) s ltac:(lia) Ht) as Ht1.
  unfold play_fruit.
  destruct (get_fruit i s) as [f|]; [|exact Ht1].
  destruct (Fruit.enabled f); [|exact Ht1].
  destruct (below_screen f); [exact Ht1|].
  destruct (slash_hits fr s f); [|exact Ht1].
  by apply SlashFruit_tally.
Qed.

Lemma play_fruits_tally fr s (n : Z) :
  pools_sized s -> cherryScore * (n + MAX_FRUIT_COUNT) <= INT_MAX ->
  tally_within n s -> tally_within (n + MAX_FRUIT_COUNT) (play_fruits fr s).
Proof.
  intros Hs Hn Ht. unfold play_fruits.
  assert (H : pools_sized (for_loop MAX_FRUIT_COUNT (play_fruit fr) s) /\
              tally_within (n + MAX_FRUIT_COUNT)
                (for_loop MAX_FRUIT_COUNT (play_fruit fr) s)).
  { apply (for_loop_inv (fun k t => pools_sized t /\ tally_within (n + k) t)).
    - unfold MAX_FRUIT_COUNT. lia.
    - split; [exact Hs|]. by rewrite Z.add_0_r.
    - intros k t Hk [Hst Htt]. split; [apply (play_fruit_step fr t k Hst)|].
      rewrite Z.add_assoc. apply play_fruit_tally; [exact Hst | | exact Htt].
      unfold cherryScore, bananaScore, appleScore in *. lia. }
  apply H.
Qed.

Lemma before_fruits_tally fr s (n : Z) :
  pools_sized s -> tally_within n s -> tally_within n (before_fruits fr s).
Proof.
  intros Hs Ht. unfold before_fruits.
  pose proof (play_prefix_eq fr s Hs) as Hpre.
  set (s4 := play_particles fr _) in *.
  assert (Hsc : score s4 = score s /\ fruitsSlashed s4 = fruitsSlashed s)
    by (rewrite Hpre; split; reflexivity).
  clearbody s4. unfold tally_within in *. destruct Hsc as [E1 E2].
  unfold play_spawn. destruct (spawn_due s4).
  - rewrite SpawnFruit_eq. cbn [score fruitsSlashed set_spawnElapsed].
    rewrite E1, E2. exact Ht.
  - rewrite E1, E2. exact Ht.
Qed.

Lemma Update_tally fr s (n : Z) :
  pools_sized s -> 0 <= n -> cherryScore * (n + MAX_FRUIT_COUNT) <= INT_MAX ->
  tally_within n s -> tally_within (n + MAX_FRUIT_COUNT) (Update fr s).
Proof.
  intros Hs Hn0 Hn Ht.
  pose proof (tally_within_mono n (n + MAX_FRUIT_COUNT) s
                ltac:(unfold MAX_FRUIT_COUNT; lia) Ht) as Ht1.
  unfold Update. destruct (state s).
  - unfold UpdateStartState. destruct (IsMouseButtonPressed fr); exact Ht1.
  - rewrite UpdatePlayState_eq. fold (before_fruits fr s).
    apply play_fruits_tally; [by apply before_fruits_sized | exact Hn|].
    by apply before_fruits_tally.
  - unfold UpdateLoseState. destruct (IsMouseButtonPressed fr); [|exact Ht1].
    unfold tally_within, FromLoseToStartState, MAX_FRUIT_COUNT, cherryScore,
      bananaScore, appleScore.
    cbn [score fruitsSlashed set_score set_fruitsSlashed set_state]. lia.
Qed.

Lemma main_tally (g : Rng) (frames : list Frame) :
  cherryScore * MAX_FRUIT_COUNT * Z.of_nat (length frames) <= INT_MAX ->
  tally_within (MAX_FRUIT_COUNT * Z.of_nat (length frames)) (main g frames).
Proof.
  induction frames as [|fr frames IH] using rev_ind; intros Hn.
  - unfold main, run. simpl fold_left.
    destruct (Initialize_clear (static_init g) (static_init_sized g))
      as (_ & _ & Hsc & Hfs).
    unfold tally_within. rewrite Hsc, Hfs.
    change (score (static_init g)) with 0.
    unfold cherryScore, bananaScore, appleScore. simpl length. lia.
  - destruct (main_inv g frames) as [Hs _].
    rewrite length_app in *. simpl length in *.
    unfold main in *. rewrite run_snoc.
    replace (MAX_FRUIT_COUNT * Z.of_nat (length frames + 1))
      with (MAX_FRUIT_COUNT * Z.of_nat (length frames) + MAX_FRUIT_COUNT) by lia.
    unfold cherryScore, bananaScore, appleScore, MAX_FRUIT_COUNT, INT_MAX in Hn.
    apply Update_tally; [exact Hs | unfold MAX_FRUIT_COUNT; lia | |].
    + unfold cherryScore, bananaScore, appleScore, MAX_FRUIT_COUNT, INT_MAX. lia.
    + apply IH.
      unfold cherryScore, bananaScore, appleScore, MAX_FRUIT_COUNT, INT_MAX. lia.
Qed.

(** X6.  The two counters do not overflow in the first 4 971 026 frames
    of a run (about 23 hours at 60 frames per second).  After that many
    frames or fewer from the initialised state, [fruitsSlashed] is
    between 0 and 48 per frame played, [score] is between one and nine
    times [fruitsSlashed], and both can take one more slash within the
    range of [int]. *)
Theorem counters_bounded (g : Rng) (frames : list Frame) :
  Z.of_nat (length frames) <= 4971026 ->
  0 <= fruitsSlashed (main g frames) <= 48 * Z.of_nat (length frames) /\
  fruitsSlashed (main g frames) <= score (main g frames)
    <= 9 * fruitsSlashed (main g frames) /\
  counters_in_range (main g frames).
Proof.
  intros Hn.
  destruct (main_tally g frames) as [H1 H2].
  { unfold cherryScore, bananaScore, appleScore, MAX_FRUIT_COUNT, INT_MAX. lia. }
  unfold cherryScore, bananaScore, appleScore, MAX_FRUIT_COUNT in *.
  split; [exact H1|]. split; [lia|].
  unfold counters_in_range, cherryScore, bananaScore, appleScore, INT_MIN, INT_MAX.
  lia.
Qed.


(** ** The frame in which a fruit is spawned *)

Lemma sval_of_int (z : Z) :
  IEEE.sval (z <? 0) (Z.to_N (Z.abs z * 2 ^ 149)) = z * 2 ^ 149.
Proof.
  assert (Hp : 0 < 2 ^ 149) by (apply Z.pow_pos_nonneg; lia).
  unfold IEEE.sval. rewrite Z2N.id by nia.
  destruct (Z.ltb_spec z 0); nia.
Qed.

(** The sum of two small [int]s is exact in [float]. *)
Lemma add_of_int (a b : Z) :
  Z.abs a < 2 ^ 24 -> Z.abs b < 2 ^ 24 ->
  IEEE.add f32 (IEEE.of_int f32 a) (IEEE.of_int f32 b) = IEEE.of_int f32 (a + b).
Proof.
  intros Ha Hb.
  rewrite (IEEE_facts.of_int_exact a Ha), (IEEE_facts.of_int_exact b Hb).
  unfold IEEE.add, IEEE.of_int. rewrite !sval_of_int.
  change (- IEEE.emin f32) with 149.
  assert (Hp : 0 < 2 ^ 149) by (apply Z.pow_pos_nonneg; lia).
  replace (a * 2 ^ 149 + b * 2 ^ 149) with ((a + b) * 2 ^ 149) by lia.
  unfold IEEE.round_signed.
  destruct ((a + b) * 2 ^ 149) eqn:E; try reflexivity.
  assert (a + b = 0) by nia.
  destruct (Z.ltb_spec a 0), (Z.ltb_spec b 0); try reflexivity. lia.
Qed.

(** Small [int]s compare in [float] as they do in [int]. *)
Lemma lt_of_int (a b : Z) :
  Z.abs a < 2 ^ 24 -> Z.abs b < 2 ^ 24 ->
  IEEE.lt (IEEE.of_int f32 a) (IEEE.of_int f32 b) = (a <? b).
Proof.
  intros Ha Hb.
  rewrite (IEEE_facts.of_int_exact a Ha), (IEEE_facts.of_int_exact b Hb).
  unfold IEEE.lt. rewrite !sval_of_int.
  assert (Hp : 0 < 2 ^ 149) by (apply Z.pow_pos_nonneg; lia).
  destruct (Z.ltb_spec a b), (Z.ltb_spec (a * 2 ^ 149) (b * 2 ^ 149));
    try reflexivity; nia.
Qed.

Lemma play_spawn_fresh s :
  pools_sized s -> cursors_in_range s -> spawn_due s = true ->
  let r1 := GetRandomValue 1 100 (rng s) in
  let r2 := GetRandomValue spawnLeft spawnRight (snd r1) in
  let r3 := GetRandomValue (IEEE.to_int f32 minimumFruitStrafe)
                           (IEEE.to_int f32 maximumFruitStrafe) (snd r2) in
  let r4 := GetRandomValue (IEEE.to_int f32 minimumFruitThrust)
                           (IEEE.to_int f32 maximumFruitThrust) (snd r3) in
  exists ty,
    get_fruit (nextFruitIndex s) (play_spawn s) =
    Some (Fruit.mk ty
            (Vector2.mk (IEEE.of_int f32 (fst r2)) (IEEE.of_int f32 screenHeight))
            (Vector2.mk (IEEE.of_int f32 (fst r3)) (IEEE.of_int f32 (- fst r4)))
            true).
Proof.
  intros Hs Hc Hd. cbv zeta.
  destruct (cursor_slot s Hs Hc) as [f Hf].
  unfold play_spawn. rewrite Hd, SpawnFruit_eq. cbv zeta.
  unfold get_fruit in *. cbn [fruits nextFruitIndex rng set_spawnElapsed].
  rewrite array_get_update_eq, Hf. cbn [fmap option_fmap option_map].
  eexists. reflexivity.
Qed.

(** X7.  A fruit is never dropped in the frame in which it is spawned.
    In a Play frame whose spawn test succeeds and in which the player is
    not slashing, the slot at [nextFruitIndex] holds after the update an
    enabled fruit that has moved once from the bottom edge: it is at the
    integer position (x, y) with 235 <= x <= 725 and 520 <= y <= 535,
    above the bottom edge, with the horizontal velocity drawn for it
    and gravity applied once to the vertical one.  (It is spawned at
    y = 540 = [screenHeight], and the loop drops a fruit only when y
    exceeds [screenHeight].) *)
Theorem fresh_fruit_rises fr s :
  RaylibSpec raylib ->
  pools_sized s -> cursors_in_range s ->
  state s = playState ->
  slashing_in fr s = false -> spawn_due_in fr s = true ->
  exists (ty : FruitType) (x y vx : Z),
    get_fruit (nextFruitIndex s) (Update fr s) =
      Some (Fruit.mk ty
              (Vector2.mk (IEEE.of_int f32 x) (IEEE.of_int f32 y))
              (Vector2.mk (IEEE.of_int f32 vx)
                          (IEEE.sub f32 (IEEE.of_int f32 (y - screenHeight)) gravity))
              true) /\
    235 <= x <= 725 /\ 520 <= y <= 535 /\ -5 <= vx <= 5 /\
    below_screen
      (Fruit.mk ty
         (Vector2.mk (IEEE.of_int f32 x) (IEEE.of_int f32 y))
         (Vector2.mk (IEEE.of_int f32 vx)
                     (IEEE.sub f32 (IEEE.of_int f32 (y - screenHeight)) gravity))
         true) = false.
Proof.
  intros Hray Hs Hc Hst Hsl Hdue.
  unfold Update. rewrite Hst, UpdatePlayState_eq. fold (before_fruits fr s).
  pose proof (before_fruits_sized fr s Hs) as Hs5.
  pose proof (before_fruits_slashing fr s) as Hsl5. rewrite Hsl in Hsl5.
  rewrite (play_fruits_fall fr _ Hs5 Hsl5).
  unfold get_fruit. cbn [fruits set_fruits]. rewrite array_get_fmap.
  fold (get_fruit (nextFruitIndex s) (before_fruits fr s)).
  unfold before_fruits.
  pose proof (play_prefix_eq fr s Hs) as Hpre.
  destruct (play_until_spawn_fruits fr s) as [_ Ec].
  destruct (play_until_spawn_timers fr s) as [Ed _].
  set (s4 := play_particles fr _) in *.
  assert (Hs4 : pools_sized s4 /\ cursors_in_range s4).
  { destruct Hs as [Hf Hp], Hc as [Hc1 Hc2].
    destruct (cursor_step (nextParticleIndex s) MAX_PARTICLE_COUNT Hc2) as [E B];
      [unfold MAX_PARTICLE_COUNT, INT_MAX; lia|].
    rewrite Hpre. split; split; cbn [fruits particles nextFruitIndex nextParticleIndex];
      try assumption.
    - rewrite length_fmap. destruct (slashing_in fr s);
        rewrite ?length_array_update; exact Hp.
    - destruct (slashing_in fr s); [rewrite E; exact B | exact Hc2]. }
  clearbody s4. destruct Hs4 as [Hs4 Hc4].
  rewrite Hdue in Ed. rewrite <- Ec.
  destruct (play_spawn_fresh s4 Hs4 Hc4 Ed) as [ty Hfresh]. cbv zeta in Hfresh.
  rewrite Hfresh. clear Hfresh.
  set (r1 := GetRandomValue 1 100 (rng s4)).
  set (r2 := GetRandomValue spawnLeft spawnRight (snd r1)).
  set (r3 := GetRandomValue _ _ (snd r2)).
  set (r4 := GetRandomValue _ _ (snd r3)).
  assert (Hx : 240 <= fst r2 <= 720).
  { subst r2. rewrite spawnLeft_value, spawnRight_value.
    apply GetRandomValue_range. lia. }
  assert (Hv : -5 <= fst r3 <= 5).
  { subst r3. destruct strafe_bounds as [-> ->].
    apply GetRandomValue_range. lia. }
  assert (Ht : 5 <= fst r4 <= 20).
  { subst r4. destruct thrust_bounds as [-> ->].
    apply GetRandomValue_range. lia. }
  clearbody r1 r2 r3 r4.
  assert (H24 : 2 ^ 24 = 16777216) by reflexivity.
  assert (Hbelow : forall v : Vector2.t,
             below_screen
               (Fruit.mk ty
                  (Vector2.mk (IEEE.of_int f32 (fst r2 + fst r3))
                     (IEEE.of_int f32 (screenHeight + - fst r4))) v true) = false).
  { intros v. unfold below_screen. cbn [Fruit.position Vector2.y].
    unfold screenHeight. rewrite lt_of_int by lia. apply Z.ltb_ge. lia. }
  exists ty, (fst r2 + fst r3), (screenHeight + - fst r4), (fst r3).
  replace (screenHeight + - fst r4 - screenHeight) with (- fst r4) by lia.
  split; [|split; [lia|]; split; [unfold screenHeight; lia|];
           split; [exact Hv | apply Hbelow]].
  cbn [fmap option_fmap option_map]. f_equal.
  unfold fruit_fall. cbn [Fruit.enabled].
  replace (below_screen _) with false.
  2: { unfold below_screen. cbn [Fruit.position Vector2.y].
       unfold screenHeight. rewrite lt_of_int by lia. reflexivity. }
  rewrite move_fruit_eq.
  cbn [Fruit.type Fruit.position Fruit.velocity Fruit.enabled Vector2.x Vector2.y].
  rewrite !add_of_int by (unfold screenHeight; lia).
  reflexivity.
Qed.


(** ** The random numbers *)

Lemma before_fruits_rng fr s :
  pools_sized s ->
  rng (before_fruits fr s) =
  if spawn_due_in fr s then
    snd (GetRandomValue 5 20
           (snd (GetRandomValue (-5) 5
                   (snd (GetRandomValue 240 720
                           (snd (GetRandomValue 1 100 (rng s))))))))
  else rng s.
Proof.
  intros Hs. unfold before_fruits.
  pose proof (play_prefix_eq fr s Hs) as Hpre.
  destruct (play_until_spawn_timers fr s) as [Ed _].
  set (s4 := play_particles fr _) in *.
  assert (Er : rng s4 = rng s) by (rewrite Hpre; reflexivity).
  clearbody s4. unfold play_spawn. rewrite Ed.
  destruct (spawn_due_in fr s); [|exact Er].
  rewrite SpawnFruit_eq. cbn [rng set_spawnElapsed snd].
  rewrite spawnLeft_value, spawnRight_value.
  destruct strafe_bounds as [-> ->]. destruct thrust_bounds as [-> ->].
  rewrite Er. reflexivity.
Qed.

(** X8.  Random numbers are drawn on a spawn and nowhere else.  An update
    leaves the generator as it was, unless the game is in the Play state
    and the spawn test of the frame succeeds; it then takes exactly four
    numbers: first one from 1..100 (the type), then one from 240..720
    (the horizontal position), then one from -5..5 (the strafe) and one
    from 5..20 (the thrust), these two in either order (they are drawn
    within one initializer, whose order of evaluation C leaves open). *)
Theorem rng_drawn_on_spawn fr s :
  pools_sized s ->
  (state s <> playState \/ spawn_due_in fr s = false ->
   rng (Update fr s) = rng s) /\
  (state s = playState -> spawn_due_in fr s = true ->
   let g2 :=
     snd (GetRandomValue 240 720 (snd (GetRandomValue 1 100 (rng s)))) in
   rng (Update fr s) = snd (GetRandomValue 5 20 (snd (GetRandomValue (-5) 5 g2))) \/
   rng (Update fr s) = snd (GetRandomValue (-5) 5 (snd (GetRandomValue 5 20 g2)))).
Proof.
  intros Hs.
  assert (H : rng (Update fr s) =
              match state s with
              | playState => rng (before_fruits fr s)
              | _ => rng s
              end).
  { unfold Update. destruct (state s).
    - unfold UpdateStartState. destruct (IsMouseButtonPressed fr); reflexivity.
    - rewrite UpdatePlayState_eq. fold (before_fruits fr s).
      destruct (play_fruits_step fr _ (before_fruits_sized fr s Hs))
        as (_ & _ & _ & Er & _).
      exact Er.
    - unfold UpdateLoseState. destruct (IsMouseButtonPressed fr); reflexivity. }
  rewrite H, (before_fruits_rng fr s Hs). split.
  - intros [Hn | Hd].
    + destruct (state s); [reflexivity | contradiction | reflexivity].
    + rewrite Hd. destruct (state s); reflexivity.
  - intros Hst Hd. rewrite Hst, Hd. left. reflexivity.
Qed.


(** ** The frame in which the game is lost *)

Lemma play_fruit_lost_eq fr s i :
  state s <> loseState -> state (play_fruit fr i s) = loseState ->
  play_fruit fr i s = FromPlayToLoseState (upd_fruit i (Fruit.set_enabled false) s).
Proof.
  intros Hn. unfold play_fruit.
  destruct (get_fruit i s) as [f|] eqn:Ef; [|intros H; contradiction].
  destruct (Fruit.enabled f); [|intros H; contradiction].
  destruct (below_screen f); [intros H; contradiction|].
  destruct (slash_hits fr s f); [|intros H; contradiction].
  rewrite (SlashFruit_unfold s i f Ef). cbv zeta.
  destruct (Fruit.type f); try (intros H; contradiction).
  reflexivity.
Qed.

Lemma play_fruits_cut fr t :
  pools_sized t -> state t = playState -> state (play_fruits fr t) = loseState ->
  exists i,
    0 <= i < MAX_FRUIT_COUNT /\
    state (for_loop i (play_fruit fr) t) = playState /\
    pools_sized (for_loop i (play_fruit fr) t) /\
    play_fruits fr t =
      FromPlayToLoseState
        (upd_fruit i (Fruit.set_enabled false) (for_loop i (play_fruit fr) t)).
Proof.
  intros Hs Hst Hl.
  pose (cut := fun (n : Z) (u : Game Rng) =>
          exists i,
            0 <= i < n /\
            state (for_loop i (play_fruit fr) t) = playState /\
            pools_sized (for_loop i (play_fruit fr) t) /\
            u = FromPlayToLoseState
                  (upd_fruit i (Fruit.set_enabled false)
                     (for_loop i (play_fruit fr) t))).
  assert (H : (state (play_fruits fr t) = playState /\
               pools_sized (play_fruits fr t) /\
               play_fruits fr t = for_loop MAX_FRUIT_COUNT (play_fruit fr) t) \/
              cut MAX_FRUIT_COUNT (play_fruits fr t)).
  { unfold play_fruits.
    apply (for_loop_inv
             (fun n u => (state u = playState /\ pools_sized u /\
                          u = for_loop n (play_fruit fr) t) \/ cut n u)).
    - unfold MAX_FRUIT_COUNT. lia.
    - left. auto.
    - intros k u Hk [(Hu1 & Hu2 & Hu3) | (i & Hi & Hc1 & Hc2 & Hc3)].
      + destruct (play_fruit_state fr u k) as [E | E].
        * left. split; [congruence|]. split; [apply (play_fruit_step fr u k Hu2)|].
          rewrite for_loop_succ by lia. rewrite <- Hu3. reflexivity.
        * right. exists k. split; [lia|]. rewrite <- Hu3.
          split; [exact Hu1|]. split; [exact Hu2|].
          apply play_fruit_lost_eq; [congruence | exact E].
      + right. exists i. split; [lia|]. split; [exact Hc1|]. split; [exact Hc2|].
        rewrite <- Hc3. apply board_clear_play_fruit. rewrite Hc3.
        apply FromPlayToLoseState_clear. by apply upd_fruit_sized. }
  destruct H as [(H & _) | H]; [congruence | exact H].
Qed.

(** X12.  A slashed donut ends the frame's loop over the fruits.  If an
    update takes the game from Play to Lose, there is a slot [i] such
    that the loop has run as usual, without losing, over the slots before
    [i], and the update ends in the Play-to-Lose transition taken at slot
    [i]: the slots after [i] are not processed any more, so that [score]
    and [fruitsSlashed] count the fruits slashed in the slots before [i]
    and none behind it. *)
Theorem donut_ends_frame fr s :
  pools_sized s -> state s = playState -> state (Update fr s) = loseState ->
  exists i,
    0 <= i < MAX_FRUIT_COUNT /\
    state (for_loop i (play_fruit fr) (before_fruits fr s)) = playState /\
    Update fr s =
      FromPlayToLoseState
        (upd_fruit i (Fruit.set_enabled false)
           (for_loop i (play_fruit fr) (before_fruits fr s))) /\
    score (Update fr s) =
      score (for_loop i (play_fruit fr) (before_fruits fr s)) /\
    fruitsSlashed (Update fr s) =
      fruitsSlashed (for_loop i (play_fruit fr) (before_fruits fr s)).
Proof.
  intros Hs Hst. unfold Update. rewrite Hst, UpdatePlayState_eq.
  fold (before_fruits fr s). intros Hl.
  destruct (play_fruits_cut fr (before_fruits fr s)) as (i & Hi & H1 & H2 & H3).
  - by apply before_fruits_sized.
  - rewrite before_fruits_state. exact Hst.
  - exact Hl.
  - exists i. split; [exact Hi|]. split; [exact H1|]. split; [exact H3|].
    rewrite H3.
    rewrite (FromPlayToLoseState_eq _
               (upd_fruit_sized _ i (Fruit.set_enabled false) H2)).
    split; reflexivity.
Qed.


(** ** The age of the particles *)

Lemma age_particle_fresh fr (p : Particle.t) :
  particle_fresh p -> particle_fresh (age_particle fr p).
Proof.
  intros Hp. rewrite age_particle_eq.
  destruct (Particle.enabled p) eqn:E; [|exact Hp].
  unfold particle_fresh. cbn [Particle.enabled Particle.elapsed].
  destruct (IEEE.lt particleMaximumElapsed _); [discriminate | reflexivity].
Qed.

Lemma board_clear_fresh s : board_clear s -> Forall particle_fresh (particles s).
Proof.
  intros (_ & Hp & _). eapply Forall_impl; [exact Hp|].
  intros p E. unfold particle_fresh. rewrite E. discriminate.
Qed.

Lemma array_update_Forall {A : Type} (P : A -> Prop) (i : Z) (g : A -> A)
    (l : list A) :
  Forall P l -> (forall x, P x -> P (g x)) -> Forall P (array_update i g l).
Proof.
  intros Hl Hg. unfold array_update. destruct (0 <=? i); [|exact Hl].
  apply Forall_alter; [exact Hl|]. intros x _ Hx. by apply Hg.
Qed.

Lemma Update_fresh fr s :
  pools_sized s ->
  Forall particle_fresh (particles s) ->
  Forall particle_fresh (particles (Update fr s)).
Proof.
  intros Hs Hp. unfold Update. destruct (state s) eqn:Hst.
  - unfold UpdateStartState. destruct (IsMouseButtonPressed fr); exact Hp.
  - rewrite UpdatePlayState_eq. fold (before_fruits fr s).
    pose proof (before_fruits_sized fr s Hs) as Hs5.
    pose proof (before_fruits_state fr s) as Est. rewrite Hst in Est.
    destruct (play_fruits_step fr _ Hs5) as (_ & _ & _ & _ & [Hl | (_ & E & _)]).
    + apply board_clear_fresh.
      apply play_fruits_lost; [exact Hs5 | congruence | exact Hl].
    + rewrite E. unfold before_fruits.
      destruct (play_spawn_frame
                  (play_particles fr (play_trail fr (play_input fr (play_timers fr s)))))
        as [-> _].
      rewrite (play_prefix_eq fr s Hs). cbn [particles].
      apply Forall_fmap.
      assert (H : forall l : list Particle.t,
                 Forall particle_fresh l ->
                 Forall (particle_fresh ∘ age_particle fr) l).
      { intros l Hl. eapply Forall_impl; [exact Hl|].
        intros p Hfresh. by apply age_particle_fresh. }
      apply H. destruct (slashing_in fr s); [|exact Hp].
      apply array_update_Forall; [exact Hp|].
      intros p _. unfold particle_fresh. cbn [Particle.enabled Particle.elapsed].
      intros _. rewrite particleMaximumElapsed_value. reflexivity.
  - unfold UpdateLoseState. destruct (IsMouseButtonPressed fr); exact Hp.
Qed.

(** X13.  No enabled particle has outlived its time.  After any sequence
    of frames from the initialised state, the accumulated time of every
    enabled particle does not exceed [particleMaximumElapsed] (0.1 s): a
    particle is aged in the frame in which it is written and in every
    frame after it, and is disabled in the frame in which its time first
    exceeds the limit, so the draw pass never shows an expired one. *)
Theorem particles_fresh (g : Rng) (frames : list Frame) :
  Forall particle_fresh (particles (main g frames)).
Proof.
  induction frames as [|fr frames IH] using rev_ind.
  - unfold main, run. simpl fold_left.
    destruct (Initialize_clear (static_init g) (static_init_sized g))
      as (_ & Hb & _).
    by apply board_clear_fresh.
  - destruct (main_inv g frames) as [Hs _].
    unfold main in *. rewrite run_snoc. by apply Update_fresh.
Qed.


(** * The Play-state update as a whole *)

(** C4.  In the Play-state update the spawn test reads the timers already
    advanced by the frame time, and compares [spawnElapsed] with the
    larger of [1 - totalElapsed / 30] and 0.1 (as a [float]: 13421773 /
    2^27, the [float] nearest to one tenth, which exceeds it by 2^-26 / 10;
    it is the value of [maximumSpawnRate]).  A fruit is spawned exactly
    when [spawnElapsed] exceeds that threshold, and then [spawnElapsed] is
    set to 0 before [SpawnFruit] runs; otherwise the state is left as it
    is.  As a function of [totalElapsed] (not a NaN) the threshold is
    non-increasing and never below that [float] 0.1. *)
Theorem spawn_test_spec fr s :
  pools_sized s ->
  cursors_in_range s ->
  let s4 := play_particles fr (play_trail fr (play_input fr (play_timers fr s))) in
  let u :=
    IEEE.sub f32 (IEEE.of_int f32 1)
      (IEEE.div f32 (totalElapsed s4) (IEEE.of_int f32 30)) in
  let thr := spawn_threshold (totalElapsed s4) in
  let tenth := IEEE.FFin false (13421773 * 2 ^ 122)%N in
  (totalElapsed s4 = IEEE.add f32 (totalElapsed s) (GetFrameTime fr) /\
   spawnElapsed s4 = IEEE.add f32 (spawnElapsed s) (GetFrameTime fr) /\
   UpdatePlayState fr s = play_fruits fr (play_spawn s4)) /\
  (thr = (if IEEE.lt u tenth then tenth else u) /\
   (IEEE.is_nan (totalElapsed s4) = false ->
    IEEE.le u thr = true /\ IEEE.le tenth thr = true)) /\
  (IEEE.lt thr (spawnElapsed s4) = true ->
     play_spawn s4 = SpawnFruit (set_spawnElapsed (IEEE.FFin false 0) s4) /\
     spawnElapsed (play_spawn s4) = IEEE.FFin false 0 /\
     nextFruitIndex (play_spawn s4) = (nextFruitIndex s + 1) mod 48 /\
     nextFruitIndex (play_spawn s4) <> nextFruitIndex s) /\
  (IEEE.lt thr (spawnElapsed s4) = false -> play_spawn s4 = s4) /\
  (forall t1 t2 : float,
     IEEE.le t1 t2 = true ->
     IEEE.le (spawn_threshold t2) (spawn_threshold t1) = true) /\
  (forall t : float,
     IEEE.is_nan t = false ->
     IEEE.le tenth (spawn_threshold t) = true) /\
  (maximumSpawnRate = tenth /\
   tenth = IEEE.of_ratio f32 1 10 /\
   10 * Z.of_N (13421773 * 2 ^ 122) = 2 ^ 149 + 2 ^ 123).
Proof.
  intros Hs Hc s4 u thr tenth.
  destruct (spawn_test_facts fr s Hs Hc) as (H1 & H2 & H3 & H4 & H5 & H6 & _).
  fold s4 in H1, H2, H3, H4. fold thr in H2, H3, H4.
  change (IEEE.sub f32 (IEEE.of_int f32 1)
            (IEEE.div f32 (totalElapsed s4) (IEEE.of_int f32 30))) with u in H2.
  clearbody s4 u thr.
  rewrite maximumSpawnRate_value in H2, H6. fold tenth in H2, H6.
  split; [exact H1|]. split; [exact H2|]. split; [exact H3|].
  split; [exact H4|]. split; [exact H5|]. split; [exact H6|].
  split; [exact maximumSpawnRate_value|].
  split; [vm_compute; reflexivity | vm_compute; reflexivity].
Qed.

(** C7.  In the Play-state update, with [slashing] as the press / release
    test leaves it: when it is set, one particle is written at the
    particle cursor, at the pointer position, with [elapsed = 0] and
    [enabled = true], no other slot is written, and the cursor advances by
    one modulo 16; when it is not set, the pool and the cursor are left as
    they are.  Then every enabled particle has the frame time added to
    its [elapsed] and is disabled when the sum exceeds 0.1 s (as a
    [float]: 13421773 / 2^27, the [float] nearest to one tenth, which
    exceeds it by 2^-26 / 10; it is the value of
    [particleMaximumElapsed]); disabled particles do not change.  That is
    the pool at the end of the update, unless the game is lost in it. *)
Theorem trail_spec fr s :
  pools_sized s ->
  cursors_in_range s ->
  let c := nextParticleIndex s in
  let s1 := play_input fr (play_timers fr s) in
  let s2 := play_trail fr s1 in
  let s3 := play_particles fr s2 in
  let s' := UpdatePlayState fr s in
  let tenth := IEEE.FFin false (13421773 * 2 ^ 122)%N in
  slashing s1 =
    (if IsMouseButtonPressed fr then true
     else if IsMouseButtonReleased fr then false
     else slashing s) /\
  (slashing s1 = true ->
     get_particle c s2 =
       Some (Particle.mk (GetMousePosition fr) (IEEE.FFin false 0) true) /\
     (forall j, j <> c -> get_particle j s2 = get_particle j s) /\
     nextParticleIndex s2 = (c + 1) mod 16) /\
  (slashing s1 = false ->
     particles s2 = particles s /\ nextParticleIndex s2 = c) /\
  (forall j (p : Particle.t),
     get_particle j s2 = Some p ->
     get_particle j s3 =
       Some (if Particle.enabled p then
               Particle.mk (Particle.position p)
                 (IEEE.add f32 (Particle.elapsed p) (GetFrameTime fr))
                 (negb (IEEE.lt tenth
                          (IEEE.add f32 (Particle.elapsed p) (GetFrameTime fr))))
             else p)) /\
  (particleMaximumElapsed = tenth /\
   tenth = IEEE.of_ratio f32 1 10 /\
   10 * Z.of_N (13421773 * 2 ^ 122) = 2 ^ 149 + 2 ^ 123) /\
  (state s' = loseState \/ particles s' = particles s3) /\
  nextParticleIndex s' = nextParticleIndex s2.
Proof.
  intros Hs Hc.
  pose proof (trail_facts fr s Hs Hc) as H. cbv zeta in H |- *.
  destruct H as (H1 & H2 & H3 & H4 & _ & H6 & H7).
  split; [exact H1|]. split; [exact H2|]. split; [exact H3|].
  split.
  { intros j p Hj. specialize (H4 j p Hj).
    rewrite particleMaximumElapsed_value in H4. exact H4. }
  split.
  { split; [exact particleMaximumElapsed_value|].
    split; [vm_compute; reflexivity | vm_compute; reflexivity]. }
  split; [exact H6 | exact H7].
Qed.

(** ** The loop over the fruits, slot by slot *)

Lemma play_fruit_turn fr t u k (g : Fruit.t) :
  pools_sized u -> slashing u = slashing t -> get_fruit k u = Some g ->
  (state (play_fruit fr k u) = loseState /\ board_clear (play_fruit fr k u)) \/
  (state (play_fruit fr k u) = state u /\
   slashing (play_fruit fr k u) = slashing t /\
   forall j, get_fruit j (play_fruit fr k u) =
             if decide (k = j) then Some (fruit_turn fr t g) else get_fruit j u).
Proof.
  intros Hs Hsl Hg.
  assert (Hupd : forall h : Fruit.t -> Fruit.t,
             h g = fruit_turn fr t g ->
             forall j, get_fruit j (upd_fruit k h u) =
                       if decide (k = j) then Some (fruit_turn fr t g)
                       else get_fruit j u).
  { intros h Hh j. rewrite get_fruit_upd.
    case_decide as E; [|reflexivity].
    subst j. rewrite Hg. simpl. by rewrite Hh. }
  assert (Hhit : slash_hits fr t g = slash_hits fr u g)
    by (symmetry; by apply slash_hits_slashing).
  unfold play_fruit. rewrite Hg.
  destruct (Fruit.enabled g) eqn:Een.
  2: { right. split; [reflexivity|]. split; [exact Hsl|].
       intros j. case_decide as E; [|reflexivity].
       subst j. rewrite Hg. unfold fruit_turn. by rewrite Een. }
  destruct (below_screen g) eqn:Eb.
  { right. split; [reflexivity|]. split; [exact Hsl|].
    apply Hupd. unfold fruit_turn. by rewrite Een, Eb. }
  destruct (slash_hits fr u g) eqn:Eh.
  2: { right. split; [reflexivity|]. split; [exact Hsl|].
       apply Hupd. unfold fruit_turn. by rewrite Een, Eb, Hhit. }
  rewrite (SlashFruit_unfold u k g Hg). cbv zeta.
  assert (Hoff : forall j,
             get_fruit j (upd_fruit k (Fruit.set_enabled false) u) =
             if decide (k = j) then Some (fruit_turn fr t g) else get_fruit j u).
  { apply Hupd. unfold fruit_turn. by rewrite Een, Eb, Hhit. }
  destruct (Fruit.type g).
  1-3: right; split; [reflexivity|]; split; [exact Hsl | exact Hoff].
  left. split; [apply FromPlayToLoseState_state|].
  apply FromPlayToLoseState_clear. by apply upd_fruit_sized.
Qed.

Lemma play_fruits_turn fr t :
  pools_sized t -> state t <> loseState ->
  (state (play_fruits fr t) = loseState /\ board_clear (play_fruits fr t)) \/
  (state (play_fruits fr t) = state t /\
   forall j (g : Fruit.t),
     get_fruit j t = Some g ->
     get_fruit j (play_fruits fr t) = Some (fruit_turn fr t g)).
Proof.
  intros Hs Hn.
  pose (turned := fun (n : Z) (u : Game Rng) =>
          state u = state t /\ slashing u = slashing t /\ pools_sized u /\
          forall j (g : Fruit.t),
            get_fruit j t = Some g ->
            get_fruit j u = Some (if j <? n then fruit_turn fr t g else g)).
  assert (H : (state (play_fruits fr t) = loseState /\
               board_clear (play_fruits fr t)) \/
              turned MAX_FRUIT_COUNT (play_fruits fr t)).
  { unfold play_fruits.
    apply (for_loop_inv
             (fun n u => (state u = loseState /\ board_clear u) \/ turned n u)).
    - unfold MAX_FRUIT_COUNT. lia.
    - right. split; [reflexivity|]. split; [reflexivity|]. split; [exact Hs|].
      intros j g Hg. destruct (Z.ltb_spec j 0); [|exact Hg].
      apply array_get_range in Hg. lia.
    - intros k u Hk [[Hl Hb] | (Hu1 & Hu2 & Hu3 & Hu4)].
      + left. rewrite (board_clear_play_fruit fr u k Hb). auto.
      + destruct (array_get_in k (fruits t)) as [g Hg].
        { destruct Hs as [Hf _]. rewrite Hf. unfold MAX_FRUIT_COUNT in *. lia. }
        pose proof (Hu4 k g Hg) as Hk'.
        rewrite (proj2 (Z.ltb_ge k k)) in Hk' by lia.
        destruct (play_fruit_turn fr t u k g Hu3 Hu2 Hk') as [Hl | (E1 & E2 & E3)];
          [left; exact Hl | right].
        split; [congruence|]. split; [exact E2|].
        split; [apply (play_fruit_step fr u k Hu3)|].
        intros j g' Hg'. rewrite E3. case_decide as E.
        * subst j. replace g' with g by (unfold get_fruit in Hg'; congruence).
          rewrite (proj2 (Z.ltb_lt k (k + 1))) by lia. reflexivity.
        * rewrite (Hu4 j g' Hg'). f_equal.
          destruct (Z.ltb_spec j k), (Z.ltb_spec j (k + 1)); try reflexivity; lia. }
  destruct H as [H | (E1 & _ & _ & E4)]; [left; exact H | right].
  split; [exact E1|]. intros j g Hg. rewrite (E4 j g Hg).
  apply array_get_range in Hg. destruct Hs as [Hf _]. rewrite Hf in Hg.
  rewrite (proj2 (Z.ltb_lt j MAX_FRUIT_COUNT)) by lia. reflexivity.
Qed.

(** C3.  In a frame of the Play state the update runs the loop over the
    48 fruit slots on the state [t] left by the spawn test, and, unless
    the game is lost in that frame (which takes an enabled donut on the
    screen that the slash hits), every fruit enabled in [t] has at the
    end of the update gone through the first of these steps that
    applies: (1) when its vertical position exceeds [screenHeight] (540)
    it is disabled, and nothing else of it changes; (2) otherwise, when
    [slashing] is set and raylib finds the pointer within the circle of
    radius 32 centred on the fruit's position plus (32, 32), it goes
    through [SlashFruit], which disables it, and keeps its position and
    velocity this frame; (3) otherwise its position is advanced by its
    velocity and [gravity], which is negative, is subtracted from its
    vertical velocity, which does not decrease (the vertical axis points
    down).  A slot disabled in [t] is left as it is.  At every point of
    the loop the body does, for the slot it is at: step (1) without
    changing [score], [fruitsSlashed] or [state]; step (2) by
    [SlashFruit]; step (3); and no other slot changes, unless the game is
    lost by the slash. *)
Theorem play_fruit_spec fr s :
  pools_sized s ->
  state s = playState ->
  let t := before_fruits fr s in
  let s' := Update fr s in
  let below (f : Fruit.t) :=
    IEEE.lt (IEEE.of_int f32 540) (Vector2.y (Fruit.position f)) in
  let hit (f : Fruit.t) :=
    slashing t &&
    CheckCollisionPointCircle (GetMousePosition fr)
      (Vector2.mk
         (IEEE.add f32 (Vector2.x (Fruit.position f)) (IEEE.of_int f32 32))
         (IEEE.add f32 (Vector2.y (Fruit.position f)) (IEEE.of_int f32 32)))
      (IEEE.of_int f32 32) in
  let moved (f : Fruit.t) :=
    Fruit.mk (Fruit.type f)
      (Vector2.mk
         (IEEE.add f32 (Vector2.x (Fruit.position f)) (Vector2.x (Fruit.velocity f)))
         (IEEE.add f32 (Vector2.y (Fruit.position f)) (Vector2.y (Fruit.velocity f))))
      (Vector2.mk
         (Vector2.x (Fruit.velocity f))
         (IEEE.sub f32 (Vector2.y (Fruit.velocity f)) gravity))
      true in
  (t = play_spawn
         (play_particles fr (play_trail fr (play_input fr (play_timers fr s)))) /\
   slashing t = slashing_in fr s /\
   s' = UpdatePlayState fr s /\
   s' = for_loop 48 (play_fruit fr) t) /\
  (state s' = playState \/ state s' = loseState) /\
  (state s' = loseState ->
   exists i (f : Fruit.t),
     get_fruit i t = Some f /\ Fruit.type f = donutType /\
     Fruit.enabled f = true /\ below f = false /\ hit f = true) /\
  (forall i (f : Fruit.t),
     get_fruit i t = Some f -> Fruit.enabled f = true ->
     state s' = loseState \/
     get_fruit i s' =
       Some (if below f then Fruit.set_enabled false f
             else if hit f then Fruit.set_enabled false f
             else moved f)) /\
  (forall i (f : Fruit.t),
     get_fruit i t = Some f -> Fruit.enabled f = false ->
     get_fruit i s' = Some f) /\
  (forall (u : Game Rng) i (f : Fruit.t),
     pools_sized u ->
     get_fruit i u = Some f ->
     Fruit.enabled f = true ->
     let u' := play_fruit fr i u in
     let below :=
       IEEE.lt (IEEE.of_int f32 540) (Vector2.y (Fruit.position f)) in
     let hit :=
       slashing u &&
       CheckCollisionPointCircle (GetMousePosition fr)
         (Vector2.mk
            (IEEE.add f32 (Vector2.x (Fruit.position f)) (IEEE.of_int f32 32))
            (IEEE.add f32 (Vector2.y (Fruit.position f)) (IEEE.of_int f32 32)))
         (IEEE.of_int f32 32) in
     (below = true ->
        u' = upd_fruit i (Fruit.set_enabled false) u /\
        get_fruit i u' = Some (Fruit.set_enabled false f) /\
        score u' = score u /\ fruitsSlashed u' = fruitsSlashed u /\
        state u' = state u) /\
     (below = false -> hit = true ->
        u' = SlashFruit i u /\
        Fruit.position <$> get_fruit i u' = Some (Fruit.position f) /\
        Fruit.velocity <$> get_fruit i u' = Some (Fruit.velocity f)) /\
     (below = false -> hit = false ->
        u' = upd_fruit i move_fruit u /\
        get_fruit i u' =
          Some (Fruit.mk (Fruit.type f)
                  (Vector2.mk
                     (IEEE.add f32 (Vector2.x (Fruit.position f))
                                   (Vector2.x (Fruit.velocity f)))
                     (IEEE.add f32 (Vector2.y (Fruit.position f))
                                   (Vector2.y (Fruit.velocity f))))
                  (Vector2.mk
                     (Vector2.x (Fruit.velocity f))
                     (IEEE.sub f32 (Vector2.y (Fruit.velocity f)) gravity))
                  true)) /\
     (forall j, j <> i -> get_fruit j u' = get_fruit j u \/ state u' = loseState)) /\
  IEEE.lt gravity (IEEE.FFin false 0%N) = true /\
  (forall v : IEEE.fp,
     IEEE.representable f32 v ->
     IEEE.le v (IEEE.sub f32 v gravity) = true).
Proof.
  intros Hs Hst t s' below hit moved.
  assert (Hupd : s' = UpdatePlayState fr s)
    by (subst s'; unfold Update; rewrite Hst; reflexivity).
  assert (Hloop : s' = play_fruits fr t) by (rewrite Hupd; reflexivity).
  pose proof (before_fruits_sized fr s Hs) as Hst'. fold t in Hst'.
  pose proof (before_fruits_state fr s) as Est. fold t in Est. rewrite Hst in Est.
  pose proof (before_fruits_slashing fr s) as Esl. fold t in Esl.
  assert (Ht : t = play_spawn
                     (play_particles fr
                        (play_trail fr (play_input fr (play_timers fr s)))))
    by reflexivity.
  clearbody t s'.
  split; [split; [exact Ht | split; [exact Esl | split; [exact Hupd|]]]|].
  { rewrite Hloop. reflexivity. }
  split.
  { rewrite Hloop. destruct (play_fruits_state fr t) as [E | E];
      [left; congruence | right; exact E]. }
  split.
  { rewrite Hloop. intros Hl.
    destruct (play_fruits_hunt fr t) as (i & f & H); [congruence | exact Hl|].
    exists i, f. exact H. }
  split.
  { intros i f Hf Hen.
    destruct (play_fruits_turn fr t Hst') as [[Hl _] | [_ Hturn]];
      [congruence | left; rewrite Hloop; exact Hl | right].
    rewrite Hloop, (Hturn i f Hf). f_equal.
    unfold fruit_turn. rewrite Hen. rewrite move_fruit_eq, Hen. reflexivity. }
  split.
  { intros i f Hf Hen. rewrite Hloop. by apply play_fruits_disabled. }
  split.
  { intros u i f Hu Hf Hen.
    destruct (play_fruit_body fr i u f Hu Hf Hen) as (B1 & B2 & B3 & B4 & _).
    split; [exact B1|]. split; [exact B2|]. split; [exact B3 | exact B4]. }
  split; [exact gravity_negative|].
  intros v Hrep. rewrite gravity_value.
  destruct v as [| sv | sv nv].
  - destruct Hrep.
  - destruct sv; reflexivity.
  - apply IEEE_facts.sub_nonpos_le; [binary32_format | exact Hrep|].
    unfold IEEE.sval. lia.
Qed.

End Properties.

(** * Properties of the draw pass *)

#[global] Arguments centered : simpl never.
#[global] Arguments text_row : simpl never.

Section DrawProperties.

Context {Rng : Type} {raylib : Raylib Rng} {text_metrics : RaylibText}.

Implicit Types (s : Game Rng) (fr : Frame) (out : list DrawCall).

Lemma for_loop_ext {S : Type} (n : Z) (body1 body2 : Z -> S -> S) (s : S) :
  (forall i t, 0 <= i < n -> body1 i t = body2 i t) ->
  for_loop n body1 s = for_loop n body2 s.
Proof.
  intros H. destruct (Z.le_gt_cases 0 n) as [Hn | Hn].
  - apply (for_loop_inv (fun i t => t = for_loop i body2 s)); [exact Hn | reflexivity|].
    intros i t Hi ->. rewrite for_loop_succ by lia. by apply H.
  - unfold for_loop. replace (Z.to_nat n) with 0%nat by lia. reflexivity.
Qed.

(** A loop that emits one call for each slot that passes a test. *)
Lemma loop_emit {A B : Type} (en : A -> bool) (c : A -> B) (l : list A) (n : Z)
    (out : list B) :
  Z.of_nat (length l) = n ->
  for_loop n
    (fun i acc =>
       match array_get i l with
       | Some x => if en x then acc ++ [c x] else acc
       | None => acc
       end) out =
  out ++ (c <$> filter (fun x => en x = true) l).
Proof.
  intros Hn.
  transitivity (out ++ (c <$> filter (fun x => en x = true) (take (Z.to_nat n) l)));
    [|by rewrite take_ge by lia].
  apply (for_loop_inv
           (fun i t => t = out ++ (c <$> filter (fun x => en x = true)
                                           (take (Z.to_nat i) l)))); [lia | |].
  - simpl. by rewrite app_nil_r.
  - intros i t Hi ->.
    destruct (array_get_in i l ltac:(lia)) as [x Hx]. rewrite Hx.
    apply array_get_Some in Hx as [_ Hx].
    replace (Z.to_nat (i + 1)) with (S (Z.to_nat i)) by lia.
    rewrite (take_S_r l _ x Hx), filter_app, fmap_app, app_assoc.
    destruct (en x) eqn:E.
    + rewrite (filter_cons_True _ x []) by exact E. reflexivity.
    + rewrite (filter_cons_False _ x []) by (rewrite E; discriminate).
      rewrite filter_nil. simpl. by rewrite app_nil_r.
Qed.

Lemma DrawPlayState_eq s out :
  pools_sized s ->
  DrawPlayState s out =
  (out ++ (particle_call <$> filter (fun p => Particle.enabled p = true) (particles s)))
      ++ (fruit_call <$> filter (fun f => Fruit.enabled f = true) (fruits s)).
Proof.
  intros [Hf Hp]. unfold DrawPlayState. cbv zeta.
  rewrite <- (loop_emit Fruit.enabled fruit_call (fruits s) MAX_FRUIT_COUNT)
    by (rewrite Hf; unfold MAX_FRUIT_COUNT; lia).
  rewrite <- (loop_emit Particle.enabled particle_call (particles s) MAX_PARTICLE_COUNT)
    by (rewrite Hp; unfold MAX_PARTICLE_COUNT; lia).
  rewrite (for_loop_ext _ (draw_particle s)
             (fun i acc =>
                match array_get i (particles s) with
                | Some x => if Particle.enabled x then acc ++ [particle_call x] else acc
                | None => acc
                end)) by reflexivity.
  apply for_loop_ext. intros i t _. unfold draw_fruit, get_fruit.
  destruct (array_get i (fruits s)) as [f|]; [|reflexivity].
  destruct (Fruit.enabled f); [|reflexivity].
  unfold fruit_call. destruct (Fruit.type f); reflexivity.
Qed.

Lemma filter_length_le {A : Type} (P : A -> Prop) `{forall x, Decision (P x)}
    (l : list A) :
  (length (filter P l) <= length l)%nat.
Proof.
  induction l as [|x l IH]; [reflexivity|].
  destruct (decide (P x)).
  - rewrite filter_cons_True by assumption. simpl. lia.
  - rewrite filter_cons_False by assumption. simpl. lia.
Qed.

Lemma Draw_play_eq fr s :
  pools_sized s -> state s = playState ->
  Draw fr s =
    frame_head fr (slashing s)
      ++ (particle_call <$> filter (fun p => Particle.enabled p = true) (particles s))
      ++ (fruit_call <$> filter (fun f => Fruit.enabled f = true) (fruits s))
      ++ [EndDrawing].
Proof.
  intros Hs Hst. unfold Draw. cbv zeta. rewrite Hst, (DrawPlayState_eq s _ Hs).
  unfold frame_head. rewrite <- !app_assoc. reflexivity.
Qed.

(** X9.  What a frame of the Play state draws.  After the background and
    the pointer (green while slashing, white otherwise) come one green
    circle of radius 8 for each enabled particle, in slot order, then one
    texture, chosen by its type and placed at its position, for each
    enabled fruit, in slot order (so fruits are drawn over the trail);
    disabled slots draw nothing.  A frame thus makes 5 calls plus one for
    each enabled particle and fruit, at most 69. *)
Theorem Draw_play fr s :
  pools_sized s -> state s = playState ->
  Draw fr s =
    frame_head fr (slashing s)
      ++ (particle_call <$> filter (fun p => Particle.enabled p = true) (particles s))
      ++ (fruit_call <$> filter (fun f => Fruit.enabled f = true) (fruits s))
      ++ [EndDrawing] /\
  length (Draw fr s) = (5 + enabled_particles s + enabled_fruits s)%nat /\
  (length (Draw fr s) <= 69)%nat.
Proof.
  intros Hs Hst. pose proof (Draw_play_eq fr s Hs Hst) as E.
  split; [exact E|].
  assert (L : length (Draw fr s) = (5 + enabled_particles s + enabled_fruits s)%nat).
  { rewrite E. unfold frame_head, enabled_particles, enabled_fruits.
    rewrite !length_app, !length_fmap. simpl length. lia. }
  split; [exact L|]. rewrite L.
  destruct Hs as [Hf Hp]. unfold enabled_particles, enabled_fruits.
  pose proof (filter_length_le (fun f => Fruit.enabled f = true) (fruits s)) as H1.
  pose proof (filter_length_le (fun p => Particle.enabled p = true) (particles s)) as H2.
  rewrite Hf in H1. rewrite Hp in H2.
  unfold MAX_FRUIT_COUNT in H1. unfold MAX_PARTICLE_COUNT in H2. lia.
Qed.

(** ** What is drawn is what is enabled *)

Lemma count_calls_app (kind : DrawCall -> bool) (l1 l2 : list DrawCall) :
  count_calls kind (l1 ++ l2) = (count_calls kind l1 + count_calls kind l2)%nat.
Proof. unfold count_calls. rewrite List.filter_app. apply length_app. Qed.

Lemma count_calls_all {A : Type} (kind : DrawCall -> bool) (c : A -> DrawCall)
    (l : list A) :
  (forall x, kind (c x) = true) -> count_calls kind (c <$> l) = length l.
Proof.
  intros H. unfold count_calls.
  induction l as [|x l IH]; [reflexivity|].
  rewrite fmap_cons. simpl. rewrite H. simpl. by rewrite IH.
Qed.

Lemma count_calls_none {A : Type} (kind : DrawCall -> bool) (c : A -> DrawCall)
    (l : list A) :
  (forall x, kind (c x) = false) -> count_calls kind (c <$> l) = 0%nat.
Proof.
  intros H. unfold count_calls.
  induction l as [|x l IH]; [reflexivity|].
  rewrite fmap_cons. simpl. rewrite H. exact IH.
Qed.

Lemma Draw_idle_counts fr s :
  state s <> playState ->
  count_calls is_fruit_call (Draw fr s) = 0%nat /\
  count_calls is_circle_call (Draw fr s) = 1%nat.
Proof.
  intros Hst. unfold Draw. cbv zeta.
  destruct (state s); [|contradiction|].
  - unfold DrawStartState. cbv zeta. rewrite !count_calls_app.
    split; reflexivity.
  - unfold DrawLoseState. cbv zeta. rewrite !count_calls_app.
    split; reflexivity.
Qed.

(** X10.  The draw pass shows exactly what is enabled.  In every state
    reached from the initialised one, a frame draws as many fruit
    textures as there are enabled fruit slots, and as many circles as
    there are enabled particle slots plus one for the pointer; on the
    Start and Lose screens, in particular, no fruit and no trail is left
    to draw. *)
Theorem Draw_shows_enabled (g : Rng) (frames : list Frame) fr :
  count_calls is_fruit_call (Draw fr (main g frames)) =
    enabled_fruits (main g frames) /\
  count_calls is_circle_call (Draw fr (main g frames)) =
    S (enabled_particles (main g frames)).
Proof.
  destruct (main_inv g frames) as [Hs _].
  pose proof (main_idle g frames) as Hidle.
  destruct (state (main g frames)) eqn:Hst.
  2: { rewrite (Draw_play_eq fr _ Hs Hst). unfold frame_head.
       rewrite !count_calls_app.
       rewrite (count_calls_all is_fruit_call fruit_call) by reflexivity.
       rewrite (count_calls_none is_fruit_call particle_call) by reflexivity.
       rewrite (count_calls_all is_circle_call particle_call) by reflexivity.
       rewrite (count_calls_none is_circle_call fruit_call) by reflexivity.
       unfold enabled_fruits, enabled_particles. split.
       - change (count_calls is_fruit_call [EndDrawing]) with 0%nat.
         change (count_calls is_fruit_call _) with 0%nat. lia.
       - change (count_calls is_circle_call [EndDrawing]) with 0%nat.
         change (count_calls is_circle_call _) with 1%nat. lia. }
  all: destruct Hidle as [Hb _]; [discriminate|];
    destruct (board_clear_enabled _ Hb) as [-> ->];
    apply Draw_idle_counts; rewrite Hst; discriminate.
Qed.

(** ** The texts of the Lose screen *)

Lemma length_append (a b : string) :
  String.length (a +:+ b) = (String.length a + String.length b)%nat.
Proof. induction a as [|c a IH]; simpl; [reflexivity | by rewrite IH]. Qed.

Lemma pretty_N_go_length (k : nat) (x : N) (acc : string) :
  (x < 10 ^ N.of_nat k)%N ->
  (String.length (pretty_N_go x acc) <= k + String.length acc)%nat.
Proof.
  revert x acc. induction k as [|k IH]; intros x acc Hx.
  - assert (x = 0%N) by (simpl in Hx; lia). subst x.
    rewrite pretty_N_go_0. lia.
  - destruct (N.eq_dec x 0%N) as [-> | Hx0]; [rewrite pretty_N_go_0; lia|].
    rewrite pretty_N_go_step by lia.
    etransitivity; [apply IH | simpl; lia].
    apply N.Div0.div_lt_upper_bound.
    replace (N.of_nat (S k)) with (N.succ (N.of_nat k)) in Hx by lia.
    rewrite N.pow_succ_r' in Hx. exact Hx.
Qed.

Lemma pretty_positive_length (p : positive) :
  (Z.pos p <= 2 ^ 31) -> (String.length (pretty p) <= 10)%nat.
Proof.
  intros Hp. unfold pretty, pretty_positive, pretty, pretty_N.
  case_decide as E; [discriminate|]. clear E.
  pose proof (pretty_N_go_length 10 (N.pos p) EmptyString) as Hlen.
  simpl String.length in Hlen. rewrite Nat.add_0_r in Hlen. apply Hlen.
  change (10 ^ N.of_nat 10)%N with 10000000000%N.
  change (2 ^ 31) with 2147483648 in Hp. lia.
Qed.

Lemma pretty_int_length (v : Z) :
  INT_MIN <= v <= INT_MAX -> (String.length (pretty v) <= 11)%nat.
Proof.
  unfold INT_MIN, INT_MAX. intros Hv. destruct v as [|p|p].
  - simpl. lia.
  - change (pretty (Z.pos p)) with (pretty p).
    pose proof (pretty_positive_length p). change (2 ^ 31) with 2147483648 in *. lia.
  - change (pretty (Z.neg p)) with ("-" +:+ pretty p).
    rewrite length_append. simpl String.length.
    pose proof (pretty_positive_length p). change (2 ^ 31) with 2147483648 in *. lia.
Qed.

(** X11.  The two [sprintf] calls of the Lose screen stay within their
    buffers.  Whatever [int] value a counter holds, "Fruits Slashed: %d"
    writes at most 28 bytes and "Score: %d" at most 19 bytes, the final
    NUL included, into buffers of 32 bytes. *)
Theorem lose_screen_buffers_fit (v : Z) :
  INT_MIN <= v <= INT_MAX ->
  bytes_written (sprintf_d "Fruits Slashed: " v) <= 28 <= BUFFER_SIZE /\
  bytes_written (sprintf_d "Score: " v) <= 19 <= BUFFER_SIZE.
Proof.
  intros Hv. pose proof (pretty_int_length v Hv) as H.
  unfold bytes_written, sprintf_d, BUFFER_SIZE.
  rewrite !length_append. simpl String.length. lia.
Qed.

End DrawProperties.

(** * The properties on the sample game *)

Lemma sample_raylib_spec : RaylibSpec sample_raylib.
Proof.
  intros lo hi g Hle. simpl. unfold sample_GetRandomValue.
  destruct (Z.ltb_spec hi lo); [lia|]. simpl.
  rewrite Z.abs_eq by lia.
  pose proof (Z.mod_pos_bound ((g * 1103515245 + 12345) mod 2 ^ 31) (hi - lo + 1)).
  lia.
Qed.

Lemma sample_waiting_ok : pools_sized sample_waiting /\ cursors_in_range sample_waiting.
Proof. unfold sample_waiting. apply main_inv. Qed.

Lemma sample_slashing_sized (ty : FruitType) : pools_sized (sample_slashing ty).
Proof.
  unfold sample_slashing. apply set_slashing_sized, upd_fruit_sized.
  exact (proj1 sample_waiting_ok).
Qed.

Lemma sample_slashing_cursors (ty : FruitType) :
  cursors_in_range (sample_slashing ty).
Proof.
  unfold sample_slashing. apply set_slashing_cursors, upd_fruit_cursors.
  exact (proj2 sample_waiting_ok).
Qed.

Lemma sample_waiting_play : state sample_waiting = playState.
Proof. vm_compute. reflexivity. Qed.

Lemma sample_slashing_play (ty : FruitType) : state (sample_slashing ty) = playState.
Proof. vm_compute. reflexivity. Qed.

Lemma sample_donut_lost :
  state (Update sample_on_fruit (sample_slashing donutType)) = loseState.
Proof. vm_compute. reflexivity. Qed.

Lemma slash_hit_spec_witness :
  let s := sample_slashing cherryType in
  let s' := play_fruit sample_on_fruit 5 s in
  score s' = score s + 9 /\ fruitsSlashed s' = fruitsSlashed s + 1 /\
  state s' = state s.
Proof.
  intros s s'.
  destruct (slash_hit_spec sample_on_fruit 5 s (sample_fruit cherryType))
    as (_ & _ & H).
  - apply sample_slashing_sized.
  - vm_compute. repeat split. all: discriminate.
  - vm_compute. reflexivity.
  - reflexivity.
  - vm_compute. reflexivity.
  - vm_compute. reflexivity.
  - exact H.
Defined.

Lemma FromPlayToLoseState_spec_witness :
  let s' := FromPlayToLoseState (sample_slashing cherryType) in
  state s' = loseState /\ enabled_fruits s' = 0%nat /\
  enabled_particles s' = 0%nat.
Proof.
  intros s'.
  destruct (FromPlayToLoseState_spec (sample_slashing cherryType)
              (sample_slashing_sized cherryType))
    as (H1 & _ & _ & H2 & H3 & _).
  exact (conj H1 (conj H2 H3)).
Defined.

Lemma play_fruit_spec_witness :
  let s := sample_slashing bananaType in
  state (Update sample_idle s) = loseState \/
  get_fruit 5 (Update sample_idle s) =
  Some (Fruit.mk bananaType
          (Vector2.mk
             (IEEE.add f32 (IEEE.of_int f32 300) (IEEE.of_int f32 2))
             (IEEE.add f32 (IEEE.of_int f32 200) (IEEE.of_int f32 (-7))))
          (Vector2.mk (IEEE.of_int f32 2)
                      (IEEE.sub f32 (IEEE.of_int f32 (-7)) gravity))
          true).
Proof.
  intros s.
  destruct (play_fruit_spec sample_idle s (sample_slashing_sized bananaType)
              (sample_slashing_play bananaType))
    as (_ & _ & _ & H & _).
  destruct (H 5 (sample_fruit bananaType)) as [Hl | Hg].
  - vm_compute. reflexivity.
  - reflexivity.
  - left. exact Hl.
  - right. rewrite Hg. vm_compute. reflexivity.
Defined.

Lemma Lose_to_Start_spec_witness :
  state sample_lost = loseState /\
  Update sample_press sample_lost = FromLoseToStartState sample_lost.
Proof.
  assert (H : state sample_lost = loseState).
  { unfold sample_lost.
    rewrite (FromPlayToLoseState_eq (sample_slashing donutType)
               (sample_slashing_sized donutType)).
    reflexivity. }
  split; [exact H|].
  apply (Lose_to_Start_spec sample_press sample_lost H).
Defined.

Lemma spawn_test_spec_witness :
  let s4 :=
    play_particles sample_stall
      (play_trail sample_stall
         (play_input sample_stall (play_timers sample_stall sample_waiting))) in
  spawnElapsed (play_spawn s4) = IEEE.FFin false 0 /\
  nextFruitIndex (play_spawn s4) = (nextFruitIndex sample_waiting + 1) mod 48.
Proof.
  intros s4.
  destruct (spawn_test_spec sample_stall sample_waiting
              (proj1 sample_waiting_ok) (proj2 sample_waiting_ok))
    as (_ & _ & H & _).
  destruct H as (_ & H1 & H2 & _); [vm_compute; reflexivity|].
  exact (conj H1 H2).
Defined.

Lemma spawn_type_spec_witness :
  1 <= fst (GetRandomValue 1 100 (rng sample_waiting)) <= 100.
Proof.
  destruct (spawn_type_spec sample_waiting sample_raylib_spec
              (proj1 sample_waiting_ok) (proj2 sample_waiting_ok))
    as (H & _).
  exact H.
Defined.

Lemma SpawnFruit_spec_witness :
  nextFruitIndex (SpawnFruit sample_waiting) = (nextFruitIndex sample_waiting + 1) mod 48.
Proof.
  destruct (SpawnFruit_spec sample_waiting sample_raylib_spec
              (proj1 sample_waiting_ok) (proj2 sample_waiting_ok))
    as (_ & _ & _ & _ & _ & H & _).
  exact H.
Defined.

Lemma trail_spec_witness :
  let s := sample_slashing cherryType in
  get_particle (nextParticleIndex s)
    (play_trail sample_on_fruit
       (play_input sample_on_fruit (play_timers sample_on_fruit s))) =
  Some (Particle.mk (GetMousePosition sample_on_fruit) (IEEE.FFin false 0) true).
Proof.
  intros s.
  destruct (trail_spec sample_on_fruit s (sample_slashing_sized cherryType)
              (sample_slashing_cursors cherryType))
    as (_ & H & _).
  destruct H as (H & _); [vm_compute; reflexivity|].
  exact H.
Defined.

Lemma disabled_slot_kept_witness :
  get_fruit 3 (Update sample_stall sample_waiting) = Some zero_fruit.
Proof.
  apply disabled_slot_kept.
  - vm_compute. reflexivity.
  - reflexivity.
  - intros _ _. vm_compute. discriminate.
Defined.

Lemma lose_needs_donut_witness :
  slashing_in sample_on_fruit (sample_slashing donutType) = true.
Proof.
  destruct (lose_needs_donut sample_on_fruit (sample_slashing donutType)
              (sample_slashing_play donutType) sample_donut_lost) as [H _].
  exact H.
Defined.

Lemma idle_frame_falls_witness :
  state (Update sample_release (sample_slashing cherryType)) = playState /\
  score (Update sample_release (sample_slashing cherryType)) =
    score (sample_slashing cherryType).
Proof.
  destruct (idle_frame_falls sample_release (sample_slashing cherryType)
              (sample_slashing_sized cherryType) (sample_slashing_play cherryType))
    as (_ & H1 & H2 & _).
  - reflexivity.
  - exact (conj H1 H2).
Defined.

Lemma counters_bounded_witness : counters_in_range (main 7 [sample_press]).
Proof.
  destruct (counters_bounded 7 [sample_press]) as (_ & _ & H).
  - simpl. lia.
  - exact H.
Defined.

Lemma fresh_fruit_rises_witness :
  exists (f : Fruit.t) (x y : Z),
    get_fruit (nextFruitIndex sample_waiting) (Update sample_stall sample_waiting) =
      Some f /\
    Fruit.enabled f = true /\
    Fruit.position f = Vector2.mk (IEEE.of_int f32 x) (IEEE.of_int f32 y) /\
    235 <= x <= 725 /\ 520 <= y <= 535.
Proof.
  destruct (fresh_fruit_rises sample_stall sample_waiting sample_raylib_spec
              (proj1 sample_waiting_ok) (proj2 sample_waiting_ok)
              sample_waiting_play)
    as (ty & x & y & vx & H & Hx & Hy & _).
  - reflexivity.
  - vm_compute. reflexivity.
  - eexists _, x, y. split; [exact H|].
    split; [reflexivity|]. split; [reflexivity|]. split; [exact Hx | exact Hy].
Defined.

Lemma rng_drawn_on_spawn_witness :
  rng (Update sample_idle sample_waiting) = rng sample_waiting.
Proof.
  destruct (rng_drawn_on_spawn sample_idle sample_waiting (proj1 sample_waiting_ok))
    as [H _].
  apply H. right. vm_compute. reflexivity.
Defined.

Lemma Draw_play_witness :
  (length (Draw sample_idle (sample_slashing appleType)) <= 69)%nat.
Proof.
  destruct (Draw_play sample_idle (sample_slashing appleType)
              (sample_slashing_sized appleType) (sample_slashing_play appleType))
    as (_ & _ & H).
  exact H.
Defined.

Lemma lose_screen_buffers_fit_witness :
  bytes_written (sprintf_d "Fruits Slashed: " (-2147483648)) <= 28 <= BUFFER_SIZE /\
  bytes_written (sprintf_d "Score: " (-2147483648)) <= 19 <= BUFFER_SIZE.
Proof.
  apply (lose_screen_buffers_fit (-2147483648)).
  unfold INT_MIN, INT_MAX. lia.
Defined.

Lemma donut_ends_frame_witness :
  exists i,
    0 <= i < MAX_FRUIT_COUNT /\
    Update sample_on_fruit (sample_slashing donutType) =
      FromPlayToLoseState
        (upd_fruit i (Fruit.set_enabled false)
           (for_loop i (play_fruit sample_on_fruit)
              (before_fruits sample_on_fruit (sample_slashing donutType)))).
Proof.
  destruct (donut_ends_frame sample_on_fruit (sample_slashing donutType)
              (sample_slashing_sized donutType) (sample_slashing_play donutType)
              sample_donut_lost)
    as (i & Hi & _ & H & _).
  exists i. exact (conj Hi H).
Defined.
